(** * Meeting summarizer and keyword extraction: a shallow embedding

    The development follows two source files of the repository:
    - [Meeting_AIWord_detect/meeting_realtime.py]: the heuristic meeting
      summarizer ([ThaiMeetingSummarizer]) and the live capture object
      ([RealTimeAugmenter]) with what it shows and saves;
    - [PW/main.py]: the server's [extract_keywords], its pool of
      recognizers and the transcription request.

    Python [str] values are sequences of Unicode code points, so that [len],
    slicing, [strip] and the regular expressions count characters the way
    Python does. The libraries (pythainlp, google.generativeai,
    speech_recognition, vosk, pydub) stay outside the model: their calls
    are fields of environment records, and a call that raises is an
    explicit outcome. Two facts about the libraries are hypotheses where
    they decide what the code does: [genai.configure] takes keyword
    arguments only ([keyword_only]), and pythainlp's [pos_tag] has no
    engine called "orchid_ud" ([no_such_engine]). *)

From Stdlib Require Import NArith ZArith String Ascii List Sorted Permutation Lia.
From Stdlib Require Strings.Byte DecimalString.
From stdpp Require Import base decidable option list gmap.
Import ListNotations.

Set Warnings "-register-all".

(* ===================================================================== *)
(** ** Python strings *)
(* ===================================================================== *)

Module PyStr.

(** A Python [str]: the list of its code points. *)
Abbreviation pystr := (list N).

(** Decoding of the UTF-8 bytes of a literal into code points; [acc] is the
    code point being assembled and [more] the continuation bytes it still
    expects. *)
Fixpoint utf8_go (bs : list N) (acc : N) (more : nat) : pystr :=
  match bs with
  | [] => []
  | b :: bs' =>
      match more with
      | O =>
          if (b <? 128)%N then b :: utf8_go bs' 0%N 0
          else if (b <? 224)%N then utf8_go bs' (N.land b 31) 1
          else if (b <? 240)%N then utf8_go bs' (N.land b 15) 2
          else utf8_go bs' (N.land b 7) 3
      | S O => (acc * 64 + N.land b 63)%N :: utf8_go bs' 0%N 0
      | S m => utf8_go bs' (acc * 64 + N.land b 63)%N m
      end
  end.

(** [str "..."] is the Python string written by the literal. *)
Definition str (s : string) : pystr :=
  utf8_go (List.map N_of_ascii (list_ascii_of_string s)) 0%N 0.

Definition in_ranges (c : N) (rs : list (N * N)) : bool :=
  List.existsb (fun r => (fst r <=? c)%N && (c <=? snd r)%N) rs.

(** The characters for which [str.isspace] holds; the same set is what
    [\s] matches in a [str] pattern and what [strip()] and [split()]
    remove. *)
Definition whitespace_ranges : list (N * N) :=
  [ (9, 13); (28, 32); (133, 133); (160, 160); (5760, 5760);
    (8192, 8202); (8232, 8233); (8239, 8239); (8287, 8287);
    (12288, 12288) ]%N.

Definition isspace (c : N) : bool := in_ranges c whitespace_ranges.

(** First code points of the runs of ten decimal digits of Unicode
    category Nd, which is what [\d] matches in a [str] pattern; the
    mathematical digits U+1D7CE..U+1D7FF are fifty consecutive ones. *)
Definition decimal_digit_starts : list N :=
  [ 48; 1632; 1776; 1984; 2406; 2534; 2662; 2790; 2918; 3046; 3174; 3302;
    3430; 3558; 3664; 3792; 3872; 4160; 4240; 6112; 6160; 6470; 6608;
    6784; 6800; 6992; 7088; 7232; 7248; 42528; 43216; 43264; 43472;
    43504; 43600; 44016; 65296; 66720; 68912; 69734; 69872; 69942;
    70096; 70384; 70736; 70864; 71248; 71360; 71472; 71904; 72016;
    72784; 73040; 73120; 92768; 92864; 93008; 123200; 123632; 125264;
    130032 ]%N.

Definition isdecimal (c : N) : bool :=
  in_ranges c (List.map (fun a => (a, a + 9)%N) decimal_digit_starts)
  || ((120782 <=? c)%N && (c <=? 120831)%N).

(** Truth value of a string: non-empty. *)
Definition truthy (s : pystr) : bool :=
  match s with [] => false | _ :: _ => true end.

Fixpoint lstrip (s : pystr) : pystr :=
  match s with
  | [] => []
  | c :: s' => if isspace c then lstrip s' else s
  end.

Definition rstrip (s : pystr) : pystr := rev (lstrip (rev s)).

(** [s.strip()] *)
Definition strip (s : pystr) : pystr := rstrip (lstrip s).

(** [s.startswith(t)] *)
Fixpoint startswith (t s : pystr) : bool :=
  match t, s with
  | [], _ => true
  | _ :: _, [] => false
  | a :: t', b :: s' => (a =? b)%N && startswith t' s'
  end.

(** [t in s]: [t] occurs in [s] as a contiguous substring. *)
Fixpoint contains (t s : pystr) : bool :=
  startswith t s
  || match s with
     | [] => false
     | _ :: s' => contains t s'
     end.

(** [sep.join(parts)] *)
Fixpoint join (sep : pystr) (parts : list pystr) : pystr :=
  match parts with
  | [] => []
  | [p] => p
  | p :: ps => p ++ sep ++ join sep ps
  end.

(** [s.split()] with no argument: the maximal runs of non-whitespace
    characters; [cur] is the run being read. *)
Fixpoint split_go (s cur : pystr) : list pystr :=
  match s with
  | [] => if truthy cur then [cur] else []
  | c :: s' =>
      if isspace c
      then (if truthy cur then cur :: split_go s' [] else split_go s' [])
      else split_go s' (cur ++ [c])
  end.

Definition split (s : pystr) : list pystr := split_go s [].

End PyStr.

(* ===================================================================== *)
(** ** The fragment of [re] the sources use *)
(* ===================================================================== *)

Module Re.
Import PyStr.

Inductive charclass :=
| Space                 (* \s *)
| NotSpace              (* [^\s] *)
| Digit                 (* \d *)
| OneOf (cs : pystr).   (* [...] listing characters *)

Definition in_class (cl : charclass) (c : N) : bool :=
  match cl with
  | Space => isspace c
  | NotSpace => negb (isspace c)
  | Digit => isdecimal c
  | OneOf cs => List.existsb (N.eqb c) cs
  end.

(** Patterns: literals, one character of a class, a greedy bounded or
    unbounded repetition of a class ([*], [+], [{m,n}], [{m,}]),
    concatenation, ordered alternation and groups. *)
Inductive regex :=
| Lit (s : pystr)
| Class (cl : charclass)
| Repeat (cl : charclass) (lo : nat) (hi : option nat)
| Cat (r1 r2 : regex)
| Alt (r1 r2 : regex)
| Group (r : regex).

Definition may_take (hi : option nat) : bool :=
  match hi with
  | Some O => false
  | _ => true
  end.

(** Greedy repetition with backtracking: take one more character when the
    class and the bound allow it and the rest of the pattern then
    succeeds; otherwise stop here, if [lo] characters were taken.
    [k] is the rest of the pattern; the result is the unmatched rest of
    the input. *)
Fixpoint repeat_greedy (cl : charclass) (lo : nat) (hi : option nat)
    (s : pystr) (k : pystr -> option pystr) : option pystr :=
  let stop := match lo with O => k s | S _ => None end in
  match s with
  | [] => stop
  | c :: s' =>
      if in_class cl c && may_take hi then
        match repeat_greedy cl (Nat.pred lo) (Nat.pred <$> hi) s' k with
        | Some rest => Some rest
        | None => stop
        end
      else stop
  end.

(** Backtracking matcher in continuation style, with the priorities of
    Python's engine: alternatives left to right, repetitions greedy. *)
Fixpoint match_k (r : regex) (s : pystr) (k : pystr -> option pystr)
    : option pystr :=
  match r with
  | Lit t => if startswith t s then k (drop (length t) s) else None
  | Class cl =>
      match s with
      | c :: s' => if in_class cl c then k s' else None
      | [] => None
      end
  | Repeat cl lo hi => repeat_greedy cl lo hi s k
  | Cat r1 r2 => match_k r1 s (fun s' => match_k r2 s' k)
  | Alt r1 r2 =>
      match match_k r1 s k with
      | Some rest => Some rest
      | None => match_k r2 s k
      end
  | Group r' => match_k r' s k
  end.

(** A match anchored at the start of [s]: the matched prefix. *)
Definition match_here (r : regex) (s : pystr) : option pystr :=
  (fun rest => take (length s - length rest) s) <$> match_k r s Some.

(** [re.search(r, s)]: the match at the leftmost position that has one.
    Every pattern of the source is one group around the whole pattern, so
    the text returned is also its [group(1)]. *)
Fixpoint search (r : regex) (s : pystr) : option pystr :=
  match match_here r s with
  | Some m => Some m
  | None =>
      match s with
      | [] => None
      | _ :: s' => search r s'
      end
  end.

(** [re.split(r, s)] for a pattern that cannot match the empty string
    (both patterns split on in the source are of this kind): [cur] is the
    piece being read and [skip] the characters left of a separator. *)
Fixpoint split_go (r : regex) (s : pystr) (skip : nat) (cur : pystr)
    : list pystr :=
  match s with
  | [] => [cur]
  | c :: s' =>
      match skip with
      | S n => split_go r s' n cur
      | O =>
          match length <$> match_here r s with
          | Some (S n) => cur :: split_go r s' n []
          | _ => split_go r s' 0 (cur ++ [c])
          end
      end
  end.

Definition split (r : regex) (s : pystr) : list pystr := split_go r s 0 [].

End Re.

(* ===================================================================== *)
(** ** Python values, outcomes of calls that may raise *)
(* ===================================================================== *)

Module Py.
Import PyStr.

(** The values [json.loads] produces, which are also what a summary
    dictionary is made of. A float is its IEEE-754 binary64 bit pattern. *)
Inductive pyvalue :=
| PNone
| PBool (b : bool)
| PInt (z : Z)
| PFloat (bits : Z)
| PStr (s : pystr)
| PList (items : list pyvalue)
| PDict (items : list (pystr * pyvalue)).

(** Truth value of a Python value, as tested by [if data:]. *)
Definition truthy (v : pyvalue) : bool :=
  match v with
  | PNone => false
  | PBool b => b
  | PInt z => negb (z =? 0)%Z
  | PFloat bits => negb (Z.land bits (2 ^ 63 - 1) =? 0)%Z
  | PStr s => PyStr.truthy s
  | PList items => match items with [] => false | _ => true end
  | PDict items => match items with [] => false | _ => true end
  end.

(** An exception, by the name of its class. *)
Inductive exception := Exc (class_name : string).

(** What a call does: return a value or raise. *)
Inductive outcome (A : Type) :=
| Returned (a : A)
| Raised (e : exception).
Arguments Returned {A} a.
Arguments Raised {A} e.

(** Sequencing: an exception raised by the first call is raised by the
    whole. Written [x ← c; k] below. *)
#[global] Instance outcome_bind : MBind outcome := fun A B f c =>
  match c with
  | Returned a => f a
  | Raised e => Raised e
  end.

(** [try: body  except Exception: handler] *)
Definition try_except {A} (body : outcome A) (handler : exception -> outcome A)
    : outcome A :=
  match body with
  | Returned a => Returned a
  | Raised e => handler e
  end.

(** A dict in insertion order: [d.get(k, default)] and [d[k] = v], which
    keeps the position of a key already present and appends a new one. *)
Fixpoint dict_get {V} (d : list (pystr * V)) (k : pystr) (default : V) : V :=
  match d with
  | [] => default
  | (k', v) :: d' => if bool_decide (k' = k) then v else dict_get d' k default
  end.

Fixpoint dict_set {V} (d : list (pystr * V)) (k : pystr) (v : V)
    : list (pystr * V) :=
  match d with
  | [] => [(k, v)]
  | (k', v') :: d' =>
      if bool_decide (k' = k) then (k', v) :: d' else (k', v') :: dict_set d' k v
  end.

End Py.


(* ===================================================================== *)
(** ** [meeting_realtime.py]: ThaiMeetingSummarizer *)
(* ===================================================================== *)

Module Meeting.
Import PyStr Re Py.

(** [time.time()] values. No operation below inspects a timestamp. *)
Definition timestamp := Z.

(** pythainlp, when it could be imported ([HAS_THAI]); a call that raises
    gives [None]. *)
Record ThaiNLP := {
  HAS_THAI : bool;
  word_tokenize : pystr -> option (list pystr);
  sent_tokenize : pystr -> option (list pystr)
}.

(** The object's state is its utterance list; [language] is never read
    and the vocabularies and patterns set by [__init__] never change, so
    they are constants here. *)
Record ThaiMeetingSummarizer := {
  utterances : list (timestamp * pystr)
}.

Definition topic_stopwords : gset pystr :=
  list_to_set (List.map str
    [ "ครับ"; "ค่ะ"; "คะ"; "เรา"; "เขา"; "ที่"; "ว่า"; "และ"; "หรือ"; "ก็";
      "คือ"; "มัน"; "ได้"; "ๆ"; "นะ"; "ค่ะ"; "ครับ";
      "เอ่อ"; "อ่า"; "แบบว่า"; "คือว่า"; "ก็คือ"; "แบบ" ]%string).

Definition decision_triggers : list pystr :=
  List.map str
    [ "ตัดสินใจ"; "อนุมัติ"; "ยืนยัน"; "สรุปว่า"; "ข้อสรุป"; "ตกลงว่า" ]%string.

Definition action_triggers : list pystr :=
  List.map str
    [ "มอบหมาย"; "รับผิดชอบ"; "ต้องทำ"; "จะทำ"; "ดำเนินการ"; "ภายใน";
      "ก่อน"; "ส่ง"; "ติดตาม"; "เดดไลน์"; "กำหนดส่ง" ]%string.

Definition risk_triggers : list pystr :=
  List.map str
    [ "ความเสี่ยง"; "เสี่ยง"; "ปัญหา"; "ติดขัด"; "ค้าง"; "ยังไม่เสร็จ";
      "รอ"; "อาจ"; "ขึ้นอยู่กับ"; "บล็อค" ]%string.

(** Concatenation of a list of patterns, and alternation of a non-empty
    one. *)
Definition cat (rs : list regex) : regex := fold_right Cat (Lit []) rs.

Fixpoint alt (r : regex) (rs : list regex) : regex :=
  match rs with
  | [] => r
  | r' :: rs' => Alt r (alt r' rs')
  end.

Definition lit (s : string) : regex := Lit (str s).

(** [(คุณ[^\s]+)] and its siblings. *)
Definition honorific (h : string) : regex :=
  Group (cat [lit h; Repeat NotSpace 1 None]).

Definition assignee_patterns : list regex :=
  List.map honorific [ "คุณ"; "พี่"; "นาย"; "นาง"; "นางสาว" ]%string.

Definition spaces : regex := Repeat Space 0 None.       (* \s* *)
Definition digits (lo : nat) (hi : option nat) : regex := Repeat Digit lo hi.

Definition due_patterns : list regex :=
  [ (* (ภายใน\s*\d+\s*(วัน|สัปดาห์|เดือน)) *)
    Group (cat [ lit "ภายใน"; spaces; digits 1 None; spaces;
                 Group (alt (lit "วัน") [lit "สัปดาห์"; lit "เดือน"]) ]);
    (* (ก่อน\s*วันที่\s*\d{1,2}/\d{1,2}/\d{2,4}) *)
    Group (cat [ lit "ก่อน"; spaces; lit "วันที่"; spaces;
                 digits 1 (Some 2); lit "/"; digits 1 (Some 2); lit "/";
                 digits 2 (Some 4) ]);
    (* (ภายใน\s*สัปดาห์นี้|ภายใน\s*เดือนนี้|สิ้นเดือนนี้|สัปดาห์หน้า|เดือนหน้า) *)
    Group (alt (cat [lit "ภายใน"; spaces; lit "สัปดาห์นี้"])
               [ cat [lit "ภายใน"; spaces; lit "เดือนนี้"];
                 lit "สิ้นเดือนนี้"; lit "สัปดาห์หน้า"; lit "เดือนหน้า" ]) ].

(** The default of [_extract_assignee] and [_extract_due]. *)
Definition unspecified : pystr := str "ไม่ระบุ".

Definition add_utterance (sm : ThaiMeetingSummarizer) (ts : timestamp)
    (text : pystr) : ThaiMeetingSummarizer :=
  {| utterances := utterances sm ++ [(ts, text)] |}.

(** [[\.!\?\n]|[ ]{2,}|[|]] *)
Definition sentence_separator : regex :=
  alt (Class (OneOf (str ".!?" ++ [10%N])))
      [ Repeat (OneOf (str " ")) 2 None; Class (OneOf (str "|")) ].

(** [[x.strip() for x in parts if x.strip()]] *)
Definition stripped_nonblank (parts : list pystr) : list pystr :=
  List.map strip (List.filter (fun p => PyStr.truthy (strip p)) parts).

Definition _thai_sentences (nlp : ThaiNLP) (text : pystr) : list pystr :=
  let fallback := stripped_nonblank (Re.split sentence_separator text) in
  if HAS_THAI nlp then
    match sent_tokenize nlp text with
    | Some sentences => stripped_nonblank sentences
    | None => fallback
    end
  else fallback.

(** [[w for w in ws if w.strip()]] *)
Definition nonblank (ws : list pystr) : list pystr :=
  List.filter (fun w => PyStr.truthy (strip w)) ws.

Definition _thai_words (nlp : ThaiNLP) (text : pystr) : list pystr :=
  let fallback := nonblank (Re.split (Repeat Space 1 None) text) in
  if HAS_THAI nlp then
    match word_tokenize nlp text with
    | Some ws => nonblank ws
    | None => fallback
    end
  else fallback.

(** One round of the counting loop of [_extract_topics]. *)
Definition count_word (freq : list (pystr * nat)) (w : pystr)
    : list (pystr * nat) :=
  if bool_decide (w ∈ topic_stopwords) then freq
  else if length w <? 2 then freq
  else dict_set freq w (dict_get freq w 0 + 1).

(** [sorted(items, key=lambda x: x[1], reverse=True)]. Python's sort is
    stable, also under [reverse=True]: items of equal count keep their
    order. [insert_by_count x l] puts [x], which came before the items of
    [l], in front of the first item whose count is not larger. *)
Fixpoint insert_by_count (x : pystr * nat) (l : list (pystr * nat))
    : list (pystr * nat) :=
  match l with
  | [] => [x]
  | y :: l' => if snd y <=? snd x then x :: l else y :: insert_by_count x l'
  end.

Definition sorted_by_count_desc (items : list (pystr * nat))
    : list (pystr * nat) :=
  fold_right insert_by_count [] items.

Definition _extract_topics (nlp : ThaiNLP) (all_text : pystr) (topn : nat)
    : list pystr :=
  let words := _thai_words nlp all_text in
  let freq := fold_left count_word words [] in
  let topics := take topn (sorted_by_count_desc freq) in
  List.map fst topics.

Definition _match_any (text : pystr) (triggers : list pystr) : bool :=
  List.existsb (fun t => contains t text) triggers.

(** The loop of [_extract_assignee] and of [_extract_due]: the first
    pattern that is found anywhere in the sentence decides. *)
Fixpoint first_found (pats : list regex) (sentence : pystr) : pystr :=
  match pats with
  | [] => unspecified
  | pat :: pats' =>
      match search pat sentence with
      | Some m => m
      | None => first_found pats' sentence
      end
  end.

Definition _extract_assignee (sentence : pystr) : pystr :=
  first_found assignee_patterns sentence.

Definition _extract_due (sentence : pystr) : pystr :=
  first_found due_patterns sentence.

Record ActionItem := {
  assignee : pystr;
  task : pystr;
  due : pystr
}.

(** The dictionary [summarize_offline] returns, by its keys. *)
Record SummaryDocument := {
  summary : pystr;
  topics : list pystr;
  decisions : list pystr;
  action_items : list ActionItem;
  risks_or_followups : list pystr;
  highlights : list pystr
}.

(** The three lists the sentence loop appends to. *)
Definition buckets : Type := list pystr * list ActionItem * list pystr.

(** The body of the sentence loop: three independent tests. *)
Definition classify (acc : buckets) (sent : pystr) : buckets :=
  let '(decisions, action_items, risks) := acc in
  let decisions :=
    if _match_any sent decision_triggers then decisions ++ [sent]
    else decisions in
  let action_items :=
    if _match_any sent action_triggers
    then action_items ++ [ {| assignee := _extract_assignee sent;
                              task := sent;
                              due := _extract_due sent |} ]
    else action_items in
  let risks :=
    if _match_any sent risk_triggers then risks ++ [sent] else risks in
  (decisions, action_items, risks).

(** The two nested loops over utterances and their sentences. *)
Definition classify_all (nlp : ThaiNLP) (us : list (timestamp * pystr))
    : buckets :=
  fold_left
    (fun acc u => fold_left classify (_thai_sentences nlp (snd u)) acc)
    us ([], [], []).

(** The test of the highlight loop. *)
Definition is_highlight (text : pystr) : bool :=
  (25 <=? length text)
  && (_match_any text (decision_triggers ++ action_triggers)
      || (60 <? length text)).

Definition collect_highlights (us : list (timestamp * pystr)) : list pystr :=
  fold_left
    (fun highlights u =>
       if is_highlight (snd u) then highlights ++ [snd u] else highlights)
    us [].

(** ["\n".join([t for _, t in self.utterances]).strip()] *)
Definition all_text (sm : ThaiMeetingSummarizer) : pystr :=
  strip (join [10%N] (List.map snd (utterances sm))).

Definition summarize_offline (nlp : ThaiNLP) (sm : ThaiMeetingSummarizer)
    : SummaryDocument :=
  let topics := _extract_topics nlp (all_text sm) 6 in
  let '(decisions, action_items, risks) := classify_all nlp (utterances sm) in
  let highlights := collect_highlights (utterances sm) in
  let highlights := take 8 highlights in
  {| summary := str "สรุปอัตโนมัติแบบออฟไลน์ (heuristic) จากการสนทนา";
     topics := topics;
     decisions := take 10 decisions;
     action_items := take 20 action_items;
     risks_or_followups := take 10 risks;
     highlights := highlights |}.

(** The summary as the Python dictionary it is. *)
Definition action_item_dict (a : ActionItem) : pyvalue :=
  PDict [ (str "assignee", PStr (assignee a));
          (str "task", PStr (task a));
          (str "due", PStr (due a)) ].

Definition strings (l : list pystr) : pyvalue := PList (List.map PStr l).

Definition summary_dict (d : SummaryDocument) : pyvalue :=
  PDict [ (str "summary", PStr (summary d));
          (str "topics", strings (topics d));
          (str "decisions", strings (decisions d));
          (str "action_items", PList (List.map action_item_dict (action_items d)));
          (str "risks_or_followups", strings (risks_or_followups d));
          (str "highlights", strings (highlights d)) ].

(** What lies outside the process for [summarize_with_gemini]: whether
    google.generativeai could be imported, the environment variable, the
    calls into the library and [json.loads]. [genai_configure] takes the
    positional and the keyword arguments of the call. *)
Record Gemini := {
  HAS_GEMINI : bool;
  GOOGLE_API_KEY : option pystr;
  genai_configure : list pyvalue -> list (pystr * pyvalue) -> outcome unit;
  GenerativeModel : outcome unit;
  generate_content : pystr -> outcome pystr;
  json_loads : pystr -> outcome pyvalue
}.

Definition prompt (sm : ThaiMeetingSummarizer) : pystr :=
  str "คุณเป็นเลขานุการการประชุม ช่วยสรุปข้อความต่อไปนี้เป็นภาษาไทย "
  ++ str "และส่งคืน JSON กับคีย์: summary, topics, decisions, "
  ++ str "action_items (assignee, task, due), risks_or_followups, highlights. "
  ++ str "หากไม่พบเส้นตายให้ใส่ 'ไม่ระบุ'." ++ [10%N; 10%N]
  ++ all_text sm.

(** [summarize_with_gemini]. The source writes
    [genai.configure(api_key==api_key)]: one positional argument, the
    value of the comparison of the key with itself. [configure] and the
    model constructor are called outside the [try]. *)
Definition summarize_with_gemini (g : Gemini) (sm : ThaiMeetingSummarizer)
    : outcome pyvalue :=
  let api_key := GOOGLE_API_KEY g in
  if negb (HAS_GEMINI g && from_option PyStr.truthy false api_key)
  then Returned PNone
  else
    _ ← genai_configure g [PBool (bool_decide (api_key = api_key))] [];
    _ ← GenerativeModel g;
    try_except
      (resp_text ← generate_content g (prompt sm);
       data ← json_loads g resp_text;
       Returned data)
      (fun _ => Returned PNone).

Definition summarize (g : Gemini) (nlp : ThaiNLP)
    (sm : ThaiMeetingSummarizer) (prefer_gemini : bool) : outcome pyvalue :=
  let offline := Returned (summary_dict (summarize_offline nlp sm)) in
  if prefer_gemini then
    data ← summarize_with_gemini g sm;
    if truthy data then Returned data else offline
  else offline.

(* ------------------------------------------------------------------- *)
(** *** RealTimeAugmenter *)

(** The fields the capture path reads or writes. *)
Record RealTimeAugmenter := {
  live_transcript : list pystr;           (* deque(maxlen=5) *)
  all_utterances : list (timestamp * pystr);
  last_text : option pystr;
  summarizer : ThaiMeetingSummarizer
}.

Definition init : RealTimeAugmenter :=
  {| live_transcript := [];
     all_utterances := [];
     last_text := None;
     summarizer := {| utterances := [] |} |}.

(** [d.append(x)] on a [deque(maxlen=n)]: when the deque is full the
    leftmost item is discarded. *)
Definition deque_append (maxlen : nat) (d : list pystr) (x : pystr)
    : list pystr :=
  if maxlen <=? length d then drop 1 d ++ [x] else d ++ [x].

Definition _process_text (a : RealTimeAugmenter) (text : pystr)
    (now : timestamp) : RealTimeAugmenter :=
  let text := strip text in
  if negb (PyStr.truthy text) then a
  else if from_option PyStr.truthy false (last_text a)
          && bool_decide (Some text = last_text a)
  then a
  else
    {| live_transcript := deque_append 5 (live_transcript a) text;
       all_utterances := all_utterances a ++ [(now, text)];
       last_text := Some text;
       summarizer := add_utterance (summarizer a) now text |}.

(** What [recognize_google] does with one audio segment. *)
Inductive recognition :=
| Recognized (text : pystr)
| UnknownValueError
| RequestError (e : pystr).

Definition _audio_callback (a : RealTimeAugmenter) (r : recognition)
    (now : timestamp) : RealTimeAugmenter :=
  match r with
  | Recognized result => _process_text a result now
  | UnknownValueError => a
  | RequestError e =>
      {| live_transcript :=
           deque_append 5 (live_transcript a)
             (str "[ข้อผิดพลาดเชื่อมต่อ: " ++ e ++ str "]");
         all_utterances := all_utterances a;
         last_text := last_text a;
         summarizer := summarizer a |}
  end.

(** The session of [run], as far as the logs go. The listener thread calls
    [_audio_callback] for each segment; Ctrl-C makes [run] call
    [stop_listening(wait_for_stop=False)], which asks the listener to stop
    and returns without waiting for it, so a segment whose recognition is
    under way still runs its callback to the end. [_audio_callback] reads
    no stop flag: the session keeps one only to say when the request was
    made. *)
Record Session := {
  augmenter : RealTimeAugmenter;
  stop_requested : bool
}.

Inductive event :=
| Callback (r : recognition) (now : timestamp)
| KeyboardInterrupt.

Definition step (s : Session) (ev : event) : Session :=
  match ev with
  | Callback r now =>
      {| augmenter := _audio_callback (augmenter s) r now;
         stop_requested := stop_requested s |}
  | KeyboardInterrupt =>
      {| augmenter := augmenter s; stop_requested := true |}
  end.

Definition start : Session :=
  {| augmenter := init; stop_requested := false |}.

Definition run (evs : list event) : Session := fold_left step evs start.

End Meeting.

(* ===================================================================== *)
(** ** [PW/main.py]: extract_keywords *)
(* ===================================================================== *)

Module Server.
Import PyStr Py.

(** What [extract_keywords] calls: the pythainlp tokenizer and tagger with
    the engines the source names, [str.lower] (the Unicode case mapping),
    and the order in which a set hands out its items, which the language
    leaves open. *)
Record Library := {
  word_tokenize_newmm : pystr -> outcome (list pystr);
  pos_tag_orchid_ud : list pystr -> outcome (list (pystr * pystr));
  lower : pystr -> pystr;
  set_items : gset pystr -> list pystr
}.

Definition keyword_tags : gset pystr :=
  list_to_set (List.map str [ "NOUN"; "PROPN"; "VERB"; "ADJ" ]%string).

Definition stop_words : gset pystr :=
  list_to_set (List.map str
    [ "the"; "a"; "an"; "and"; "or"; "but"; "in"; "on"; "at"; "to"; "for";
      "of"; "with"; "by" ]%string).

(** The loop over the tagged words. *)
Definition select_keywords (pos_tags : list (pystr * pystr)) : list pystr :=
  fold_left
    (fun keywords wt =>
       if bool_decide (snd wt ∈ keyword_tags) && (1 <? length (strip (fst wt)))
       then keywords ++ [strip (fst wt)]
       else keywords)
    pos_tags [].

(** The loop that drops repeated keywords: [seen] and [unique_keywords]. *)
Definition see (lib : Library) (st : gset pystr * list pystr)
    (keyword : pystr) : gset pystr * list pystr :=
  let '(seen, unique_keywords) := st in
  if bool_decide (lower lib keyword ∉ seen)
  then ({[ lower lib keyword ]} ∪ seen, unique_keywords ++ [keyword])
  else (seen, unique_keywords).

Definition unique_keywords (lib : Library) (keywords : list pystr)
    : list pystr :=
  snd (fold_left (see lib) keywords (∅, [])).

Definition extract_keywords (lib : Library) (text : pystr)
    (language : pystr) : outcome (list pystr) :=
  if negb (PyStr.truthy (strip text)) then Returned []
  else
    try_except
      (if bool_decide (language = str "th") then
         words ← word_tokenize_newmm lib text;
         pos_tags ← pos_tag_orchid_ud lib words;
         let keywords := select_keywords pos_tags in
         Returned (take 10 (unique_keywords lib keywords))
       else
         let words := PyStr.split text in
         let keywords :=
           List.filter
             (fun word => (3 <? length word)
                          && bool_decide (lower lib word ∉ stop_words))
             words in
         Returned (take 10 (set_items lib (list_to_set keywords))))
      (fun _ => Returned (take 10 (PyStr.split text))).

End Server.

(* ===================================================================== *)
(** ** Notions the properties are stated with *)
(* ===================================================================== *)

Module Spec.
Import PyStr Re Py Meeting.

(** The items of [l] without the later ones whose key was already seen. *)
Fixpoint first_occurrences {A} (key : A -> pystr) (l : list A) : list A :=
  match l with
  | [] => []
  | x :: l' =>
      x :: List.filter (fun y => negb (bool_decide (key y = key x)))
                       (first_occurrences key l')
  end.

(** *** Topics *)

(** A token counts for the topics when it is no stop word and has at least
    two characters. *)
Definition counted (w : pystr) : bool :=
  negb (bool_decide (w ∈ topic_stopwords)) && negb (length w <? 2).

Definition occurrences (l : list pystr) (w : pystr) : nat :=
  length (List.filter (fun t => bool_decide (t = w)) l).

(** Number of occurrences of [w] among the tokens that count. *)
Definition frequency (tokens : list pystr) (w : pystr) : nat :=
  occurrences (List.filter counted tokens) w.

(** The dictionary that gives each key of [ks], in this order, the
    count [g]. *)
Definition tally (g : pystr -> nat) (ks : list pystr) : list (pystr * nat) :=
  List.map (fun k => (k, g k)) ks.

(** Position of the first occurrence of [w] in the token stream (its
    length when [w] does not occur). *)
Fixpoint first_index (tokens : list pystr) (w : pystr) : nat :=
  match tokens with
  | [] => 0
  | t :: tokens' =>
      if bool_decide (t = w) then 0 else S (first_index tokens' w)
  end.

(** [a] is ranked before [b]: more frequent, or as frequent and seen
    first. *)
Definition ranks_before (tokens : list pystr) (a b : pystr) : Prop :=
  frequency tokens b < frequency tokens a
  \/ (frequency tokens a = frequency tokens b
      /\ first_index tokens a < first_index tokens b).

(** [ranking] lists each counted token of the stream once, in rank
    order. *)
Definition is_ranking (tokens ranking : list pystr) : Prop :=
  List.NoDup ranking
  /\ (forall w, In w ranking <-> In w (List.filter counted tokens))
  /\ StronglySorted (ranks_before tokens) ranking.

(** The newline-concatenation of the utterance texts. *)
Definition concatenation (sm : ThaiMeetingSummarizer) : pystr :=
  join [10%N] (List.map snd (utterances sm)).

(** *** Sentences and buckets *)

(** All sentences of a log, utterance by utterance. *)
Definition sentences (nlp : ThaiNLP) (sm : ThaiMeetingSummarizer)
    : list pystr :=
  flat_map (fun u => _thai_sentences nlp (snd u)) (utterances sm).

Definition action_item_of (sent : pystr) : ActionItem :=
  {| assignee := _extract_assignee sent;
     task := sent;
     due := _extract_due sent |}.

Definition is_decision (sent : pystr) : bool :=
  _match_any sent decision_triggers.
Definition is_action (sent : pystr) : bool :=
  _match_any sent action_triggers.
Definition is_risk (sent : pystr) : bool :=
  _match_any sent risk_triggers.

(** *** The capture path *)

Definition texts (log : list (timestamp * pystr)) : list pystr :=
  List.map snd log.

(** The three logs an accepted utterance is appended to. *)
Definition logs (a : RealTimeAugmenter)
    : list (timestamp * pystr) * list pystr * list (timestamp * pystr) :=
  (all_utterances a, live_transcript a, utterances (summarizer a)).

(** Text of the utterance accepted last, if any. *)
Definition last_accepted (a : RealTimeAugmenter) : option pystr :=
  last (texts (all_utterances a)).

Definition window_is_suffix (a : RealTimeAugmenter) : Prop :=
  live_transcript a `suffix_of` texts (all_utterances a).

(** The states of the augmenter: the fresh object and what the two
    operations of the capture path make of a state. *)
Inductive reachable : RealTimeAugmenter -> Prop :=
| reachable_init : reachable init
| reachable_process a text now :
    reachable a -> reachable (_process_text a text now)
| reachable_callback a r now :
    reachable a -> reachable (_audio_callback a r now).

Definition is_request_error (ev : event) : bool :=
  match ev with
  | Callback (RequestError _) _ => true
  | _ => false
  end.

(** A recognition result that [_process_text] appends in state [a]. *)
Definition fresh (a : RealTimeAugmenter) (r : recognition) : bool :=
  match r with
  | Recognized text =>
      PyStr.truthy (strip text)
      && negb (bool_decide (last_accepted a = Some (strip text)))
  | _ => false
  end.


(** *** The AI summarizer path *)

(** [genai.configure] is declared with keyword parameters only: a
    positional argument is a [TypeError] of the call itself. *)
Definition keyword_only (g : Gemini) : Prop :=
  forall args kwargs,
    args <> [] -> genai_configure g args kwargs = Raised (Exc "TypeError").

Definition has_key (g : Gemini) : bool :=
  from_option PyStr.truthy false (GOOGLE_API_KEY g).

(** *** Keywords of the server *)

(** The stripped words of the tagged words that carry a keyword tag and
    have more than one character once stripped. *)
Definition candidates (pos_tags : list (pystr * pystr)) : list pystr :=
  List.map (fun wt => strip (fst wt))
    (List.filter
       (fun wt => bool_decide (snd wt ∈ Server.keyword_tags)
                  && (1 <? length (strip (fst wt))))
       pos_tags).

(** pythainlp has no tagging engine of the name that line 159 asks for
    ("orchid_ud" names a corpus): asked to tag words with it, [pos_tag]
    raises [ValueError]. *)
Definition no_such_engine (lib : Server.Library) : Prop :=
  forall words,
    words <> [] ->
    Server.pos_tag_orchid_ud lib words = Raised (Exc "ValueError").

(** *** The summary dictionary as a schema *)

Definition is_str (v : pyvalue) : bool :=
  match v with PStr _ => true | _ => false end.

Definition is_str_list (v : pyvalue) : bool :=
  match v with PList items => forallb is_str items | _ => false end.

Definition is_action_item (v : pyvalue) : bool :=
  match v with
  | PDict items =>
      is_str (dict_get items (str "assignee") PNone)
      && is_str (dict_get items (str "task") PNone)
      && is_str (dict_get items (str "due") PNone)
  | _ => false
  end.

(** A value with the keys and types of a summary document. *)
Definition is_summary_document (v : pyvalue) : bool :=
  match v with
  | PDict items =>
      is_str (dict_get items (str "summary") PNone)
      && is_str_list (dict_get items (str "topics") PNone)
      && is_str_list (dict_get items (str "decisions") PNone)
      && match dict_get items (str "action_items") PNone with
         | PList l => forallb is_action_item l
         | _ => false
         end
      && is_str_list (dict_get items (str "risks_or_followups") PNone)
      && is_str_list (dict_get items (str "highlights") PNone)
  | _ => false
  end.

End Spec.

(* ===================================================================== *)
(** ** Environments and logs of the scenarios *)
(* ===================================================================== *)

Module Scenario.
Import PyStr Re Py Meeting.

(** pythainlp is not installed. *)
Definition no_thai : ThaiNLP :=
  {| HAS_THAI := false;
     word_tokenize := fun _ => None;
     sent_tokenize := fun _ => None |}.


Definition log (texts : list string) : ThaiMeetingSummarizer :=
  {| utterances := imap (fun i t => (Z.of_nat i, str t)) texts |}.

(** Scenario 2 of the specification. *)
Definition somchai : pystr := str "คุณสมชายต้องทำรายงานภายใน 3 วัน".
Definition somchai_log : ThaiMeetingSummarizer :=
  {| utterances := [(0%Z, somchai)] |}.

(** A short meeting. *)
Definition meeting : ThaiMeetingSummarizer :=
  log [ "เรา ตัดสินใจ อนุมัติ งบ ครับ";
        "คุณสมชาย ต้องทำ รายงาน งบ ภายใน 3 วัน";
        "งบ อาจ มี ปัญหา" ]%string.

(** Eleven utterances, each one sentence with a decision trigger and an
    action trigger. *)
Definition eleven_decisions : ThaiMeetingSummarizer :=
  log [ "ตัดสินใจ ต้องทำ A"; "ตัดสินใจ ต้องทำ B"; "ตัดสินใจ ต้องทำ C";
        "ตัดสินใจ ต้องทำ D"; "ตัดสินใจ ต้องทำ E"; "ตัดสินใจ ต้องทำ F";
        "ตัดสินใจ ต้องทำ G"; "ตัดสินใจ ต้องทำ H"; "ตัดสินใจ ต้องทำ I";
        "ตัดสินใจ ต้องทำ J"; "ตัดสินใจ ต้องทำ K" ]%string.

Definition eleventh : pystr := str "ตัดสินใจ ต้องทำ K".

(** [genai.configure] as the library declares it: keyword arguments
    only. *)
Definition configure (args : list pyvalue) (kwargs : list (pystr * pyvalue))
    : outcome unit :=
  match args with
  | [] => Returned ()
  | _ => Raised (Exc "TypeError")
  end.

(** The text [{}] and the value it parses to. *)
Definition empty_text : pystr := str "{}".

(** The library installed and a key in the environment; the model would
    answer every prompt with an empty object. *)
Definition keyed_gemini : Gemini :=
  {| HAS_GEMINI := true;
     GOOGLE_API_KEY := Some (str "key");
     genai_configure := configure;
     GenerativeModel := Returned ();
     generate_content := fun _ => Returned empty_text;
     json_loads := fun t =>
       if bool_decide (t = empty_text) then Returned (PDict [])
       else Raised (Exc "JSONDecodeError") |}.

(** The library installed and no key in the environment. *)
Definition keyless_gemini : Gemini :=
  {| HAS_GEMINI := true;
     GOOGLE_API_KEY := None;
     genai_configure := configure;
     GenerativeModel := Returned ();
     generate_content := fun _ => Returned empty_text;
     json_loads := fun t =>
       if bool_decide (t = empty_text) then Returned (PDict [])
       else Raised (Exc "JSONDecodeError") |}.

Definition greeting : pystr := str "สวัสดีครับ".

Definition request : pystr := str "Budget report budget a Report plan".

(** A tagger that cuts at whitespace and calls every word a noun, with
    the case mapping of the ASCII letters. *)
Definition ascii_lower (s : pystr) : pystr :=
  List.map (fun c => if (65 <=? c)%N && (c <=? 90)%N then (c + 32)%N else c) s.

Definition noun_tagger : Server.Library :=
  {| Server.word_tokenize_newmm := fun s => Returned (PyStr.split s);
     Server.pos_tag_orchid_ud :=
       fun ws => Returned (List.map (fun w => (w, str "NOUN")) ws);
     Server.lower := ascii_lower;
     Server.set_items := elements |}.

(** pythainlp as [extract_keywords] meets it: the tokenizer returns tokens
    (here the text as a single token; what the tokens are plays no part
    in what follows) and the tagger has no engine of the name it is asked
    for. *)
Definition thai_library : Server.Library :=
  {| Server.word_tokenize_newmm := fun s => Returned [s];
     Server.pos_tag_orchid_ud := fun _ => Raised (Exc "ValueError");
     Server.lower := ascii_lower;
     Server.set_items := elements |}.

(** A Thai text with a word said twice and a word of one character. *)
Definition repeated : pystr := str "งาน งาน ก".

End Scenario.

(* ===================================================================== *)
(** ** Operations on Python values *)
(* ===================================================================== *)

Module PyOps.
Import PyStr Py.

(** [v.get(k, default)]: only a dict has the method. *)
Definition py_get (v : pyvalue) (k : pystr) (default : pyvalue)
    : outcome pyvalue :=
  match v with
  | PDict items => Returned (dict_get items k default)
  | _ => Raised (Exc "AttributeError")
  end.

(** [for x in v]: the items of a list, the characters of a string, the
    keys of a dict; other values are not iterable. *)
Definition py_iter (v : pyvalue) : outcome (list pyvalue) :=
  match v with
  | PList items => Returned items
  | PStr s => Returned (List.map (fun c => PStr [c]) s)
  | PDict items => Returned (List.map (fun kv => PStr (fst kv)) items)
  | _ => Raised (Exc "TypeError")
  end.

(** [len(v)] *)
Definition py_len (v : pyvalue) : outcome nat :=
  match v with
  | PList items => Returned (length items)
  | PStr s => Returned (length s)
  | PDict items => Returned (length items)
  | _ => Raised (Exc "TypeError")
  end.

(** [v[:n]]: lists and strings can be sliced. The other values raise
    [TypeError]; for a dict this is Python up to 3.11, where a slice cannot
    be a key. *)
Definition py_slice_to (n : nat) (v : pyvalue) : outcome pyvalue :=
  match v with
  | PList items => Returned (PList (take n items))
  | PStr s => Returned (PStr (take n s))
  | _ => Raised (Exc "TypeError")
  end.

Definition as_str (v : pyvalue) : outcome pystr :=
  match v with
  | PStr s => Returned s
  | _ => Raised (Exc "TypeError")
  end.

(** All items, when each of them returns; else what the first failing one
    raises. *)
Fixpoint all_of {A B} (f : A -> outcome B) (l : list A) : outcome (list B) :=
  match l with
  | [] => Returned []
  | x :: l' => y ← f x; ys ← all_of f l'; Returned (y :: ys)
  end.

(** [sep.join(v)]: [v] is iterated and every item must be a string. *)
Definition py_join (sep : pystr) (v : pyvalue) : outcome pystr :=
  items ← py_iter v;
  parts ← all_of as_str items;
  Returned (join sep parts).

(** [v.strip()]: a method of strings. *)
Definition py_strip (v : pyvalue) : outcome pystr :=
  match v with
  | PStr s => Returned (strip s)
  | _ => Raised (Exc "AttributeError")
  end.

(** [f"{v}"]: a string as it is; for other values the text [str(v)],
    which [fmt] stands for. *)
Definition format (fmt : pyvalue -> pystr) (v : pyvalue) : pystr :=
  match v with
  | PStr s => s
  | _ => fmt v
  end.

(** [str(n)] for a natural number. *)
Definition decimal (n : nat) : pystr :=
  str (DecimalString.NilEmpty.string_of_uint (Nat.to_uint n)).

End PyOps.

(* ===================================================================== *)
(** ** [meeting_realtime.py]: what is shown and saved *)
(* ===================================================================== *)

Module Report.
Import PyStr Py Meeting PyOps.

(** One of the four blocks of [_save_results] that list strings:
    [if final_summary.get(key): lines.append(title); for t in
    final_summary[key]: lines.append(f"  • {t}")]. *)
Definition bullet_block (fmt : pyvalue -> pystr) (final_summary : pyvalue)
    (key title : pystr) (lines : list pystr) : outcome (list pystr) :=
  v ← py_get final_summary key PNone;
  if truthy v then
    items ← py_iter v;
    Returned (lines ++ [title]
                    ++ List.map (fun t => str "  • " ++ format fmt t) items)
  else Returned lines.

(** The line of one action item. *)
Definition action_line (fmt : pyvalue -> pystr) (a : pyvalue)
    : outcome pystr :=
  assignee ← py_get a (str "assignee") (PStr unspecified);
  task ← py_get a (str "task") (PStr []);
  due ← py_get a (str "due") (PStr unspecified);
  Returned (str "  • ผู้รับผิดชอบ: " ++ format fmt assignee
            ++ str ", งาน: " ++ format fmt task
            ++ str ", เส้นตาย: " ++ format fmt due).

(** The block of the action items. *)
Definition action_block (fmt : pyvalue -> pystr) (final_summary : pyvalue)
    (lines : list pystr) : outcome (list pystr) :=
  action_items ← py_get final_summary (str "action_items") PNone;
  if truthy action_items then
    items ← py_iter action_items;
    item_lines ← all_of (action_line fmt) items;
    Returned (lines ++ [ str "- Action items:" ] ++ item_lines)
  else Returned lines.

(** The lines of the readable summary that [_save_results] joins with
    newlines and writes last, after the transcript and the JSON file. *)
Definition summary_lines (fmt : pyvalue -> pystr) (final_summary : pyvalue)
    : outcome (list pystr) :=
  let lines := [ str "สรุปการประชุม (อัตโนมัติ)"; [] ] in
  summary ← py_get final_summary (str "summary") PNone;
  let lines :=
    if truthy summary then lines ++ [ str "- สรุปย่อ: " ++ format fmt summary ]
    else lines in
  lines ← bullet_block fmt final_summary (str "topics")
            (str "- หัวข้อหลัก:") lines;
  lines ← bullet_block fmt final_summary (str "decisions")
            (str "- การตัดสินใจ:") lines;
  lines ← action_block fmt final_summary lines;
  lines ← bullet_block fmt final_summary (str "risks_or_followups")
            (str "- ความเสี่ยง/ประเด็นติดตาม:") lines;
  bullet_block fmt final_summary (str "highlights") (str "- ไฮไลต์:") lines.

Definition summary_text (fmt : pyvalue -> pystr) (final_summary : pyvalue)
    : outcome pystr :=
  lines ← summary_lines fmt final_summary;
  Returned (join [10%N] lines).

(** The four lines of [_display_dashboard] about the cached summary. *)
Definition summary_panel (s : pyvalue) : outcome (list pystr) :=
  topics ← py_get s (str "topics") (PList []);
  first5 ← py_slice_to 5 topics;
  joined ← py_join (str ", ") first5;
  let topics := if PyStr.truthy joined then joined else str "-" in
  decisions ← py_get s (str "decisions") (PList []);
  decisions_n ← py_len decisions;
  actions ← py_get s (str "action_items") (PList []);
  actions_n ← py_len actions;
  risks ← py_get s (str "risks_or_followups") (PList []);
  risks_n ← py_len risks;
  Returned
    [ str "   • หัวข้อหลัก: " ++ topics;
      str "   • การตัดสินใจ: " ++ decimal decisions_n ++ str " รายการ";
      str "   • Action items: " ++ decimal actions_n ++ str " รายการ";
      str "   • ความเสี่ยง/ติดตาม: " ++ decimal risks_n ++ str " รายการ" ].

(** What [_display_dashboard] prints, one entry for each [print]; the
    prints made before an exception are not kept. *)
Definition _display_dashboard (a : RealTimeAugmenter)
    (live_summary_cache : pyvalue) : outcome (list pystr) :=
  let rule := List.repeat 61%N 70 in
  let head :=
    [ rule;
      str "--- 🚀 Real-time Meeting Summarizer (Google STT) 🚀 ---";
      str "สถานะ: กำลังรับฟัง... (กด Ctrl+C เพื่อหยุด)";
      rule;
      [10%N] ++ str "📜 Live Transcript:" ] in
  let transcript :=
    match live_transcript a with
    | [] => [ str "   ..." ]
    | ts => List.map (fun t => str "   - " ++ t) ts
    end in
  panel ←
    (if truthy live_summary_cache then summary_panel live_summary_cache
     else Returned [ str "   ..." ]);
  Returned (head ++ transcript
            ++ [ [10%N] ++ str "🧭 Live Meeting Summary (ล่าสุด):" ]
            ++ panel
            ++ [ [10%N] ++ List.repeat 45%N 70 ]).

End Report.

(* ===================================================================== *)
(** ** [PW/main.py]: the recognizer pool and the transcription request *)
(* ===================================================================== *)

Module Service.
Import PyStr Py PyOps.

Abbreviation bytes := (list Byte.byte).

Definition RECOGNIZER_POOL_SIZE : nat := 3.
Definition MAX_FILE_SIZE : Z := 50 * 1024 * 1024.
Definition SUPPORTED_LANGUAGES : list pystr := [ str "th"; str "en" ].
Definition ALLOWED_AUDIO_FORMATS : gset pystr :=
  list_to_set (List.map str
    [ ".wav"; ".pcm"; ".mp3"; ".m4a"; ".ogg"; ".flac" ]%string).

(** What a handler raises: an [HTTPException] with its status, or any
    other exception. *)
Inductive error :=
| HTTPException (status_code : Z) (detail : pystr)
| Other (e : exception).

Inductive result (A : Type) :=
| Done (a : A)
| Failed (e : error).
Arguments Done {A} a.
Arguments Failed {A} e.

(** A Vosk recognizer, by the chunks it has accepted since it was made
    or reset. *)
Record Recognizer := {
  accepted : list bytes
}.

Definition fresh : Recognizer := {| accepted := [] |}.
Definition Reset (r : Recognizer) : Recognizer := {| accepted := [] |}.

(** The dictionary [process_audio_segment] returns. *)
Record Response := {
  full_text : pystr;
  keywords : list pystr;
  confidence : pyvalue;
  processing_time : pyvalue;
  language : pystr;
  word_count : nat
}.

(** What the module calls and does not define: the file system, Vosk,
    pydub, [json.loads], [str(e)], the clock, and the end of
    [transcribe_audio] after the segment is processed (the comparison of
    the confidence with the threshold and the construction of the pydantic
    response). [waveform] is what Vosk does with one more chunk, given the
    chunks the recognizer has accepted: it returns, or it raises because
    the chunk could not be processed. *)
Record Backend := {
  model_dir_exists : bool;
  Model : outcome unit;
  KaldiRecognizer : outcome unit;
  raw_data : bytes -> outcome bytes;
  waveform : list bytes -> bytes -> outcome unit;
  FinalResult : list bytes -> outcome pystr;
  json_loads : pystr -> outcome pyvalue;
  str_of_error : error -> pystr;
  elapsed : pyvalue;
  respond : Response -> outcome Response
}.

(** The globals [model] (loaded or [None]) and [recognizer_pool], and the
    entries of [app_state] that change. *)
Record State := {
  model : bool;
  recognizer_pool : list Recognizer;
  model_loaded : bool;
  total_requests : Z;
  active_requests : Z
}.

Definition with_pool (st : State) (pool : list Recognizer) : State :=
  {| model := model st; recognizer_pool := pool;
     model_loaded := model_loaded st;
     total_requests := total_requests st;
     active_requests := active_requests st |}.

Definition with_model_loaded (st : State) (b : bool) : State :=
  {| model := model st; recognizer_pool := recognizer_pool st;
     model_loaded := b;
     total_requests := total_requests st;
     active_requests := active_requests st |}.

Definition with_model (st : State) : State :=
  {| model := true; recognizer_pool := recognizer_pool st;
     model_loaded := model_loaded st;
     total_requests := total_requests st;
     active_requests := active_requests st |}.

Definition load_model (env : Backend) (st : State) : result unit * State :=
  if negb (model_dir_exists env)
  then (Failed (Other (Exc "FileNotFoundError")), with_model_loaded st false)
  else
    match Model env with
    | Raised e => (Failed (Other e), with_model_loaded st false)
    | Returned _ =>
        let st := with_model st in
        match KaldiRecognizer env with
        | Raised e => (Failed (Other e), with_model_loaded st false)
        | Returned _ =>
            (Done (),
             with_model_loaded
               (with_pool st (List.repeat fresh RECOGNIZER_POOL_SIZE)) true)
        end
    end.

(** [l.pop()]: the last item and the list without it. *)
Definition pop {A} (l : list A) : option (A * list A) :=
  match rev l with
  | [] => None
  | x :: r => Some (x, rev r)
  end.

Definition get_recognizer (env : Backend) (st : State)
    : result Recognizer * State :=
  match pop (recognizer_pool st) with
  | None =>
      if negb (model st)
      then (Failed (HTTPException 503 (str "AI Model is not available")), st)
      else
        match KaldiRecognizer env with
        | Returned _ => (Done fresh, st)
        | Raised e => (Failed (Other e), st)
        end
  | Some (recognizer, pool) => (Done (Reset recognizer), with_pool st pool)
  end.

Definition return_recognizer (st : State) (recognizer : Recognizer) : State :=
  if length (recognizer_pool st) <? RECOGNIZER_POOL_SIZE
  then with_pool st (recognizer_pool st ++ [recognizer])
  else st.

(** [range(0, stop, step)], for a positive [step]. *)
Definition range_step (stop step : nat) : list nat :=
  List.map (fun k => k * step) (seq 0 ((stop + step - 1) / step)).

(** The chunks the loop feeds: [pcm_data[i:i + chunk_size]] for [i] in
    [range(0, len(pcm_data), chunk_size)]. *)
Definition chunks (chunk_size : nat) (pcm_data : bytes) : list bytes :=
  List.map (fun i => take chunk_size (drop i pcm_data))
           (range_step (length pcm_data) chunk_size).

(** [recognizer.AcceptWaveform(chunk)]: a chunk that Vosk refuses is not
    among the accepted ones. *)
Definition AcceptWaveform (env : Backend) (r : Recognizer) (chunk : bytes)
    : outcome unit * Recognizer :=
  match waveform env (accepted r) chunk with
  | Returned _ => (Returned (), {| accepted := accepted r ++ [chunk] |})
  | Raised e => (Raised e, r)
  end.

(** The loop over the chunks: it ends at the first chunk that is
    refused. *)
Fixpoint feed (env : Backend) (r : Recognizer) (chunks : list bytes)
    : outcome unit * Recognizer :=
  match chunks with
  | [] => (Returned (), r)
  | chunk :: chunks' =>
      match AcceptWaveform env r chunk with
      | (Returned _, r) => feed env r chunks'
      | (Raised e, r) => (Raised e, r)
      end
  end.

Definition failed_processing (env : Backend) (e : error) : error :=
  HTTPException 500 (str "Audio processing failed: " ++ str_of_error env e).

(** The body of the [try] of [process_audio_segment] once a recognizer is
    at hand: its outcome, and the recognizer as the body leaves it. *)
Definition recognize (env : Backend) (lib : Server.Library)
    (recognizer : Recognizer) (audio_data : bytes) (language : pystr)
    : outcome Response * Recognizer :=
  match raw_data env audio_data with
  | Raised e => (Raised e, recognizer)
  | Returned pcm_data =>
      match feed env recognizer (chunks 4096 pcm_data) with
      | (Raised e, recognizer) => (Raised e, recognizer)
      | (Returned _, recognizer) =>
          (result_json ← FinalResult env (accepted recognizer);
           result_dict ← json_loads env result_json;
           text ← py_get result_dict (str "text") (PStr []);
           transcribed_text ← py_strip text;
           confidence ← py_get result_dict (str "conf") (PFloat 0);
           keywords ← Server.extract_keywords lib transcribed_text language;
           Returned
             {| full_text := transcribed_text;
                keywords := keywords;
                confidence := confidence;
                processing_time := elapsed env;
                language := language;
                word_count :=
                  if PyStr.truthy transcribed_text
                  then length (PyStr.split transcribed_text) else 0 |},
           recognizer)
      end
  end.

Definition process_audio_segment (env : Backend) (lib : Server.Library)
    (st : State) (audio_data : bytes) (language : pystr)
    : result Response * State :=
  match get_recognizer env st with
  | (Failed e, st) =>
      (* [recognizer] is still [None]: nothing to return to the pool *)
      (Failed (failed_processing env e), st)
  | (Done recognizer, st) =>
      let '(outcome, recognizer) :=
        recognize env lib recognizer audio_data language in
      let st := return_recognizer st recognizer in
      match outcome with
      | Returned response => (Done response, st)
      | Raised e => (Failed (failed_processing env (Other e)), st)
      end
  end.

(** The final component of a path and its suffix, as [pathlib] computes
    them for a POSIX path (Python 3.11 to 3.13): the components are cut at
    "/", empty ones and "." do not count, and the suffix starts at the last
    dot of the name unless that dot is its first or its last character. *)
Fixpoint split_on (sep : N) (s cur : pystr) : list pystr :=
  match s with
  | [] => [cur]
  | c :: s' =>
      if (c =? sep)%N then cur :: split_on sep s' []
      else split_on sep s' (cur ++ [c])
  end.

Definition path_name (path : pystr) : pystr :=
  default []
    (last (List.filter
             (fun part => PyStr.truthy part
                          && negb (bool_decide (part = str ".")))
             (split_on 47%N path []))).

Fixpoint rfind (c : N) (s : pystr) : option nat :=
  match s with
  | [] => None
  | x :: s' =>
      match rfind c s' with
      | Some i => Some (S i)
      | None => if (x =? c)%N then Some 0 else None
      end
  end.

Definition suffix (path : pystr) : pystr :=
  let name := path_name path in
  match rfind 46%N name with
  | Some i => if (0 <? i) && (i <? length name - 1) then drop i name else []
  | None => []
  end.

(** An uploaded file: its size when the attribute is there and set, its
    name, and what reading it gives. *)
Record UploadFile := {
  size : option Z;
  filename : option pystr;
  read : outcome bytes
}.

Definition too_large (file : UploadFile) : bool :=
  match size file with
  | Some n => negb (n =? 0)%Z && (MAX_FILE_SIZE <? n)%Z
  | None => false
  end.

(** [validate_audio_file]: the exception it raises, if any. *)
Definition validate_audio_file (lib : Server.Library) (file : UploadFile)
    : option error :=
  if too_large file then
    Some (HTTPException 413
            (str "File too large. Maximum size: "
             ++ decimal (Z.to_nat (MAX_FILE_SIZE / (1024 * 1024)))
             ++ str "MB"))
  else
    match filename file with
    | Some name =>
        if PyStr.truthy name then
          let file_ext := Server.lower lib (suffix name) in
          if bool_decide (file_ext ∉ ALLOWED_AUDIO_FORMATS)
             && negb (bool_decide (file_ext = str ".pcm"))
          then
            Some (HTTPException 400
                    (str "Unsupported file format. Supported: "
                     ++ join (str ", ")
                          (Server.set_items lib ALLOWED_AUDIO_FORMATS)))
          else None
        else None
    | None => None
    end.

Definition internal_error (env : Backend) (e : exception) : error :=
  HTTPException 500 (str "Internal server error: " ++ str_of_error env (Other e)).

Definition transcribe_audio (env : Backend) (lib : Server.Library)
    (st : State) (audio_file : UploadFile) (language : pystr)
    : result Response * State :=
  if negb (model_loaded st)
  then (Failed (HTTPException 503 (str "AI Model is not available")), st)
  else
    match validate_audio_file lib audio_file with
    | Some e => (Failed e, st)
    | None =>
        if negb (bool_decide (language ∈ SUPPORTED_LANGUAGES))
        then (Failed (HTTPException 400
                        (str "Unsupported language: " ++ language
                         ++ str ". Supported: ['th', 'en']")), st)
        else
          match read audio_file with
          | Raised e => (Failed (internal_error env e), st)
          | Returned audio_data =>
              if length audio_data =? 0
              then (Failed (HTTPException 400 (str "Audio file is empty")), st)
              else
                match process_audio_segment env lib st audio_data language with
                | (Failed (HTTPException code detail), st) =>
                    (Failed (HTTPException code detail), st)
                | (Failed (Other e), st) => (Failed (internal_error env e), st)
                | (Done result, st) =>
                    match respond env result with
                    | Returned response => (Done response, st)
                    | Raised e => (Failed (internal_error env e), st)
                    end
                end
          end
    end.

(** [request_counter_middleware] around a handler [call_next]. *)
Definition request_counter_middleware {A} (st : State)
    (call_next : State -> result A * State) : result A * State :=
  let st :=
    {| model := model st; recognizer_pool := recognizer_pool st;
       model_loaded := model_loaded st;
       total_requests := total_requests st + 1;
       active_requests := active_requests st + 1 |} in
  let '(response, st) := call_next st in
  (response,
   {| model := model st; recognizer_pool := recognizer_pool st;
      model_loaded := model_loaded st;
      total_requests := total_requests st;
      active_requests := active_requests st - 1 |}).

End Service.

(* ===================================================================== *)
(** ** Notions of the further properties *)
(* ===================================================================== *)

Module Props.
Import PyStr Re Py Meeting Spec.

(** No two neighbours of the list are equal. *)
Fixpoint no_repeat (l : list pystr) : Prop :=
  match l with
  | x :: (y :: _) as l' => x <> y /\ no_repeat l'
  | _ => True
  end.

(** Number of leading characters of [s] in the class. *)
Fixpoint span (cl : charclass) (s : pystr) : nat :=
  match s with
  | c :: s' => if in_class cl c then S (span cl s') else 0
  | [] => 0
  end.

(** The line [_audio_callback] shows for a failed request. *)
Definition notice (e : pystr) : pystr :=
  str "[ข้อผิดพลาดเชื่อมต่อ: " ++ e ++ str "]".

(** The honorifics of [assignee_patterns], in their order. *)
Definition honorifics : list pystr :=
  List.map str [ "คุณ"; "พี่"; "นาย"; "นาง"; "นางสาว" ]%string.

(** The pool holds no more recognizers than its size. *)
Definition bounded (st : Service.State) : Prop :=
  length (Service.recognizer_pool st) <= Service.RECOGNIZER_POOL_SIZE.

(** What a recognizer has accepted when it has served a request for
    [audio_data] from a reset: nothing when the conversion of the audio
    failed; else the chunks of the audio, all of them, or those before the
    first chunk that Vosk refused. *)
Definition served (env : Service.Backend) (audio_data : Service.bytes)
    (r : Service.Recognizer) : Prop :=
  match Service.raw_data env audio_data with
  | Raised _ => Service.accepted r = []
  | Returned pcm_data =>
      Service.accepted r = Service.chunks 4096 pcm_data
      \/ exists chunk rest e,
           Service.chunks 4096 pcm_data
           = Service.accepted r ++ chunk :: rest
           /\ Service.waveform env (Service.accepted r) chunk = Raised e
  end.

(** The recognizer has accepted the whole audio of the request. *)
Definition heard (env : Service.Backend) (audio_data : Service.bytes)
    (r : Service.Recognizer) : Prop :=
  exists pcm_data,
    Service.raw_data env audio_data = Returned pcm_data
    /\ concat (Service.accepted r) = pcm_data.

(** [process_audio_segment] can get a recognizer: from the pool, or a new
    one of the loaded model. *)
Definition obtainable (env : Service.Backend) (st : Service.State) : Prop :=
  Service.recognizer_pool st <> []
  \/ (Service.model st = true /\ Service.KaldiRecognizer env = Returned ()).

(** The set hands out its elements, each once. *)
Definition enumerates (lib : Server.Library) : Prop :=
  forall S : gset pystr,
    List.NoDup (Server.set_items lib S)
    /\ forall x, In x (Server.set_items lib S) <-> x ∈ S.

(** The upload states a size above the limit. *)
Definition oversized (file : Service.UploadFile) : Prop :=
  exists n, Service.size file = Some n /\ (Service.MAX_FILE_SIZE < n)%Z.

(** The upload has a name whose suffix, in lower case, is not one of the
    allowed formats. *)
Definition misnamed (lib : Server.Library) (file : Service.UploadFile)
    : Prop :=
  exists name,
    Service.filename file = Some name /\ name <> []
    /\ Server.lower lib (Service.suffix name) ∉ Service.ALLOWED_AUDIO_FORMATS.

(** The state with other request counters. *)
Definition counting (st : Service.State) (total active : Z) : Service.State :=
  {| Service.model := Service.model st;
     Service.recognizer_pool := Service.recognizer_pool st;
     Service.model_loaded := Service.model_loaded st;
     Service.total_requests := total;
     Service.active_requests := active |}.

(** A word the English branch of [extract_keywords] keeps. *)
Definition kept (lib : Server.Library) (word : pystr) : Prop :=
  3 < length word /\ Server.lower lib word ∉ Server.stop_words.

(** A block of the saved summary: the title and one bullet for each entry,
    or nothing when there is no entry. *)
Definition block (title : pystr) (entries : list pystr) : list pystr :=
  match entries with
  | [] => []
  | _ => title :: List.map (fun t => str "  • " ++ t) entries
  end.

Definition item_line (a : ActionItem) : pystr :=
  str "  • ผู้รับผิดชอบ: " ++ assignee a
  ++ str ", งาน: " ++ task a
  ++ str ", เส้นตาย: " ++ due a.

(** The lines of the saved summary: the title and an empty line, the
    summary line, and the blocks that have entries. *)
Definition layout (summary : pystr) (topics decisions item_lines
    risks highlights : list pystr) : list pystr :=
  [ str "สรุปการประชุม (อัตโนมัติ)"; [] ]
  ++ (if PyStr.truthy summary then [ str "- สรุปย่อ: " ++ summary ] else [])
  ++ block (str "- หัวข้อหลัก:") topics
  ++ block (str "- การตัดสินใจ:") decisions
  ++ match item_lines with
     | [] => []
     | _ => str "- Action items:" :: item_lines
     end
  ++ block (str "- ความเสี่ยง/ประเด็นติดตาม:") risks
  ++ block (str "- ไฮไลต์:") highlights.

(** The lines of the saved summary of a document. *)
Definition report (d : SummaryDocument) : list pystr :=
  layout (summary d) (topics d) (decisions d)
         (List.map item_line (action_items d))
         (risks_or_followups d) (highlights d).

(** The panel of the dashboard for a document. *)
Definition panel (d : SummaryDocument) : list pystr :=
  let joined := join (str ", ") (take 5 (topics d)) in
  [ str "   • หัวข้อหลัก: " ++ (if PyStr.truthy joined then joined else str "-");
    str "   • การตัดสินใจ: " ++ PyOps.decimal (length (decisions d))
      ++ str " รายการ";
    str "   • Action items: " ++ PyOps.decimal (length (action_items d))
      ++ str " รายการ";
    str "   • ความเสี่ยง/ติดตาม: "
      ++ PyOps.decimal (length (risks_or_followups d)) ++ str " รายการ" ].

End Props.

(* ===================================================================== *)
(** ** Environments of the further scenarios *)
(* ===================================================================== *)

Module Cases.
Import PyStr Py Meeting Scenario.

(** The JSON text of a Vosk result and the value it parses to. *)
Definition vosk_text : pystr :=
  str "{" ++ [34%N] ++ str "text" ++ [34%N] ++ str ": " ++ [34%N]
  ++ str " budget report " ++ [34%N] ++ str ", " ++ [34%N] ++ str "conf"
  ++ [34%N] ++ str ": 1}".
Definition vosk_value : pyvalue :=
  PDict [ (str "text", PStr (str " budget report ")); (str "conf", PInt 1) ].

(** A backend whose recognizer hears the same words in every audio. The
    conversion takes samples of two bytes, as pydub is asked to. *)
Definition backend : Service.Backend :=
  {| Service.model_dir_exists := true;
     Service.Model := Returned ();
     Service.KaldiRecognizer := Returned ();
     Service.raw_data := fun data =>
       if Nat.even (length data) then Returned data
       else Raised (Exc "ValueError");
     Service.waveform := fun _ _ => Returned ();
     Service.FinalResult := fun _ => Returned vosk_text;
     Service.json_loads := fun t =>
       if bool_decide (t = vosk_text) then Returned vosk_value
       else Raised (Exc "JSONDecodeError");
     Service.str_of_error := fun _ => str "error";
     Service.elapsed := PFloat 0;
     Service.respond := fun r => Returned r |}.

Definition idle : Service.State :=
  {| Service.model := true;
     Service.recognizer_pool := [ Service.fresh; Service.fresh ];
     Service.model_loaded := true;
     Service.total_requests := 0;
     Service.active_requests := 0 |}.

Definition audio : Service.bytes := List.repeat Byte.x00 (2 * 4096 + 6).

(** The upload of that audio, and what the backend answers to it. *)
Definition upload : Service.UploadFile :=
  {| Service.size := Some 8198%Z;
     Service.filename := Some (str "talk.WAV");
     Service.read := Returned audio |}.

Definition reply : Service.Response :=
  {| Service.full_text := str "budget report";
     Service.keywords := [ str "report"; str "budget" ];
     Service.confidence := PInt 1;
     Service.processing_time := PFloat 0;
     Service.language := str "en";
     Service.word_count := 2 |}.

(** A backend without the model directory. *)
Definition bare : Service.Backend :=
  {| Service.model_dir_exists := false;
     Service.Model := Returned ();
     Service.KaldiRecognizer := Returned ();
     Service.raw_data := fun data =>
       if Nat.even (length data) then Returned data
       else Raised (Exc "ValueError");
     Service.waveform := fun _ _ => Returned ();
     Service.FinalResult := fun _ => Returned vosk_text;
     Service.json_loads := fun _ => Raised (Exc "JSONDecodeError");
     Service.str_of_error := fun _ => str "error";
     Service.elapsed := PFloat 0;
     Service.respond := fun r => Returned r |}.

End Cases.

(* ===================================================================== *)
(** ** Loops that append *)
(* ===================================================================== *)

Import PyStr Re Py Meeting Spec Scenario.

(** The model on small inputs, with the results Python gives. *)

Example str_code_points : str "คุณ 3" = [3588; 3640; 3603; 32; 51]%N.
Proof. reflexivity. Qed.

Example strip_example : strip (str "  ab  cd ") = str "ab  cd".
Proof. reflexivity. Qed.

Example re_split_whitespace :
  Re.split (Repeat Space 1 None) (str "  ab  cd ")
  = [ []; str "ab"; str "cd"; [] ].
Proof. reflexivity. Qed.

Example re_split_sentences :
  Re.split sentence_separator (str "a b   c|d.e  ")
  = List.map str [ "a b"; "c"; "d"; "e" ]%string ++ [ [] ].
Proof. reflexivity. Qed.

Example sorted_is_stable :
  sorted_by_count_desc
    [ (str "a", 1); (str "b", 2); (str "c", 1); (str "d", 2) ]
  = [ (str "b", 2); (str "d", 2); (str "a", 1); (str "c", 1) ].
Proof. reflexivity. Qed.

Example search_greedy :
  search (honorific "คุณ") (str "ขอให้ คุณสมชาย ส่งงาน")
  = Some (str "คุณสมชาย").
Proof. reflexivity. Qed.

Example search_due_date :
  _extract_due (str "ส่งก่อน วันที่ 5/11/2025 นะ")
  = str "ก่อน วันที่ 5/11/2025".
Proof. vm_compute. reflexivity. Qed.

Example deque_drops_oldest :
  deque_append 5 (List.map str [ "1"; "2"; "3"; "4"; "5" ]%string) (str "6")
  = List.map str [ "2"; "3"; "4"; "5"; "6" ]%string.
Proof. reflexivity. Qed.

Example meeting_topics :
  topics (summarize_offline no_thai meeting)
  = List.map str
      [ "งบ"; "ตัดสินใจ"; "อนุมัติ"; "คุณสมชาย"; "ต้องทำ"; "รายงาน" ]%string.
Proof. vm_compute. reflexivity. Qed.

Example meeting_risks :
  risks_or_followups (summarize_offline no_thai meeting)
  = [ str "งบ อาจ มี ปัญหา" ].
Proof. vm_compute. reflexivity. Qed.

(** A loop that appends [g x] for the items passing a test computes a
    filter followed by a map. *)
Lemma fold_left_append {A B} (test : A -> bool) (g : A -> B) l acc :
  fold_left (fun acc x => if test x then acc ++ [g x] else acc) l acc
  = acc ++ List.map g (List.filter test l).
Proof.
  revert acc. induction l as [|x l IH]; intros acc;
    cbn [fold_left List.filter].
  - cbn [List.map]. by rewrite app_nil_r.
  - rewrite IH. destruct (test x); cbn [List.map]; [|done].
    by rewrite <- app_assoc.
Qed.

Lemma classify_eq ds acts rs s :
  classify (ds, acts, rs) s
  = (ds ++ (if is_decision s then [s] else []),
     acts ++ (if is_action s then [action_item_of s] else []),
     rs ++ (if is_risk s then [s] else [])).
Proof.
  unfold classify, is_decision, is_action, is_risk, action_item_of.
  destruct (_match_any s decision_triggers),
           (_match_any s action_triggers),
           (_match_any s risk_triggers);
    rewrite ?app_nil_r; reflexivity.
Qed.

Lemma classify_sentences ss ds acts rs :
  fold_left classify ss (ds, acts, rs)
  = (ds ++ List.filter is_decision ss,
     acts ++ List.map action_item_of (List.filter is_action ss),
     rs ++ List.filter is_risk ss).
Proof.
  revert ds acts rs. induction ss as [|s ss IH]; intros ds acts rs.
  - cbn [fold_left List.filter List.map]. by rewrite !app_nil_r.
  - cbn [fold_left List.filter]. rewrite classify_eq, IH.
    destruct (is_decision s), (is_action s), (is_risk s);
      cbn [List.map]; rewrite <- ?app_assoc, ?app_nil_r; reflexivity.
Qed.

Lemma classify_utterances nlp (us : list (timestamp * pystr)) ds acts rs :
  fold_left
    (fun acc u => fold_left classify (_thai_sentences nlp (snd u)) acc)
    us (ds, acts, rs)
  = let ss := flat_map (fun u => _thai_sentences nlp (snd u)) us in
    (ds ++ List.filter is_decision ss,
     acts ++ List.map action_item_of (List.filter is_action ss),
     rs ++ List.filter is_risk ss).
Proof.
  revert ds acts rs. induction us as [|u us IH]; intros ds acts rs.
  - cbn [fold_left flat_map List.filter List.map]. by rewrite !app_nil_r.
  - cbn [fold_left flat_map]. rewrite classify_sentences, IH. cbv zeta.
    rewrite !List.filter_app, List.map_app, <- !app_assoc. reflexivity.
Qed.

(** The sentence loop fills the three buckets with the matching sentences
    of the log, in order. *)
Lemma classify_all_buckets nlp sm :
  classify_all nlp (utterances sm)
  = (List.filter is_decision (sentences nlp sm),
     List.map action_item_of (List.filter is_action (sentences nlp sm)),
     List.filter is_risk (sentences nlp sm)).
Proof. unfold classify_all. by rewrite classify_utterances. Qed.

Lemma collect_highlights_filter (us : list (timestamp * pystr)) :
  collect_highlights us = List.filter is_highlight (texts us).
Proof.
  unfold collect_highlights, texts.
  rewrite (fold_left_append (fun u => is_highlight (snd u)) snd).
  cbn [app]. induction us as [|u us IH]; cbn [List.map List.filter]; [done|].
  destruct (is_highlight (snd u)); cbn [List.map]; by rewrite IH.
Qed.

Lemma summarize_offline_fields nlp sm :
  let d := summarize_offline nlp sm in
  topics d = _extract_topics nlp (all_text sm) 6
  /\ decisions d = take 10 (List.filter is_decision (sentences nlp sm))
  /\ action_items d
     = take 20 (List.map action_item_of
                  (List.filter is_action (sentences nlp sm)))
  /\ risks_or_followups d = take 10 (List.filter is_risk (sentences nlp sm))
  /\ highlights d = take 8 (List.filter is_highlight (texts (utterances sm))).
Proof.
  unfold summarize_offline.
  rewrite classify_all_buckets, collect_highlights_filter.
  repeat split.
Qed.

(* ===================================================================== *)
(** ** First occurrences *)
(* ===================================================================== *)

Lemma filter_all {A} (f : A -> bool) l :
  (forall x, In x l -> f x = true) -> List.filter f l = l.
Proof.
  induction l as [|x l IH]; intros H; cbn [List.filter]; [done|].
  rewrite (H x (or_introl eq_refl)), IH; [done|].
  intros y Hy. apply H. by right.
Qed.

Lemma first_occurrences_incl {A} (key : A -> pystr) l x :
  In x (first_occurrences key l) -> In x l.
Proof.
  revert x. induction l as [|y l IH]; intros x; cbn [first_occurrences]; [done|].
  intros [->|H]; [by left|].
  apply filter_In in H as [H _]. right. by apply IH.
Qed.

Lemma first_occurrences_keys {A} (key : A -> pystr) l x :
  In x l -> In (key x) (List.map key (first_occurrences key l)).
Proof.
  induction l as [|y l IH]; cbn [first_occurrences]; [done|].
  intros Hx. cbn [List.map].
  destruct (decide (key x = key y)) as [E|NE]; [left; congruence|].
  destruct Hx as [->|Hx]; [done|]. right.
  apply IH in Hx. apply in_map_iff in Hx as (z & Hz & Hin).
  apply in_map_iff. exists z. split; [done|].
  apply filter_In. split; [done|].
  rewrite bool_decide_eq_false_2; [done|congruence].
Qed.

Lemma first_occurrences_NoDup {A} (key : A -> pystr) l :
  List.NoDup (List.map key (first_occurrences key l)).
Proof.
  induction l as [|y l IH]; cbn [first_occurrences List.map]; [constructor|].
  constructor.
  - intros H. apply in_map_iff in H as (z & Hz & Hin).
    apply filter_In in Hin as [_ Hin].
    rewrite bool_decide_eq_true_2 in Hin; done.
  - clear -IH. induction (first_occurrences key l) as [|z zs IHz];
      cbn [List.filter List.map]; [constructor|].
    cbn [List.map] in IH. apply List.NoDup_cons_iff in IH as [Hz Hzs].
    destruct (negb _); [|by apply IHz].
    cbn [List.map]. constructor; [|by apply IHz].
    intros H. apply Hz. apply in_map_iff in H as (u & Hu & Hin).
    apply filter_In in Hin as [Hin _].
    apply in_map_iff. by exists u.
Qed.

(** Reading one more item: it is kept when its key is new. *)
Lemma first_occurrences_snoc {A} (key : A -> pystr) p x :
  first_occurrences key (p ++ [x])
  = if bool_decide (key x ∈ List.map key p)
    then first_occurrences key p
    else first_occurrences key p ++ [x].
Proof.
  induction p as [|y p IH]; cbn [app first_occurrences List.map].
  - rewrite bool_decide_eq_false_2; [done|]. apply not_elem_of_nil.
  - rewrite IH. destruct (decide (key x = key y)) as [E|NE].
    + rewrite (bool_decide_eq_true_2 (_ ∈ _ :: _));
        [|rewrite E; apply list_elem_of_here].
      case_bool_decide; [done|].
      rewrite List.filter_app. cbn [List.filter].
      rewrite (bool_decide_eq_true_2 (key x = key y)); [|done].
      cbn [negb]. by rewrite app_nil_r.
    + case_bool_decide as Hin.
      * rewrite bool_decide_eq_true_2; [done|]. by apply list_elem_of_further.
      * rewrite bool_decide_eq_false_2;
          [|rewrite elem_of_cons; intros [?|?]; congruence].
        rewrite List.filter_app. cbn [List.filter].
        rewrite (bool_decide_eq_false_2 (key x = key y)); [|done].
        reflexivity.
Qed.

(* ===================================================================== *)
(** ** The counting loop of [_extract_topics] *)
(* ===================================================================== *)

Lemma dict_get_tally g ks x d :
  dict_get (tally g ks) x d = if bool_decide (x ∈ ks) then g x else d.
Proof.
  induction ks as [|k ks IH]; cbn [tally List.map dict_get].
  - rewrite bool_decide_eq_false_2; [done|]. apply not_elem_of_nil.
  - fold (tally g ks). rewrite IH.
    destruct (decide (k = x)) as [->|NE].
    + rewrite !bool_decide_eq_true_2; [done|apply list_elem_of_here|done].
    + rewrite (bool_decide_eq_false_2 (k = x)); [|done].
      rewrite (bool_decide_ext (x ∈ k :: ks) (x ∈ ks)); [done|].
      rewrite elem_of_cons. split; [intros [?|?]; [congruence|done]|by right].
Qed.

Lemma tally_ext g g' ks :
  (forall k, k ∈ ks -> g' k = g k) -> tally g ks = tally g' ks.
Proof.
  induction ks as [|k ks IH]; intros H; cbn [tally List.map]; [done|].
  fold (tally g ks) (tally g' ks).
  rewrite H; [|apply list_elem_of_here].
  rewrite IH; [done|]. intros k' Hk'. apply H. by apply list_elem_of_further.
Qed.

Lemma dict_set_tally g g' ks x :
  List.NoDup ks ->
  (forall k, k <> x -> g' k = g k) ->
  dict_set (tally g ks) x (g' x)
  = tally g' (if bool_decide (x ∈ ks) then ks else ks ++ [x]).
Proof.
  intros Hnd Hg. induction ks as [|k ks IH]; cbn [tally List.map dict_set].
  - rewrite bool_decide_eq_false_2; [done|]. apply not_elem_of_nil.
  - fold (tally g ks). apply List.NoDup_cons_iff in Hnd as [Hk Hnd].
    destruct (decide (k = x)) as [->|NE].
    + rewrite !bool_decide_eq_true_2; [|apply list_elem_of_here|done].
      cbn [tally List.map]. f_equal. apply tally_ext.
      intros k' Hk'. apply Hg. intros ->. by apply Hk, list_elem_of_In.
    + rewrite (bool_decide_eq_false_2 (k = x)); [|done].
      rewrite (IH Hnd), <- (Hg k NE).
      rewrite (bool_decide_ext (x ∈ k :: ks) (x ∈ ks));
        [|rewrite elem_of_cons; split; [intros [?|?]; [congruence|done]|by right]].
      by case_bool_decide.
Qed.

Lemma occurrences_snoc p x k :
  occurrences (p ++ [x]) k
  = occurrences p k + (if bool_decide (x = k) then 1 else 0).
Proof.
  unfold occurrences. rewrite List.filter_app, length_app.
  cbn [List.filter]. by case_bool_decide.
Qed.

Lemma occurrences_absent p x : x ∉ p -> occurrences p x = 0.
Proof.
  unfold occurrences. induction p as [|y p IH]; intros H; [done|].
  cbn [List.filter]. rewrite not_elem_of_cons in H. destruct H as [H1 H2].
  rewrite bool_decide_eq_false_2; [by apply IH|done].
Qed.

Lemma first_occurrences_elem (l : list pystr) x :
  x ∈ first_occurrences id l <-> x ∈ l.
Proof.
  rewrite !list_elem_of_In. split; [apply first_occurrences_incl|].
  intros H. apply (first_occurrences_keys id) in H.
  by rewrite List.map_id in H.
Qed.

Lemma first_occurrences_id_NoDup (l : list pystr) :
  List.NoDup (first_occurrences id l).
Proof.
  rewrite <- (List.map_id (first_occurrences id l)).
  apply (first_occurrences_NoDup id).
Qed.

(** One round of the loop, for a word that counts. *)
Lemma count_word_tally p x :
  counted x = true ->
  count_word (tally (occurrences p) (first_occurrences id p)) x
  = tally (occurrences (p ++ [x])) (first_occurrences id (p ++ [x])).
Proof.
  intros Hc. unfold counted in Hc.
  apply andb_true_iff in Hc as [H1 H2].
  apply negb_true_iff in H1, H2.
  unfold count_word. rewrite H1, H2.
  rewrite dict_get_tally, first_occurrences_snoc, List.map_id.
  assert (Hv : (if bool_decide (x ∈ first_occurrences id p)
                then occurrences p x else 0) + 1
               = occurrences (p ++ [x]) x).
  { rewrite occurrences_snoc, (bool_decide_eq_true_2 (x = x)) by done.
    destruct (decide (x ∈ first_occurrences id p)) as [Hin|Hin].
    - by rewrite (bool_decide_eq_true_2 _ Hin).
    - rewrite (bool_decide_eq_false_2 _ Hin).
      rewrite occurrences_absent; [done|].
      by rewrite <- first_occurrences_elem. }
  rewrite Hv.
  rewrite (dict_set_tally (occurrences p) (occurrences (p ++ [x]))).
  - f_equal. rewrite (bool_decide_ext _ _ (first_occurrences_elem p x)).
    reflexivity.
  - apply first_occurrences_id_NoDup.
  - intros k Hk. rewrite occurrences_snoc.
    rewrite bool_decide_eq_false_2; [lia|congruence].
Qed.

Lemma count_loop_tally l p :
  (forall x, In x l -> counted x = true) ->
  fold_left count_word l (tally (occurrences p) (first_occurrences id p))
  = tally (occurrences (p ++ l)) (first_occurrences id (p ++ l)).
Proof.
  revert p. induction l as [|x l IH]; intros p H; cbn [fold_left].
  - by rewrite app_nil_r.
  - rewrite count_word_tally; [|apply H; by left].
    rewrite IH; [|intros y Hy; apply H; by right].
    by rewrite <- app_assoc.
Qed.

Lemma count_loop_skips ws freq :
  fold_left count_word ws freq
  = fold_left count_word (List.filter counted ws) freq.
Proof.
  revert freq. induction ws as [|w ws IH]; intros freq;
    cbn [fold_left List.filter]; [done|].
  destruct (counted w) eqn:Hc; cbn [fold_left]; [apply IH|].
  rewrite <- IH. f_equal. unfold count_word, counted in *.
  destruct (bool_decide (w ∈ topic_stopwords)); [done|].
  destruct (length w <? 2); [done|discriminate].
Qed.

(** The dictionary the loop builds: the counted tokens in the order of
    their first occurrence, each with its frequency. *)
Lemma count_loop_result ws :
  fold_left count_word ws []
  = tally (frequency ws) (first_occurrences id (List.filter counted ws)).
Proof.
  rewrite count_loop_skips.
  change (@nil (pystr * nat))
    with (tally (occurrences []) (first_occurrences id [])) at 1.
  rewrite count_loop_tally; [done|].
  intros x Hx. by apply filter_In in Hx as [_ Hx].
Qed.

(* ===================================================================== *)
(** ** The stable sort by count *)
(* ===================================================================== *)

Lemma insert_by_count_perm x l : Permutation (insert_by_count x l) (x :: l).
Proof.
  induction l as [|y l IH]; cbn [insert_by_count]; [done|].
  destruct (snd y <=? snd x); [done|].
  rewrite IH. apply perm_swap.
Qed.

Lemma sorted_by_count_desc_perm l : Permutation (sorted_by_count_desc l) l.
Proof.
  induction l as [|x l IH]; [done|].
  unfold sorted_by_count_desc in *. cbn [fold_right].
  rewrite insert_by_count_perm. by constructor.
Qed.

Lemma StronglySorted_map {A B} (R : B -> B -> Prop) (f : A -> B) l :
  StronglySorted (fun a b => R (f a) (f b)) l
  <-> StronglySorted R (List.map f l).
Proof.
  induction l as [|x l IH]; cbn [List.map].
  - split; constructor.
  - split; intros H; apply StronglySorted_inv in H as [Hs Hf].
    + constructor; [by apply IH|]. rewrite List.Forall_forall in *.
      intros y Hy. apply in_map_iff in Hy as (z & <- & Hz). by apply Hf.
    + constructor; [by apply IH|]. rewrite List.Forall_forall in *.
      intros z Hz. by apply Hf, in_map.
Qed.

Lemma StronglySorted_weaken {A} (R R' : A -> A -> Prop) l :
  (forall a b, In a l -> In b l -> R a b -> R' a b) ->
  StronglySorted R l -> StronglySorted R' l.
Proof.
  induction l as [|x l IH]; intros Himp H; [constructor|].
  apply StronglySorted_inv in H as [Hs Hf]. constructor.
  - apply IH; [|done]. intros a b Ha Hb. apply Himp; by right.
  - rewrite List.Forall_forall in *. intros y Hy.
    apply Himp; [by left|by right|by apply Hf].
Qed.

Lemma StronglySorted_filter {A} (R : A -> A -> Prop) (f : A -> bool) l :
  StronglySorted R l -> StronglySorted R (List.filter f l).
Proof.
  induction l as [|x l IH]; intros H; cbn [List.filter]; [constructor|].
  apply StronglySorted_inv in H as [Hs Hf].
  destruct (f x); [|by apply IH]. constructor; [by apply IH|].
  rewrite List.Forall_forall in *. intros y Hy.
  apply filter_In in Hy as [Hy _]. by apply Hf.
Qed.

(** Inserting an item that was seen before all of [s] keeps the rank
    order. *)
Lemma insert_by_count_sorted tokens x s :
  snd x = frequency tokens (fst x) ->
  Forall (fun y => snd y = frequency tokens (fst y)) s ->
  Forall (fun y => first_index tokens (fst x) < first_index tokens (fst y)) s ->
  StronglySorted (fun a b => ranks_before tokens (fst a) (fst b)) s ->
  StronglySorted (fun a b => ranks_before tokens (fst a) (fst b))
                 (insert_by_count x s).
Proof.
  intros Hx. induction s as [|y s IH]; intros Hfreq Hpos Hs;
    cbn [insert_by_count].
  - repeat constructor.
  - apply Forall_cons_iff in Hfreq as [Hy Hfreq].
    pose proof Hpos as Hpos'. apply Forall_cons_iff in Hpos' as [Hxy Hpos'].
    pose proof Hs as Hs'. apply StronglySorted_inv in Hs' as [Hs' Hys].
    destruct (snd y <=? snd x) eqn:E.
    + apply Nat.leb_le in E. constructor; [done|].
      assert (Hle : Forall (fun z => frequency tokens (fst z)
                                     <= frequency tokens (fst x)) (y :: s)).
      { constructor; [lia|]. rewrite List.Forall_forall in *.
        intros z Hz. specialize (Hys z Hz). unfold ranks_before in Hys. lia. }
      rewrite List.Forall_forall in *. intros z Hz.
      specialize (Hle z Hz). specialize (Hpos z Hz).
      unfold ranks_before. lia.
    + apply Nat.leb_gt in E. constructor; [by apply IH|].
      rewrite List.Forall_forall in *. intros z Hz.
      apply (Permutation_in _ (insert_by_count_perm x s)) in Hz.
      destruct Hz as [<-|Hz]; [|by apply Hys].
      unfold ranks_before. lia.
Qed.

Lemma sorted_by_count_desc_sorted tokens l :
  Forall (fun y => snd y = frequency tokens (fst y)) l ->
  StronglySorted
    (fun a b => first_index tokens (fst a) < first_index tokens (fst b)) l ->
  StronglySorted (fun a b => ranks_before tokens (fst a) (fst b))
                 (sorted_by_count_desc l).
Proof.
  induction l as [|x l IH]; intros Hfreq Hs; [constructor|].
  apply Forall_cons_iff in Hfreq as [Hx Hfreq].
  apply StronglySorted_inv in Hs as [Hs Hxl].
  unfold sorted_by_count_desc. cbn [fold_right].
  fold (sorted_by_count_desc l).
  apply insert_by_count_sorted; [done| | |by apply IH].
  - rewrite List.Forall_forall in *. intros y Hy. apply Hfreq.
    by apply (Permutation_in _ (sorted_by_count_desc_perm l)).
  - rewrite List.Forall_forall in *. intros y Hy. apply Hxl.
    by apply (Permutation_in _ (sorted_by_count_desc_perm l)).
Qed.

(** The keys of the dictionary are in the order of their first index in the
    token stream. *)
Lemma first_occurrences_by_index tokens :
  StronglySorted (fun a b => first_index tokens a < first_index tokens b)
                 (first_occurrences id (List.filter counted tokens)).
Proof.
  induction tokens as [|t tokens IH]; [constructor|].
  assert (Hstep : forall l,
    (forall a, In a l -> a <> t) ->
    StronglySorted (fun a b => first_index tokens a < first_index tokens b) l ->
    StronglySorted
      (fun a b => first_index (t :: tokens) a < first_index (t :: tokens) b) l).
  { intros l Hne. apply StronglySorted_weaken. intros a b Ha Hb Hab.
    cbn [first_index].
    rewrite !bool_decide_eq_false_2; [lia| |];
      intros ->; [by apply (Hne b)|by apply (Hne a)]. }
  cbn [List.filter]. destruct (counted t) eqn:Hc.
  - cbn [first_occurrences]. constructor.
    + apply Hstep; [|by apply StronglySorted_filter].
      intros a Ha ->. apply filter_In in Ha as [_ Ha].
      unfold id in Ha. by rewrite bool_decide_eq_true_2 in Ha.
    + rewrite List.Forall_forall. intros b Hb. apply filter_In in Hb as [_ Hb].
      unfold id in Hb. apply negb_true_iff, bool_decide_eq_false in Hb.
      cbn [first_index]. rewrite bool_decide_eq_true_2 by done.
      rewrite bool_decide_eq_false_2 by congruence. lia.
  - apply Hstep; [|done]. intros a Ha ->.
    apply first_occurrences_incl, filter_In in Ha as [_ Ha]. congruence.
Qed.

Lemma tally_keys g ks : List.map fst (tally g ks) = ks.
Proof.
  unfold tally. rewrite List.map_map. cbn [fst]. apply List.map_id.
Qed.

(** The sorted dictionary lists the counted tokens in rank order. *)
Lemma sorted_counts_ranking tokens :
  is_ranking tokens
    (List.map fst (sorted_by_count_desc (fold_left count_word tokens []))).
Proof.
  rewrite count_loop_result.
  set (ks := first_occurrences id (List.filter counted tokens)).
  pose proof (sorted_by_count_desc_perm (tally (frequency tokens) ks)) as Hp.
  apply (Permutation_map fst) in Hp. rewrite tally_keys in Hp.
  subst ks. repeat split.
  - apply (Permutation_NoDup (Permutation_sym Hp)).
    apply first_occurrences_id_NoDup.
  - intros H. apply (Permutation_in _ Hp) in H.
    apply list_elem_of_In. apply list_elem_of_In in H.
    exact (proj1 (first_occurrences_elem _ _) H).
  - intros H. apply (Permutation_in _ (Permutation_sym Hp)).
    apply list_elem_of_In. apply list_elem_of_In in H.
    exact (proj2 (first_occurrences_elem _ _) H).
  - apply (proj1 (StronglySorted_map (ranks_before tokens) fst _)).
    apply sorted_by_count_desc_sorted.
    + unfold tally. rewrite List.Forall_forall. intros y Hy.
      by apply in_map_iff in Hy as (k & <- & _).
    + apply (proj2 (StronglySorted_map
               (fun a b => first_index tokens a < first_index tokens b) fst _)).
      rewrite tally_keys.
      apply first_occurrences_by_index.
Qed.

(** [_extract_topics] returns the first [topn] tokens of the ranking. *)
Lemma extract_topics_ranking nlp text topn :
  exists ranking,
    is_ranking (_thai_words nlp text) ranking
    /\ _extract_topics nlp text topn = take topn ranking.
Proof.
  eexists. split; [apply sorted_counts_ranking|].
  unfold _extract_topics. by rewrite firstn_map.
Qed.

(** Two tokens are never each ranked before the other, so a ranking is
    determined by the token stream. *)
Lemma ranks_before_asym tokens a b :
  ranks_before tokens a b -> ranks_before tokens b a -> False.
Proof. unfold ranks_before. lia. Qed.

Lemma is_ranking_unique tokens r1 r2 :
  is_ranking tokens r1 -> is_ranking tokens r2 -> r1 = r2.
Proof.
  intros (Hnd1 & Hin1 & Hs1) (Hnd2 & Hin2 & Hs2).
  assert (Hsame : forall w, In w r1 <-> In w r2).
  { intros w. by rewrite Hin1, Hin2. }
  clear Hin1 Hin2. revert r2 Hnd2 Hs2 Hsame.
  induction r1 as [|a r1 IH]; intros [|b r2] Hnd2 Hs2 Hsame.
  - done.
  - exfalso. apply (Hsame b). by left.
  - exfalso. apply (Hsame a). by left.
  - apply List.NoDup_cons_iff in Hnd1 as [Ha Hnd1].
    apply List.NoDup_cons_iff in Hnd2 as [Hb Hnd2].
    apply StronglySorted_inv in Hs1 as [Hs1 Hf1].
    apply StronglySorted_inv in Hs2 as [Hs2 Hf2].
    rewrite List.Forall_forall in Hf1, Hf2.
    assert (a = b) as <-.
    { destruct (decide (a = b)) as [|NE]; [done|exfalso].
      assert (In a r2) as Har2.
      { destruct (proj1 (Hsame a) (or_introl eq_refl)); [congruence|done]. }
      assert (In b r1) as Hbr1.
      { destruct (proj2 (Hsame b) (or_introl eq_refl)); [congruence|done]. }
      exact (ranks_before_asym tokens a b (Hf1 b Hbr1) (Hf2 a Har2)). }
    f_equal. apply IH; try done.
    intros w. split; intros Hw.
    + destruct (proj1 (Hsame w) (or_intror Hw)) as [<-|]; [done|done].
    + destruct (proj2 (Hsame w) (or_intror Hw)) as [<-|]; [done|done].
Qed.

(* ===================================================================== *)
(** ** Splitting on whitespace *)
(* ===================================================================== *)

(** The fallback of [_thai_words], [re.split] on [\s+] followed by the
    removal of blank pieces, computes what [str.split()] computes, and
    neither sees the whitespace around the text. *)

Lemma lstrip_length s : length (lstrip s) <= length s.
Proof.
  induction s as [|c s IH]; cbn [lstrip]; [done|].
  destruct (isspace c); cbn [length]; lia.
Qed.



Lemma lstrip_snoc l c :
  lstrip (l ++ [c])
  = match lstrip l with
    | [] => if isspace c then [] else [c]
    | _ :: _ => lstrip l ++ [c]
    end.
Proof.
  induction l as [|a l IH]; cbn [app lstrip]; [done|].
  destruct (isspace a); [done|reflexivity].
Qed.

Lemma rstrip_cons c s :
  rstrip (c :: s)
  = match rstrip s with
    | [] => if isspace c then [] else [c]
    | _ :: _ => c :: rstrip s
    end.
Proof.
  unfold rstrip. cbn [rev]. rewrite lstrip_snoc.
  destruct (lstrip (rev s)) as [|a l] eqn:E.
  - cbn [rev]. by destruct (isspace c).
  - rewrite rev_app_distr. cbn [rev app].
    destruct (rev l ++ [a]) eqn:E'; [|done].
    by apply app_eq_nil in E' as [_ ?].
Qed.

Lemma lstrip_idempotent s : lstrip (lstrip s) = lstrip s.
Proof.
  induction s as [|c s IH]; cbn [lstrip]; [done|].
  destruct (isspace c) eqn:E; [done|]. cbn [lstrip]. by rewrite E.
Qed.

Lemma lstrip_head c s : lstrip (c :: s) = c :: s -> isspace c = false.
Proof.
  cbn [lstrip]. destruct (isspace c); [|done]. intros H.
  apply (f_equal length) in H. pose proof (lstrip_length s).
  cbn [length] in H. lia.
Qed.

Lemma lstrip_strip s : lstrip (strip s) = strip s.
Proof.
  unfold strip. pose proof (lstrip_idempotent s) as Hi.
  destruct (lstrip s) as [|a u]; [done|].
  apply lstrip_head in Hi. rewrite rstrip_cons.
  destruct (rstrip u); rewrite ?Hi; cbn [lstrip]; by rewrite Hi.
Qed.

Lemma strip_idempotent s : strip (strip s) = strip s.
Proof.
  unfold strip at 1. rewrite lstrip_strip.
  unfold strip, rstrip. rewrite rev_involutive.
  by rewrite lstrip_idempotent.
Qed.

Lemma split_go_lstrip s : PyStr.split_go (lstrip s) [] = PyStr.split_go s [].
Proof.
  induction s as [|c s IH]; cbn [lstrip]; [done|].
  destruct (isspace c) eqn:E; [|done].
  cbn [PyStr.split_go]. by rewrite E.
Qed.

Lemma split_go_cons_congr c s1 s2 cur :
  (forall cur, PyStr.split_go s1 cur = PyStr.split_go s2 cur) ->
  PyStr.split_go (c :: s1) cur = PyStr.split_go (c :: s2) cur.
Proof. intros H. cbn [PyStr.split_go]. by rewrite !H. Qed.

Lemma split_go_rstrip s cur :
  PyStr.split_go (rstrip s) cur = PyStr.split_go s cur.
Proof.
  revert cur. induction s as [|c s IH]; intros cur; [done|].
  rewrite rstrip_cons. destruct (rstrip s) as [|a r] eqn:E.
  - cbn [PyStr.split_go].
    destruct (isspace c) eqn:Ec; cbn [PyStr.split_go]; rewrite ?Ec, <- IH;
      cbn [PyStr.split_go PyStr.truthy]; by destruct (PyStr.truthy cur).
  - by apply split_go_cons_congr.
Qed.

Lemma split_strip s : PyStr.split (strip s) = PyStr.split s.
Proof.
  unfold PyStr.split, strip. by rewrite split_go_rstrip, split_go_lstrip.
Qed.








(* ===================================================================== *)
(** ** The heuristic summary *)
(* ===================================================================== *)

Lemma take_length_le {A} n (l : list A) : length (take n l) <= n.
Proof. rewrite length_take. lia. Qed.

(** C2. For every log the heuristic summary has at most 6 topics, 10
    decisions, 20 action items, 10 risks and 8 highlights, and each of
    these lists is the cut of the full candidate list of its category: the
    ranking of all counted tokens, all sentences matching the decision,
    action and risk triggers, all utterances passing the highlight test. *)
Theorem summarize_offline_caps nlp sm :
  let d := summarize_offline nlp sm in
  (length (topics d) <= 6
   /\ length (decisions d) <= 10
   /\ length (action_items d) <= 20
   /\ length (risks_or_followups d) <= 10
   /\ length (highlights d) <= 8)
  /\ (exists ranking,
        is_ranking (_thai_words nlp (all_text sm)) ranking
        /\ topics d = take 6 ranking)
  /\ decisions d = take 10 (List.filter is_decision (sentences nlp sm))
  /\ action_items d
     = take 20 (List.map action_item_of
                  (List.filter is_action (sentences nlp sm)))
  /\ risks_or_followups d = take 10 (List.filter is_risk (sentences nlp sm))
  /\ highlights d = take 8 (List.filter is_highlight (texts (utterances sm))).
Proof.
  intros d. destruct (summarize_offline_fields nlp sm)
    as (Ht & Hd & Ha & Hr & Hh). fold d in Ht, Hd, Ha, Hr, Hh.
  destruct (extract_topics_ranking nlp (all_text sm) 6) as (ranking & Hrk & Heq).
  split; [|split; [|by repeat split]].
  - rewrite Ht, Heq, Hd, Ha, Hr, Hh. repeat split; apply take_length_le.
  - exists ranking. split; [done|]. by rewrite Ht.
Qed.





Lemma take_all {A} n (l : list A) : length l <= n -> take n l = l.
Proof. apply firstn_all2. Qed.

(** C8 (amended). Every sentence of the log is tested against the three
    vocabularies independently: the decision candidates are the sentences
    containing a decision trigger, each sentence containing an action
    trigger gives exactly one action-item candidate with the sentence as
    its task, and the risk candidates are the sentences containing a risk
    trigger, all in the order of the log. The summary keeps the first 10,
    20 and 10 candidates; a matching sentence is therefore in the returned
    list whenever its category has no more candidates than its cap. *)
Theorem classification_buckets nlp sm :
  let d := summarize_offline nlp sm in
  let ss := sentences nlp sm in
  decisions d = take 10 (List.filter is_decision ss)
  /\ action_items d = take 20 (List.map action_item_of (List.filter is_action ss))
  /\ risks_or_followups d = take 10 (List.filter is_risk ss)
  /\ (forall s, In s ss -> is_decision s = true ->
                length (List.filter is_decision ss) <= 10 ->
                In s (decisions d))
  /\ (forall s, In s ss -> is_action s = true ->
                length (List.filter is_action ss) <= 20 ->
                In (action_item_of s) (action_items d))
  /\ (forall s, In s ss -> is_risk s = true ->
                length (List.filter is_risk ss) <= 10 ->
                In s (risks_or_followups d)).
Proof.
  intros d ss. destruct (summarize_offline_fields nlp sm)
    as (_ & Hd & Ha & Hr & _). fold d ss in Hd, Ha, Hr.
  repeat split; try done.
  - intros s Hin Hm Hlen. rewrite Hd, take_all by done.
    by apply filter_In.
  - intros s Hin Hm Hlen. rewrite Ha, take_all by (by rewrite length_map).
    apply in_map. by apply filter_In.
  - intros s Hin Hm Hlen. rewrite Hr, take_all by done.
    by apply filter_In.
Qed.

Lemma classification_buckets_witness :
  let d := summarize_offline no_thai meeting in
  let s := str "คุณสมชาย ต้องทำ รายงาน งบ ภายใน 3 วัน" in
  In (action_item_of s) (action_items d).
Proof.
  intros d s.
  apply (proj1 (proj2 (proj2 (proj2 (proj2
           (classification_buckets no_thai meeting))))) s).
  - vm_compute. right. left. reflexivity.
  - vm_compute. reflexivity.
  - vm_compute. lia.
Defined.

(** The claim as stated fails: the eleventh sentence of the log matches a
    decision trigger and an action trigger, and is not among the decisions
    of the summary. *)
Lemma eleventh_decision_dropped :
  In eleventh (sentences no_thai eleven_decisions)
  /\ is_decision eleventh = true
  /\ is_action eleventh = true
  /\ ~ In eleventh (decisions (summarize_offline no_thai eleven_decisions)).
Proof.
  split; [|split; [|split]].
  - apply list_elem_of_In. apply (bool_decide_eq_true_1 _). vm_compute. reflexivity.
  - vm_compute. reflexivity.
  - vm_compute. reflexivity.
  - rewrite <- list_elem_of_In. apply (bool_decide_eq_false_1 _).
    vm_compute. reflexivity.
Qed.

(** C9. For the one-utterance log of scenario 2 the summary has exactly one
    action item: its assignee, the first honorific pattern found, contains
    the name; its due text is the deadline; its task is the sentence. The
    utterance is one sentence for the fallback segmentation, and for
    pythainlp when it returns it whole. *)
Theorem somchai_action_item nlp :
  HAS_THAI nlp = false
  \/ sent_tokenize nlp somchai = None
  \/ sent_tokenize nlp somchai = Some [somchai] ->
  exists item,
    action_items (summarize_offline nlp somchai_log) = [item]
    /\ assignee item = str "คุณสมชายต้องทำรายงานภายใน"
    /\ contains (str "คุณสมชาย") (assignee item) = true
    /\ due item = str "ภายใน 3 วัน"
    /\ contains (str "ภายใน 3 วัน") (due item) = true
    /\ task item = somchai.
Proof.
  intros Hseg.
  assert (Hsent : _thai_sentences nlp somchai = [somchai]).
  { unfold _thai_sentences.
    assert (Hfb : stripped_nonblank (Re.split sentence_separator somchai)
                  = [somchai]) by (vm_compute; reflexivity).
    destruct (HAS_THAI nlp); [|done].
    destruct Hseg as [?|[->| ->]]; [done|done|].
    vm_compute. reflexivity. }
  destruct (summarize_offline_fields nlp somchai_log) as (_ & _ & Ha & _).
  assert (Hss : sentences nlp somchai_log = [somchai]).
  { unfold sentences, somchai_log. cbn [utterances flat_map snd].
    by rewrite Hsent. }
  rewrite Hss in Ha.
  eexists. split; [rewrite Ha; vm_compute; reflexivity|].
  repeat split; vm_compute; reflexivity.
Qed.

Lemma somchai_action_item_witness :
  exists item,
    action_items (summarize_offline no_thai somchai_log) = [item]
    /\ assignee item = str "คุณสมชายต้องทำรายงานภายใน"
    /\ contains (str "คุณสมชาย") (assignee item) = true
    /\ due item = str "ภายใน 3 วัน"
    /\ contains (str "ภายใน 3 วัน") (due item) = true
    /\ task item = somchai.
Proof. apply (somchai_action_item no_thai). left. reflexivity. Defined.

(* ===================================================================== *)
(** ** The AI summarizer path and its fallback *)
(* ===================================================================== *)

Lemma summarize_with_gemini_disabled g sm :
  HAS_GEMINI g = false \/ has_key g = false ->
  summarize_with_gemini g sm = Returned PNone.
Proof.
  unfold summarize_with_gemini, has_key. intros [-> | ->]; [done|].
  by rewrite andb_false_r.
Qed.

(** [configure] is called outside the [try]: what it raises reaches the
    caller of [summarize_with_gemini]. *)
Lemma summarize_with_gemini_raises g sm :
  keyword_only g -> HAS_GEMINI g = true -> has_key g = true ->
  summarize_with_gemini g sm = Raised (Exc "TypeError").
Proof.
  intros Hkw Hlib Hkey. unfold summarize_with_gemini.
  unfold has_key in Hkey. rewrite Hlib, Hkey. cbn [andb negb].
  by rewrite Hkw.
Qed.

(** What [summarize] does, by the library, the key and [prefer_gemini]. *)
Lemma summarize_cases g nlp sm prefer_gemini :
  keyword_only g ->
  summarize g nlp sm prefer_gemini
  = if prefer_gemini && HAS_GEMINI g && has_key g
    then Raised (Exc "TypeError")
    else Returned (summary_dict (summarize_offline nlp sm)).
Proof.
  intros Hkw. unfold summarize. destruct prefer_gemini; [|done].
  cbn [andb]. destruct (HAS_GEMINI g) eqn:Hlib;
    [|by rewrite summarize_with_gemini_disabled by (by left)].
  destruct (has_key g) eqn:Hkey;
    [|by rewrite summarize_with_gemini_disabled by (by right)].
  by rewrite summarize_with_gemini_raises.
Qed.

Lemma strings_well_formed l : is_str_list (strings l) = true.
Proof. unfold strings. cbn [is_str_list]. by induction l. Qed.

(** The heuristic summary has the keys and types of a summary document. *)
Lemma summary_dict_well_formed d : is_summary_document (summary_dict d) = true.
Proof.
  assert (Hget : forall v1 v2 v3 v4 v5 v6,
    let items := [ (str "summary", v1); (str "topics", v2);
                   (str "decisions", v3); (str "action_items", v4);
                   (str "risks_or_followups", v5); (str "highlights", v6) ] in
    dict_get items (str "summary") PNone = v1
    /\ dict_get items (str "topics") PNone = v2
    /\ dict_get items (str "decisions") PNone = v3
    /\ dict_get items (str "action_items") PNone = v4
    /\ dict_get items (str "risks_or_followups") PNone = v5
    /\ dict_get items (str "highlights") PNone = v6).
  { intros. repeat split; vm_compute; reflexivity. }
  unfold summary_dict, is_summary_document.
  destruct (Hget (PStr (summary d)) (strings (topics d))
              (strings (decisions d))
              (PList (List.map action_item_dict (action_items d)))
              (strings (risks_or_followups d)) (strings (highlights d)))
    as (-> & -> & -> & -> & -> & ->).
  rewrite !strings_well_formed. cbn [is_str andb].
  rewrite !andb_true_r. induction (action_items d) as [|a l IH]; [done|].
  cbn [List.map forallb]. rewrite IH, andb_true_r.
  unfold action_item_dict, is_action_item.
  assert (Hitem : forall v1 v2 v3,
    let items := [ (str "assignee", v1); (str "task", v2); (str "due", v3) ] in
    dict_get items (str "assignee") PNone = v1
    /\ dict_get items (str "task") PNone = v2
    /\ dict_get items (str "due") PNone = v3).
  { intros. repeat split; vm_compute; reflexivity. }
  by destruct (Hitem (PStr (assignee a)) (PStr (task a)) (PStr (due a)))
    as (-> & -> & ->).
Qed.

(** C1 (defect of the code). With the Gemini library installed and an API
    key set, [summarize] raises for every log: line 156 hands
    [genai.configure] the value of [api_key == api_key] as a positional
    argument, outside the [try], and the library takes keyword arguments
    only, so the [TypeError] reaches the caller and no summary is
    returned. The heuristic result is returned when the library is absent,
    when no key is set, and with [prefer_gemini] off. *)
Theorem summarize_with_library_and_key g nlp sm :
  keyword_only g ->
  (HAS_GEMINI g = true -> has_key g = true ->
   summarize g nlp sm true = Raised (Exc "TypeError"))
  /\ (HAS_GEMINI g = false \/ has_key g = false ->
      summarize g nlp sm true
      = Returned (summary_dict (summarize_offline nlp sm)))
  /\ summarize g nlp sm false
     = Returned (summary_dict (summarize_offline nlp sm)).
Proof.
  intros Hkw. split; [|split].
  - intros Hlib Hkey. by rewrite summarize_cases, Hlib, Hkey.
  - intros H. rewrite summarize_cases by done.
    destruct H as [-> | ->]; [done|]. by rewrite andb_false_r.
  - by rewrite summarize_cases.
Qed.

Lemma summarize_with_library_and_key_witness :
  summarize keyed_gemini no_thai somchai_log true = Raised (Exc "TypeError").
Proof.
  apply (proj1 (summarize_with_library_and_key keyed_gemini no_thai
                  somchai_log ltac:(by intros [|arg args] kwargs))).
  - reflexivity.
  - reflexivity.
Defined.

(* ===================================================================== *)
(** ** The capture path *)
(* ===================================================================== *)

Lemma truthy_nonempty (s : pystr) : PyStr.truthy s = false <-> s = [].
Proof. by destruct s. Qed.

(** In every state the remembered text is the text accepted last, it is not
    empty, and the summarizer holds the same log as the augmenter. *)
Lemma reachable_invariant a :
  reachable a ->
  last_text a = last_accepted a
  /\ last_text a <> Some []
  /\ utterances (summarizer a) = all_utterances a.
Proof.
  assert (Hproc : forall a text now,
    last_text a = last_accepted a /\ last_text a <> Some []
    /\ utterances (summarizer a) = all_utterances a ->
    let a' := _process_text a text now in
    last_text a' = last_accepted a' /\ last_text a' <> Some []
    /\ utterances (summarizer a') = all_utterances a').
  { intros a0 text now (H1 & H2 & H3). cbv zeta. unfold _process_text.
    destruct (PyStr.truthy (strip text)) eqn:Et; cbn [negb]; [|done].
    destruct (_ && _); [done|].
    unfold last_accepted, texts.
    cbn [last_text all_utterances summarizer utterances add_utterance].
    rewrite List.map_app, H3. cbn [List.map snd]. rewrite last_snoc.
    split; [done|]. split; [|done].
    intros [= E]. by rewrite E in Et. }
  induction 1 as [|a text now _ IH|a r now _ IH].
  - done.
  - by apply Hproc.
  - destruct r as [text| |e]; [by apply Hproc|done|done].
Qed.

Lemma process_text_rejected a text now :
  reachable a ->
  strip text = [] \/ last_accepted a = Some (strip text) ->
  _process_text a text now = a.
Proof.
  intros Hr Hrej. destruct (reachable_invariant a Hr) as (Hlast & Hne & _).
  unfold _process_text.
  destruct (PyStr.truthy (strip text)) eqn:Et; cbn [negb]; [|done].
  destruct Hrej as [E|E]; [by rewrite E in Et|].
  rewrite Hlast, E. cbn [from_option]. rewrite Et.
  by rewrite bool_decide_eq_true_2.
Qed.

Lemma process_text_accepted a text now :
  reachable a ->
  strip text <> [] -> last_accepted a <> Some (strip text) ->
  _process_text a text now
  = {| live_transcript := deque_append 5 (live_transcript a) (strip text);
       all_utterances := all_utterances a ++ [(now, strip text)];
       last_text := Some (strip text);
       summarizer := add_utterance (summarizer a) now (strip text) |}.
Proof.
  intros Hr Hne Hnew. destruct (reachable_invariant a Hr) as (Hlast & _ & _).
  unfold _process_text.
  destruct (PyStr.truthy (strip text)) eqn:Et;
    [|by apply truthy_nonempty in Et]. cbn [negb].
  rewrite (bool_decide_eq_false_2 (Some (strip text) = last_text a));
    [|rewrite Hlast; congruence].
  by rewrite andb_false_r.
Qed.

Lemma lstrip_app s x : s <> [] -> lstrip s = s -> lstrip (s ++ x) = s ++ x.
Proof.
  destruct s as [|c s]; [done|]. intros _ H. apply lstrip_head in H.
  cbn [app lstrip]. by rewrite H.
Qed.

Lemma rstrip_app x s : s <> [] -> rstrip s = s -> rstrip (x ++ s) = x ++ s.
Proof.
  intros Hne H. unfold rstrip in *. rewrite rev_app_distr.
  assert (Hrev : lstrip (rev s) = rev s).
  { apply (f_equal (@rev N)) in H. by rewrite rev_involutive in H. }
  rewrite lstrip_app; [|by destruct s; [|intros E; apply app_eq_nil in E as [_ ?]]|done].
  by rewrite rev_app_distr, !rev_involutive.
Qed.

Lemma strip_fixed s : strip s = s -> lstrip s = s /\ rstrip s = s.
Proof.
  intros H. assert (Hl : lstrip s = s).
  { rewrite <- H at 1. by rewrite lstrip_strip. }
  split; [done|]. unfold strip in H. by rewrite Hl in H.
Qed.

(** The concatenation of non-empty stripped texts has no whitespace around
    it. *)
Lemma join_stripped sep ts :
  Forall (fun t => t <> [] /\ strip t = t) ts ->
  strip (join sep ts) = join sep ts.
Proof.
  intros H.
  assert (Hgen : ts <> [] ->
    join sep ts <> [] /\ lstrip (join sep ts) = join sep ts
    /\ rstrip (join sep ts) = join sep ts).
  { induction H as [|t ts [Hne Hs] Hts IH]; [done|]. intros _.
    apply strip_fixed in Hs as [Hl Hr].
    destruct ts as [|t2 ts]; [done|].
    destruct IH as (IHne & IHl & IHr); [done|].
    change (join sep (t :: t2 :: ts)) with (t ++ sep ++ join sep (t2 :: ts)).
    split; [by destruct t|]. split; [by apply lstrip_app|].
    rewrite !app_assoc. by apply rstrip_app. }
  destruct ts as [|t ts]; [done|].
  destruct Hgen as (_ & Hl & Hr); [done|].
  unfold strip. by rewrite Hl, Hr.
Qed.

(** Every text the augmenter logs is stripped and not empty, so the
    concatenation the summarizer tokenizes is already stripped. *)
Lemma augmenter_log_stripped a :
  reachable a ->
  strip (concatenation (summarizer a)) = concatenation (summarizer a).
Proof.
  intros Hr. apply join_stripped.
  assert (Hproc : forall a text now,
    Forall (fun u => snd u <> [] /\ strip (snd u) = snd u)
           (utterances (summarizer a)) ->
    Forall (fun u => snd u <> [] /\ strip (snd u) = snd u)
           (utterances (summarizer (_process_text a text now)))).
  { intros a0 text now H. unfold _process_text.
    destruct (PyStr.truthy (strip text)) eqn:Et; cbn [negb]; [|done].
    destruct (_ && _); [done|]. cbn [summarizer add_utterance utterances].
    apply Forall_app. split; [done|]. constructor; [|constructor].
    cbn [snd]. split; [|apply strip_idempotent].
    intros E. by rewrite E in Et. }
  rewrite List.Forall_forall. intros t Ht.
  apply in_map_iff in Ht as (u & <- & Hu). revert u Hu.
  apply List.Forall_forall.
  induction Hr as [|a text now _ IH|a r now _ IH].
  - constructor.
  - by apply Hproc.
  - destruct r as [text| |e]; [by apply Hproc|done|done].
Qed.

(** C3. In every state of the augmenter, [_process_text] with a text that
    is empty or blank once stripped, or whose stripped form is the text
    accepted last, leaves the utterance log, the recent window and the
    summarizer's log as they are; the same text given twice in succession
    is appended at most once, and exactly once when the first of the two
    is accepted. *)
Theorem ingestion_idempotent a text now1 now2 :
  reachable a ->
  (strip text = [] \/ last_accepted a = Some (strip text) ->
   logs (_process_text a text now1) = logs a)
  /\ logs (_process_text (_process_text a text now1) text now2)
     = logs (_process_text a text now1)
  /\ (strip text <> [] -> last_accepted a <> Some (strip text) ->
      all_utterances (_process_text (_process_text a text now1) text now2)
      = all_utterances a ++ [(now1, strip text)]).
Proof.
  intros Hr.
  assert (Htwice : _process_text (_process_text a text now1) text now2
                   = _process_text a text now1).
  { destruct (decide (strip text = [])) as [E|NE].
    { rewrite (process_text_rejected a text now1) by (done || by left).
      apply process_text_rejected; [done|by left]. }
    apply process_text_rejected; [by constructor|right].
    destruct (decide (last_accepted a = Some (strip text))) as [E|Hnew].
    - rewrite process_text_rejected; [done|done|by right].
    - rewrite process_text_accepted by done.
      unfold last_accepted, texts. cbn [all_utterances].
      rewrite List.map_app. cbn [List.map snd]. by rewrite last_snoc. }
  split; [|split].
  - intros Hrej. by rewrite process_text_rejected.
  - by rewrite Htwice.
  - intros NE Hnew. rewrite Htwice. by rewrite process_text_accepted.
Qed.

Lemma ingestion_idempotent_witness :
  all_utterances (_process_text (_process_text init greeting 1%Z) greeting 2%Z)
  = all_utterances init ++ [(1%Z, strip greeting)].
Proof.
  apply (proj2 (proj2 (ingestion_idempotent init greeting 1%Z 2%Z reachable_init))).
  - vm_compute. discriminate.
  - vm_compute. discriminate.
Defined.

Lemma deque_append_length d x : length d <= 5 -> length (deque_append 5 d x) <= 5.
Proof.
  intros H. unfold deque_append.
  destruct (5 <=? length d) eqn:E; rewrite length_app; cbn [length].
  - apply Nat.leb_le in E. rewrite length_drop. lia.
  - apply Nat.leb_gt in E. lia.
Qed.

(** Appending the same text to the log and to the window keeps the window
    a suffix of the log. *)
Lemma deque_append_suffix (d log : list pystr) x :
  d `suffix_of` log -> deque_append 5 d x `suffix_of` log ++ [x].
Proof.
  intros [k ->]. unfold deque_append. destruct (5 <=? length d).
  - exists (k ++ take 1 d). rewrite <- !app_assoc. f_equal.
    by rewrite (app_assoc (take 1 d)), take_drop.
  - exists k. by rewrite app_assoc.
Qed.

Lemma process_text_window a text now :
  window_is_suffix a -> window_is_suffix (_process_text a text now).
Proof.
  intros H. unfold _process_text.
  destruct (negb _); [done|]. destruct (_ && _); [done|].
  unfold window_is_suffix, texts. cbn [live_transcript all_utterances].
  rewrite List.map_app. by apply deque_append_suffix.
Qed.

Lemma process_text_window_length a text now :
  length (live_transcript a) <= 5 ->
  length (live_transcript (_process_text a text now)) <= 5.
Proof.
  intros H. unfold _process_text.
  destruct (negb _); [done|]. destruct (_ && _); [done|].
  by apply deque_append_length.
Qed.

(** C4 (amended). The recent window holds at most five entries and is a
    suffix of the texts of the full log in the fresh augmenter, and
    [_process_text] and the callback on a recognized or an unintelligible
    segment keep it so; hence it is so after every run of the capture path
    in which no recognition request failed. *)
Theorem window_suffix_invariant :
  window_is_suffix init
  /\ (forall a text now,
        window_is_suffix a -> window_is_suffix (_process_text a text now))
  /\ (forall a r now,
        (forall e, r <> RequestError e) ->
        window_is_suffix a -> window_is_suffix (_audio_callback a r now))
  /\ (forall evs,
        forallb (fun ev => negb (is_request_error ev)) evs = true ->
        window_is_suffix (augmenter (run evs))
        /\ length (live_transcript (augmenter (run evs))) <= 5).
Proof.
  assert (Hcb : forall a r now,
    (forall e, r <> RequestError e) ->
    window_is_suffix a -> window_is_suffix (_audio_callback a r now)).
  { intros a [text| |e] now Hne H; cbn [_audio_callback]; [|done|].
    - by apply process_text_window.
    - by destruct (Hne e). }
  split; [by exists []|]. split; [apply process_text_window|]. split; [done|].
  intros evs. unfold run.
  assert (Hgen : forall s,
    window_is_suffix (augmenter s) /\ length (live_transcript (augmenter s)) <= 5 ->
    forallb (fun ev => negb (is_request_error ev)) evs = true ->
    window_is_suffix (augmenter (fold_left step evs s))
    /\ length (live_transcript (augmenter (fold_left step evs s))) <= 5).
  { induction evs as [|ev evs IH]; intros s Hs Hall; [done|].
    cbn [forallb] in Hall. apply andb_true_iff in Hall as [Hev Hall].
    cbn [fold_left]. apply IH; [|done]. destruct Hs as [Hs Hlen].
    destruct ev as [r now|]; cbn [step augmenter]; [|done].
    destruct r as [text| |e]; cbn [_audio_callback]; [| |done].
    - split; [by apply process_text_window|by apply process_text_window_length].
    - done. }
  apply Hgen. split; [by exists []|cbn; lia].
Qed.

Lemma window_suffix_invariant_witness :
  let evs := [ Callback (Recognized greeting) 1%Z;
               Callback UnknownValueError 2%Z;
               Callback (Recognized (str "เริ่มประชุม")) 3%Z ] in
  window_is_suffix (augmenter (run evs))
  /\ length (live_transcript (augmenter (run evs))) <= 5.
Proof.
  intros evs.
  apply (proj2 (proj2 (proj2 window_suffix_invariant)) evs).
  vm_compute. reflexivity.
Defined.

(** The claim as stated fails: after a failed recognition request in the
    fresh augmenter the window holds the notice line and the log is empty. *)
Lemma request_error_breaks_suffix :
  ~ window_is_suffix (_audio_callback init (RequestError (str "timeout")) 0%Z).
Proof.
  unfold window_is_suffix. cbn [_audio_callback all_utterances init texts List.map].
  intros [k Hk]. destruct k; vm_compute in Hk; discriminate Hk.
Qed.

Lemma run_reachable evs : reachable (augmenter (run evs)).
Proof.
  unfold run. assert (Hgen : forall s, reachable (augmenter s) ->
    reachable (augmenter (fold_left step evs s))).
  { induction evs as [|ev evs IH]; intros s Hs; [done|].
    cbn [fold_left]. apply IH. destruct ev as [r now|]; cbn [step augmenter];
      [by constructor|done]. }
  apply Hgen. constructor.
Qed.

(** C5 (amended). A callback that completes after the stop request is not
    dropped: [_audio_callback] acts as before the request. A recognized
    text that is not blank and differs from the text accepted last is
    appended to the utterance log, the window and the summarizer's log; a
    blank or repeated text, an unintelligible segment and a failed request
    leave the utterance log and the summarizer's log unchanged. *)
Theorem callback_after_stop evs r now :
  let s := run evs in
  let s' := step s (Callback r now) in
  stop_requested s = true ->
  stop_requested s' = true
  /\ augmenter s' = _audio_callback (augmenter s) r now
  /\ (fresh (augmenter s) r = true ->
      exists text, r = Recognized text
        /\ logs (augmenter s')
           = (all_utterances (augmenter s) ++ [(now, strip text)],
              deque_append 5 (live_transcript (augmenter s)) (strip text),
              utterances (summarizer (augmenter s)) ++ [(now, strip text)]))
  /\ (fresh (augmenter s) r = false ->
      all_utterances (augmenter s') = all_utterances (augmenter s)
      /\ utterances (summarizer (augmenter s'))
         = utterances (summarizer (augmenter s))).
Proof.
  intros s s' Hstop. pose proof (run_reachable evs) as Hr. fold s in Hr.
  split; [done|]. split; [done|]. subst s'. cbn [step augmenter].
  split.
  - destruct r as [text| |e]; [|done|done]. intros Hf. exists text.
    split; [done|]. cbn [fresh] in Hf.
    apply andb_true_iff in Hf as [Ht Hnew].
    apply negb_true_iff, bool_decide_eq_false in Hnew.
    cbn [_audio_callback]. rewrite process_text_accepted; [done|done| |done].
    intros E. by rewrite E in Ht.
  - destruct r as [text| |e]; [|done|done]. intros Hf. cbn [fresh] in Hf.
    cbn [_audio_callback]. rewrite process_text_rejected; [done|done|].
    apply andb_false_iff in Hf as [Ht|Hnew].
    + left. by apply truthy_nonempty.
    + right. by apply negb_false_iff, bool_decide_eq_true in Hnew.
Qed.

Lemma callback_after_stop_witness :
  let s := run [Callback (Recognized greeting) 1%Z; KeyboardInterrupt] in
  let s' := step s (Callback (Recognized greeting) 2%Z) in
  all_utterances (augmenter s') = all_utterances (augmenter s).
Proof.
  intros s s'.
  apply (callback_after_stop
           [Callback (Recognized greeting) 1%Z; KeyboardInterrupt]
           (Recognized greeting) 2%Z).
  - vm_compute. reflexivity.
  - vm_compute. reflexivity.
Defined.

(** The claim as stated fails: a text recognized after the stop request is
    appended to the three logs. *)
Lemma late_result_appended :
  let s := run [Callback (Recognized greeting) 1%Z; KeyboardInterrupt] in
  let s' := step s (Callback (Recognized (str "ขอบคุณครับ")) 2%Z) in
  stop_requested s = true
  /\ all_utterances (augmenter s')
     = all_utterances (augmenter s) ++ [(2%Z, str "ขอบคุณครับ")]
  /\ logs (augmenter s') <> logs (augmenter s).
Proof.
  intros s s'. split; [reflexivity|]. split; [vm_compute; reflexivity|].
  intros H. apply (f_equal (fun l => length (fst (fst l)))) in H.
  vm_compute in H. discriminate.
Qed.

(* ===================================================================== *)
(** ** Keywords of the server *)
(* ===================================================================== *)

Lemma select_keywords_candidates pos_tags :
  Server.select_keywords pos_tags = candidates pos_tags.
Proof.
  unfold Server.select_keywords, candidates.
  by rewrite (fold_left_append
    (fun wt => bool_decide (snd wt ∈ Server.keyword_tags)
               && (1 <? length (strip (fst wt))))
    (fun wt => strip (fst wt))).
Qed.

(** The loop with the set of seen keys keeps the first occurrences. *)
Lemma see_loop lib l : forall p (seen : gset pystr),
  (forall k, k ∈ seen <-> k ∈ List.map (Server.lower lib) p) ->
  snd (fold_left (Server.see lib) l
         (seen, first_occurrences (Server.lower lib) p))
  = first_occurrences (Server.lower lib) (p ++ l).
Proof.
  induction l as [|x l IH]; intros p seen Hseen; cbn [fold_left].
  - by rewrite app_nil_r.
  - replace (p ++ x :: l) with ((p ++ [x]) ++ l) by by rewrite <- app_assoc.
    destruct (decide (Server.lower lib x ∈ seen)) as [Hin|Hin].
    + assert (Hs : Server.see lib
                     (seen, first_occurrences (Server.lower lib) p) x
                   = (seen, first_occurrences (Server.lower lib) (p ++ [x]))).
      { unfold Server.see.
        rewrite (bool_decide_eq_false_2 (_ ∉ seen)) by tauto.
        rewrite first_occurrences_snoc, bool_decide_eq_true_2;
          [done|by apply Hseen]. }
      rewrite Hs. apply IH. intros k.
      rewrite Hseen, List.map_app, elem_of_app.
      cbn [List.map]. rewrite list_elem_of_singleton. split; [tauto|].
      intros [?| ->]; [done|]. by apply Hseen.
    + assert (Hs : Server.see lib
                     (seen, first_occurrences (Server.lower lib) p) x
                   = ({[Server.lower lib x]} ∪ seen,
                      first_occurrences (Server.lower lib) (p ++ [x]))).
      { unfold Server.see.
        rewrite (bool_decide_eq_true_2 (_ ∉ seen)) by done.
        rewrite first_occurrences_snoc, bool_decide_eq_false_2;
          [done|by rewrite <- Hseen]. }
      rewrite Hs. apply IH. intros k.
      rewrite elem_of_union, elem_of_singleton, Hseen.
      rewrite List.map_app, elem_of_app. cbn [List.map].
      rewrite list_elem_of_singleton. tauto.
Qed.

Lemma unique_keywords_first_occurrences lib kws :
  Server.unique_keywords lib kws = first_occurrences (Server.lower lib) kws.
Proof.
  unfold Server.unique_keywords.
  apply (see_loop lib kws [] ∅). intros k. cbn [List.map].
  split; intros H; [by apply elem_of_empty in H|by apply elem_of_nil in H].
Qed.

Lemma NoDup_take {A} n (l : list A) : List.NoDup l -> List.NoDup (take n l).
Proof.
  revert n. induction l as [|x l IH]; intros [|n] H; cbn [take firstn];
    try constructor.
  - apply List.NoDup_cons_iff in H as [Hx _]. intros Hin. apply Hx.
    revert Hin. clear. revert n. induction l as [|y l IH]; intros [|n];
      cbn [firstn]; try done.
    intros [->|H]; [by left|right; by apply (IH n)].
  - apply IH. by apply List.NoDup_cons_iff in H as [_ H].
Qed.

Lemma candidates_long pos_tags k :
  In k (candidates pos_tags) -> 1 < length (strip k).
Proof.
  unfold candidates. intros H. apply in_map_iff in H as (wt & <- & Hwt).
  apply filter_In in Hwt as [_ Hwt]. apply andb_true_iff in Hwt as [_ Hlen].
  rewrite strip_idempotent. by apply Nat.ltb_lt.
Qed.

(** C10 (defect of the code). [extract_keywords] always returns, with at
    most ten keywords, and a text that is empty or blank gives the empty
    list. For Thai no keyword is ever selected: line 159 asks [pos_tag] for
    an engine "orchid_ud", which pythainlp does not have, the [ValueError]
    is caught by the [except] clause, and the result is the first ten
    whitespace-separated tokens of the text, with the tokens that come
    twice and those of one character. *)
Theorem extract_keywords_thai_fallback lib text language :
  (exists kws,
     Server.extract_keywords lib text language = Returned kws
     /\ length kws <= 10)
  /\ (strip text = [] ->
      Server.extract_keywords lib text language = Returned [])
  /\ (no_such_engine lib -> strip text <> [] ->
      Server.word_tokenize_newmm lib text <> Returned [] ->
      Server.extract_keywords lib text (str "th")
      = Returned (take 10 (PyStr.split text))).
Proof.
  split; [|split].
  - unfold Server.extract_keywords.
    destruct (negb _); [exists []; split; [done|cbn; lia]|].
    destruct (bool_decide (language = str "th")).
    + destruct (Server.word_tokenize_newmm lib text) as [words|e];
        cbn [mbind outcome_bind try_except];
        [|eexists; split; [done|apply take_length_le]].
      destruct (Server.pos_tag_orchid_ud lib words) as [pos_tags|e];
        cbn [mbind outcome_bind try_except];
        eexists; (split; [done|apply take_length_le]).
    + cbn [try_except]. eexists; split; [done|apply take_length_le].
  - intros E. unfold Server.extract_keywords. by rewrite E.
  - intros Hno NE Hwords. unfold Server.extract_keywords.
    destruct (PyStr.truthy (strip text)) eqn:Et;
      [|by apply truthy_nonempty in Et]. cbn [negb].
    rewrite bool_decide_eq_true_2 by done.
    destruct (Server.word_tokenize_newmm lib text) as [words|e];
      cbn [mbind outcome_bind try_except]; [|done].
    rewrite Hno; [done|]. by intros ->.
Qed.

Lemma extract_keywords_thai_fallback_witness :
  Server.extract_keywords thai_library repeated (str "th")
  = Returned (take 10 (PyStr.split repeated))
  /\ take 10 (PyStr.split repeated) = [ str "งาน"; str "งาน"; str "ก" ].
Proof.
  split; [|vm_compute; reflexivity].
  apply (proj2 (proj2 (extract_keywords_thai_fallback
                         thai_library repeated (str "th")))).
  - intros words _. reflexivity.
  - vm_compute. discriminate.
  - discriminate.
Defined.

(* ===================================================================== *)
(** ** Further properties of the heuristic summary *)
(* ===================================================================== *)

Import Props.

Lemma In_take {A} n (l : list A) x : In x (take n l) -> In x l.
Proof.
  revert n. induction l as [|y l IH]; intros [|n]; cbn [firstn]; try done.
  intros [->|H]; [by left|right; by apply (IH n)].
Qed.

Lemma stripped_nonblank_In parts s :
  In s (stripped_nonblank parts) -> s <> [] /\ strip s = s.
Proof.
  unfold stripped_nonblank. intros H.
  apply in_map_iff in H as (p & <- & Hp). apply filter_In in Hp as [_ Hp].
  split; [|apply strip_idempotent]. intros E. by rewrite E in Hp.
Qed.

Lemma thai_sentences_stripped nlp text s :
  In s (_thai_sentences nlp text) -> s <> [] /\ strip s = s.
Proof.
  unfold _thai_sentences. destruct (HAS_THAI nlp);
    [destruct (sent_tokenize nlp text)|]; apply stripped_nonblank_In.
Qed.

Lemma sentences_stripped nlp sm s :
  In s (sentences nlp sm) -> s <> [] /\ strip s = s.
Proof.
  unfold sentences. intros H. apply in_flat_map in H as (u & _ & H).
  by apply thai_sentences_stripped in H.
Qed.

(** X1. Nothing enters the heuristic summary unfounded: every decision and
    every risk listed is a sentence of the log that contains a trigger of
    its vocabulary, every action item was built from a sentence of the log
    that contains an action trigger, every such sentence is stripped and
    not empty, and every highlight is an utterance text of the log with at
    least 25 characters. *)
Theorem summary_entries_sound nlp sm :
  let d := summarize_offline nlp sm in
  (forall s, In s (decisions d) ->
     In s (sentences nlp sm) /\ is_decision s = true
     /\ s <> [] /\ strip s = s)
  /\ (forall a, In a (action_items d) ->
        In (task a) (sentences nlp sm) /\ is_action (task a) = true
        /\ a = action_item_of (task a)
        /\ task a <> [] /\ strip (task a) = task a)
  /\ (forall s, In s (risks_or_followups d) ->
        In s (sentences nlp sm) /\ is_risk s = true
        /\ s <> [] /\ strip s = s)
  /\ (forall h, In h (highlights d) ->
        In h (texts (utterances sm)) /\ 25 <= length h).
Proof.
  intros d. destruct (summarize_offline_fields nlp sm)
    as (_ & Hd & Ha & Hr & Hh). fold d in Hd, Ha, Hr, Hh.
  split; [|split; [|split]].
  - intros s Hs. rewrite Hd in Hs. apply In_take, filter_In in Hs as [Hs Hm].
    split; [done|]. split; [done|]. by apply (sentences_stripped nlp sm).
  - intros a Hin. rewrite Ha in Hin. apply In_take, in_map_iff in Hin
      as (s & <- & Hs). apply filter_In in Hs as [Hs Hm]. cbn [task action_item_of].
    split; [done|]. split; [done|]. split; [done|].
    by apply (sentences_stripped nlp sm).
  - intros s Hs. rewrite Hr in Hs. apply In_take, filter_In in Hs as [Hs Hm].
    split; [done|]. split; [done|]. by apply (sentences_stripped nlp sm).
  - intros h Hin. rewrite Hh in Hin. apply In_take, filter_In in Hin as [Hin Hm].
    split; [done|]. unfold is_highlight in Hm.
    apply andb_true_iff in Hm as [Hm _]. by apply Nat.leb_le.
Qed.

Lemma StronglySorted_take {A} (R : A -> A -> Prop) n l :
  StronglySorted R l -> StronglySorted R (take n l).
Proof.
  revert n. induction l as [|x l IH]; intros [|n] H; cbn [firstn];
    try constructor.
  - apply IH. by apply StronglySorted_inv in H as [H _].
  - apply StronglySorted_inv in H as [_ H]. rewrite List.Forall_forall in *.
    intros y Hy. by apply H, (In_take n).
Qed.

(** X2. The topics are distinct tokens of the stripped concatenation, none
    of them a stop word or shorter than two characters, and they are listed
    by non-increasing frequency. *)
Theorem topics_sound nlp sm :
  let tokens := _thai_words nlp (all_text sm) in
  let ts := topics (summarize_offline nlp sm) in
  List.NoDup ts
  /\ (forall t, In t ts ->
        In t tokens /\ (t ∉ topic_stopwords) /\ 2 <= length t)
  /\ StronglySorted
       (fun a b => frequency tokens b <= frequency tokens a) ts.
Proof.
  intros tokens ts.
  destruct (summarize_offline_fields nlp sm) as (Ht & _).
  destruct (extract_topics_ranking nlp (all_text sm) 6)
    as (ranking & (Hnd & Hin & Hs) & Heq).
  fold tokens in Hin, Hs. subst ts. rewrite Ht, Heq.
  split; [by apply NoDup_take|]. split.
  - intros t Hin'. apply In_take, Hin, filter_In in Hin' as [Hin' Hc].
    split; [done|]. unfold counted in Hc.
    apply andb_true_iff in Hc as [H1 H2].
    apply negb_true_iff in H1, H2.
    split; [by apply bool_decide_eq_false in H1|].
    by apply Nat.ltb_ge in H2.
  - apply StronglySorted_take.
    apply (StronglySorted_weaken (ranks_before tokens)); [|done].
    intros a b _ _. unfold ranks_before. lia.
Qed.

Lemma take_app_prefix {A} n (l k : list A) :
  take n l `prefix_of` take n (l ++ k).
Proof.
  revert n. induction l as [|x l IH]; intros n.
  - rewrite take_nil. apply prefix_nil.
  - destruct n as [|n]; [apply prefix_nil|].
    cbn [app firstn]. apply prefix_cons, IH.
Qed.

(** X3. One more utterance never rewrites what the summary already lists:
    the decisions, action items, risks and highlights of the summary before
    the utterance are a prefix of those after it. *)
Theorem summary_lists_grow nlp sm ts text :
  let d := summarize_offline nlp sm in
  let d' := summarize_offline nlp (add_utterance sm ts text) in
  decisions d `prefix_of` decisions d'
  /\ action_items d `prefix_of` action_items d'
  /\ risks_or_followups d `prefix_of` risks_or_followups d'
  /\ highlights d `prefix_of` highlights d'.
Proof.
  intros d d'.
  destruct (summarize_offline_fields nlp sm) as (_ & Hd & Ha & Hr & Hh).
  destruct (summarize_offline_fields nlp (add_utterance sm ts text))
    as (_ & Hd' & Ha' & Hr' & Hh').
  fold d in Hd, Ha, Hr, Hh. fold d' in Hd', Ha', Hr', Hh'.
  assert (Hss : sentences nlp (add_utterance sm ts text)
                = sentences nlp sm ++ _thai_sentences nlp text).
  { unfold sentences, add_utterance. cbn [utterances].
    rewrite flat_map_app. cbn [flat_map snd]. by rewrite app_nil_r. }
  assert (Hts : texts (utterances (add_utterance sm ts text))
                = texts (utterances sm) ++ [text]).
  { unfold texts, add_utterance. cbn [utterances]. by rewrite List.map_app. }
  rewrite Hd, Ha, Hr, Hh, Hd', Ha', Hr', Hh', Hss, Hts.
  rewrite !List.filter_app, List.map_app.
  repeat split; apply take_app_prefix.
Qed.

(* ===================================================================== *)
(** ** What the patterns extract *)
(* ===================================================================== *)

Lemma startswith_spec t s :
  startswith t s = true <-> exists post, s = t ++ post.
Proof.
  revert s. induction t as [|a t IH]; intros s; cbn [startswith].
  - split; [by exists s|done].
  - destruct s as [|b s]; [split; [done|by intros [? ?]]|].
    rewrite andb_true_iff, N.eqb_eq, IH. split.
    + intros [-> [post ->]]. by exists post.
    + intros [post [= -> ->]]. split; [done|by exists post].
Qed.

Lemma contains_spec t s :
  contains t s = true <-> exists pre post, s = pre ++ t ++ post.
Proof.
  induction s as [|c s IH]; cbn [contains];
    rewrite orb_true_iff, startswith_spec.
  - split.
    + intros [[post H]|H]; [by exists [], post|done].
    + intros (pre & post & H). left. destruct pre; [by exists post|done].
  - rewrite IH. split.
    + intros [[post H]|(pre & post & ->)]; [by exists [], post|].
      by exists (c :: pre), post.
    + intros (pre & post & H). destruct pre as [|c' pre].
      * left. by exists post.
      * right. injection H as -> ->. by exists pre, post.
Qed.

(** What [re.search] returns is a part of the text searched. *)
Lemma search_found r s m :
  search r s = Some m -> exists pre post, s = pre ++ m ++ post.
Proof.
  induction s as [|c s IH]; cbn [search]; unfold match_here;
    destruct (match_k r _ Some) as [rest|] eqn:E;
    cbn [fmap option_fmap option_map].
  - intros [= <-]. by exists [], [].
  - done.
  - intros [= <-]. exists [], (drop (length (c :: s) - length rest) (c :: s)).
    by rewrite app_nil_l, take_drop.
  - intros H. apply IH in H as (pre & post & ->). by exists (c :: pre), post.
Qed.

Lemma first_found_cases pats s :
  first_found pats s = unspecified
  \/ exists pat m, In pat pats /\ search pat s = Some m
                   /\ first_found pats s = m.
Proof.
  induction pats as [|pat pats IH]; cbn [first_found]; [by left|].
  destruct (search pat s) as [m|] eqn:E.
  - right. exists pat, m. split; [by left|done].
  - destruct IH as [IH|(pat' & m & Hin & Hs & Hf)]; [by left|].
    right. exists pat', m. split; [by right|done].
Qed.

(** Greedy repetition followed by a rest that always matches takes the
    whole run of the class. *)
Lemma repeat_greedy_total cl lo s (k : pystr -> option pystr) :
  (forall x, k x = Some x) ->
  repeat_greedy cl lo None s k
  = if lo <=? span cl s then Some (drop (span cl s) s) else None.
Proof.
  intros Hk. revert lo. induction s as [|c s IH]; intros lo;
    cbn [repeat_greedy span may_take].
  - destruct lo; [by rewrite Hk|done].
  - rewrite andb_true_r. destruct (in_class cl c).
    + rewrite IH. cbn [fmap option_fmap option_map].
      destruct lo as [|lo]; [done|]. cbn [Nat.pred].
      change (S lo <=? S (span cl s)) with (lo <=? span cl s).
      by destruct (lo <=? span cl s).
    + destruct lo; [by rewrite Hk|done].
Qed.

Lemma span_le cl s : span cl s <= length s.
Proof.
  induction s as [|c s IH]; cbn [span length]; [done|].
  destruct (in_class cl c); lia.
Qed.

Lemma span_take cl s c : In c (take (span cl s) s) -> in_class cl c = true.
Proof.
  induction s as [|a s IH]; cbn [span]; [done|].
  destruct (in_class cl a) eqn:E; [|done]. cbn [firstn].
  intros [<-|H]; [done|by apply IH].
Qed.

(** A match of [(h[^\s]+)] at the start of [s]: [h], then all that follows
    up to the next whitespace, which is at least one character. *)
Lemma match_here_honorific h s :
  match_here (honorific h) s
  = if startswith (str h) s
       && (1 <=? span NotSpace (drop (length (str h)) s))
    then Some (str h ++ take (span NotSpace (drop (length (str h)) s))
                             (drop (length (str h)) s))
    else None.
Proof.
  unfold match_here, honorific, cat, lit. cbn [fold_right match_k].
  destruct (startswith (str h) s) eqn:Eh; [|done]. cbn [andb].
  rewrite repeat_greedy_total; [|done].
  apply startswith_spec in Eh as [post ->].
  rewrite drop_app_length.
  pose proof (span_le NotSpace post) as Hle.
  destruct (1 <=? span NotSpace post); [|done].
  cbn [fmap option_fmap option_map]. f_equal.
  rewrite length_drop, length_app.
  replace (length (str h) + length post - (length post - span NotSpace post))
    with (length (str h) + span NotSpace post) by lia.
  by rewrite take_app_add.
Qed.

Lemma search_honorific h s m :
  search (honorific h) s = Some m ->
  exists run, m = str h ++ run /\ run <> []
              /\ Forall (fun c => isspace c = false) run
              /\ contains (str h) s = true.
Proof.
  induction s as [|c s IH]; cbn [search contains];
    rewrite match_here_honorific.
  - destruct (startswith (str h) []) eqn:Eh; cbn [andb]; [|done].
    rewrite drop_nil. by cbn [span Nat.leb].
  - destruct (startswith (str h) (c :: s)) eqn:Eh; cbn [andb orb].
    + destruct (1 <=? _) eqn:E1.
      * intros [= <-]. eexists. split; [done|].
        apply Nat.leb_le in E1. split.
        { intros E. apply (f_equal length) in E. rewrite length_take in E.
          pose proof (span_le NotSpace (drop (length (str h)) (c :: s))).
          cbn [length] in E. lia. }
        split; [|done]. rewrite List.Forall_forall. intros x Hx.
        apply span_take in Hx. by apply negb_true_iff in Hx.
      * intros H. apply IH in H as (run & -> & ? & ? & ?). by exists run.
    + intros H. apply IH in H as (run & -> & ? & ? & Hc). exists run.
      by rewrite Hc.
Qed.

Lemma honorific_nonspace h :
  In h [ "คุณ"; "พี่"; "นาย"; "นาง"; "นางสาว" ]%string ->
  Forall (fun c => isspace c = false) (str h).
Proof.
  intros H. repeat (destruct H as [<-|H]; [by repeat constructor|]).
  destruct H.
Qed.

(** X4. The assignee and the deadline of an action item are the default
    text or a part of the sentence as it stands. An assignee that was found
    is an honorific followed by at least one character, and has no
    whitespace in it; without an honorific in the sentence the assignee is
    the default. *)
Theorem extraction_from_sentence sentence :
  (_extract_assignee sentence = unspecified
   \/ contains (_extract_assignee sentence) sentence = true
      /\ Forall (fun c => isspace c = false) (_extract_assignee sentence)
      /\ exists h, In h honorifics
                   /\ startswith h (_extract_assignee sentence) = true
                   /\ length h < length (_extract_assignee sentence))
  /\ (_extract_due sentence = unspecified
      \/ contains (_extract_due sentence) sentence = true)
  /\ ((forall h, In h honorifics -> contains h sentence = false) ->
      _extract_assignee sentence = unspecified).
Proof.
  assert (Hfound : forall pat m,
    In pat assignee_patterns -> search pat sentence = Some m ->
    exists h, In h [ "คุณ"; "พี่"; "นาย"; "นาง"; "นางสาว" ]%string
      /\ exists run, m = str h ++ run /\ run <> []
           /\ Forall (fun c => isspace c = false) run
           /\ contains (str h) sentence = true).
  { intros pat m Hin Hs. unfold assignee_patterns in Hin.
    apply in_map_iff in Hin as (h & <- & Hh). exists h. split; [done|].
    by apply search_honorific. }
  split; [|split].
  - unfold _extract_assignee.
    destruct (first_found_cases assignee_patterns sentence)
      as [H|(pat & m & Hin & Hs & ->)]; [by left|right].
    split; [by apply contains_spec, (search_found pat)|].
    destruct (Hfound pat m Hin Hs) as (h & Hh & run & -> & Hne & Hrun & _).
    split; [apply Forall_app; split; [by apply honorific_nonspace|done]|].
    exists (str h). split; [by apply (in_map str)|].
    split; [apply startswith_spec; by exists run|].
    rewrite length_app. destruct run; [done|cbn [length]; lia].
  - unfold _extract_due.
    destruct (first_found_cases due_patterns sentence)
      as [H|(pat & m & Hin & Hs & ->)]; [by left|right].
    by apply contains_spec, (search_found pat).
  - intros Hnone. unfold _extract_assignee.
    destruct (first_found_cases assignee_patterns sentence)
      as [H|(pat & m & Hin & Hs & _)]; [done|exfalso].
    destruct (Hfound pat m Hin Hs) as (h & Hh & run & _ & _ & _ & Hc).
    rewrite Hnone in Hc; [done|]. by apply (in_map str).
Qed.

Lemma extraction_from_sentence_witness :
  _extract_assignee (str "ส่งรายงานพรุ่งนี้") = unspecified.
Proof.
  apply (proj2 (proj2 (extraction_from_sentence (str "ส่งรายงานพรุ่งนี้")))).
  intros h Hin. unfold honorifics in Hin. cbn [List.map In] in Hin.
  repeat (destruct Hin as [<-|Hin]; [vm_compute; reflexivity|]).
  destruct Hin.
Defined.

Lemma search_none r s :
  search r s = None -> match_here r s = None.
Proof. destruct s; cbn [search]; by destruct (match_here r _). Qed.

Lemma search_cons_none r c s :
  search r (c :: s) = None -> match_here r (c :: s) = None /\ search r s = None.
Proof. cbn [search]. by destruct (match_here r (c :: s)). Qed.

Lemma miss_needs_mrs s :
  search (honorific "นาง") s = None -> search (honorific "นางสาว") s = None.
Proof.
  assert (Hhere : forall s,
    match_here (honorific "นาง") s = None ->
    match_here (honorific "นางสาว") s = None).
  { intros s0. rewrite !match_here_honorific.
    destruct (startswith (str "นางสาว") s0) eqn:E; [|done].
    apply startswith_spec in E as [post ->].
    change (str "นางสาว") with (str "นาง" ++ str "สาว").
    rewrite <- app_assoc.
    rewrite (proj2 (startswith_spec (str "นาง") _)) by by eexists.
    rewrite drop_app_length. cbn [andb].
    assert (Hs : exists c r, str "สาว" = c :: r /\ isspace c = false)
      by (eexists _, _; split; vm_compute; reflexivity).
    destruct Hs as (c & r & -> & Hc).
    cbn [app span in_class]. rewrite Hc. cbn [negb Nat.leb].
    intros H. discriminate H. }
  induction s as [|c s IH].
  - intros H. apply search_none, Hhere in H. cbn [search]. by rewrite H.
  - intros H. apply search_cons_none in H as [H1 H2].
    cbn [search]. by rewrite (Hhere _ H1), (IH H2).
Qed.

(** X5. The last assignee pattern, for the honorific "นางสาว", never decides:
    a sentence in which it matches is matched by the pattern for "นาง"
    before it, so the result is that of the first four patterns. *)
Theorem fifth_pattern_never_decides sentence :
  _extract_assignee sentence = first_found (take 4 assignee_patterns) sentence.
Proof.
  unfold _extract_assignee, assignee_patterns.
  cbn [List.map firstn first_found].
  repeat (match goal with
          | |- context [search (honorific ?h) sentence] =>
              destruct (search (honorific h) sentence) eqn:?; [done|]
          end).
  by rewrite miss_needs_mrs.
Qed.

(* ===================================================================== *)
(** ** Further properties of the capture path *)
(* ===================================================================== *)

Lemma no_repeat_snoc l x :
  no_repeat l -> last l <> Some x -> no_repeat (l ++ [x]).
Proof.
  induction l as [|a l IH]; [done|].
  destruct l as [|b l]; cbn [app no_repeat].
  - intros _ H. split; [|done]. intros ->. by apply H.
  - intros [Hab Hl] H. split; [done|]. apply IH; [done|].
    by rewrite last_cons_cons in H.
Qed.

Lemma process_text_cases a text now :
  reachable a ->
  _process_text a text now = a
  \/ (strip text <> [] /\ last_accepted a <> Some (strip text)
      /\ _process_text a text now
         = {| live_transcript := deque_append 5 (live_transcript a) (strip text);
              all_utterances := all_utterances a ++ [(now, strip text)];
              last_text := Some (strip text);
              summarizer := add_utterance (summarizer a) now (strip text) |}).
Proof.
  intros Hr. destruct (decide (strip text = [])) as [E|NE].
  { left. apply process_text_rejected; [done|by left]. }
  destruct (decide (last_accepted a = Some (strip text))) as [E|Hnew].
  { left. apply process_text_rejected; [done|by right]. }
  right. split; [done|]. split; [done|]. by apply process_text_accepted.
Qed.

(** X6. In every state of the augmenter the summarizer holds the very log
    of the augmenter, the remembered text is the text of the last
    utterance, every logged text is stripped and not empty, and no two
    consecutive utterances have the same text. *)
Theorem log_invariants a :
  reachable a ->
  utterances (summarizer a) = all_utterances a
  /\ last_text a = last (texts (all_utterances a))
  /\ Forall (fun t => t <> [] /\ strip t = t) (texts (all_utterances a))
  /\ no_repeat (texts (all_utterances a)).
Proof.
  intros Hr. destruct (reachable_invariant a Hr) as (Hlast & _ & Hsm).
  split; [done|]. split; [done|]. clear Hlast Hsm.
  assert (Hproc : forall a text now, reachable a ->
    Forall (fun t => t <> [] /\ strip t = t) (texts (all_utterances a))
    /\ no_repeat (texts (all_utterances a)) ->
    Forall (fun t => t <> [] /\ strip t = t)
           (texts (all_utterances (_process_text a text now)))
    /\ no_repeat (texts (all_utterances (_process_text a text now)))).
  { intros a0 text now Hr0 [Hf Hn].
    destruct (process_text_cases a0 text now Hr0) as [->|(NE & Hnew & ->)];
      [done|].
    cbn [all_utterances]. unfold texts in *. rewrite List.map_app.
    cbn [List.map snd]. split.
    - apply Forall_app. split; [done|].
      constructor; [|constructor]. split; [done|apply strip_idempotent].
    - by apply no_repeat_snoc. }
  induction Hr as [|a text now Hr IH|a r now Hr IH].
  - split; [constructor|done].
  - by apply Hproc.
  - destruct r as [text| |e]; [by apply Hproc|done|done].
Qed.

Lemma log_invariants_witness :
  let a := augmenter (run [ Callback (Recognized greeting) 1%Z;
                            Callback (Recognized (greeting ++ str " ")) 2%Z;
                            Callback (RequestError (str "timeout")) 3%Z;
                            Callback (Recognized (str "เริ่มประชุม")) 4%Z ]) in
  utterances (summarizer a) = all_utterances a
  /\ last_text a = last (texts (all_utterances a))
  /\ Forall (fun t => t <> [] /\ strip t = t) (texts (all_utterances a))
  /\ no_repeat (texts (all_utterances a)).
Proof. intros a. apply log_invariants. apply run_reachable. Defined.

Lemma deque_append_last_five (l : list pystr) x :
  deque_append 5 (drop (length l - 5) l) x
  = drop (length (l ++ [x]) - 5) (l ++ [x]).
Proof.
  unfold deque_append. rewrite length_drop, length_app. cbn [length].
  destruct (5 <=? length l - (length l - 5)) eqn:E.
  - apply Nat.leb_le in E. rewrite drop_drop.
    rewrite drop_app_le by lia. f_equal. f_equal. lia.
  - apply Nat.leb_gt in E.
    replace (length l - 5) with 0 by lia.
    replace (length l + 1 - 5) with 0 by lia. by rewrite !drop_0.
Qed.

(** X7. As long as no recognition request has failed, the window is
    exactly the last five texts of the log, or the whole log when it is
    shorter. *)
Theorem window_last_five evs :
  forallb (fun ev => negb (is_request_error ev)) evs = true ->
  let a := augmenter (run evs) in
  live_transcript a
  = drop (length (all_utterances a) - 5) (texts (all_utterances a)).
Proof.
  intros Hall. cbv zeta. unfold run.
  assert (Hgen : forall s,
    live_transcript (augmenter s)
    = drop (length (all_utterances (augmenter s)) - 5)
           (texts (all_utterances (augmenter s))) ->
    live_transcript (augmenter (fold_left step evs s))
    = drop (length (all_utterances (augmenter (fold_left step evs s))) - 5)
           (texts (all_utterances (augmenter (fold_left step evs s))))).
  { induction evs as [|ev evs IH]; intros s Hs; [done|].
    cbn [forallb] in Hall. apply andb_true_iff in Hall as [Hev Hall].
    cbn [fold_left]. apply (IH Hall).
    destruct ev as [r now|]; cbn [step augmenter]; [|done].
    destruct r as [text| |e]; cbn [_audio_callback]; [|done|done].
    clear Hev. unfold _process_text. destruct (negb _); [done|].
    destruct (_ && _); [done|]. cbn [live_transcript all_utterances].
    rewrite Hs. unfold texts. rewrite List.map_app. cbn [List.map snd].
    rewrite <- (length_map snd (all_utterances (augmenter s))).
    rewrite deque_append_last_five.
    by rewrite !length_app, !length_map. }
  by apply Hgen.
Qed.

Lemma window_last_five_witness :
  let a := augmenter (run [ Callback (Recognized (str "1")) 1%Z;
                            Callback (Recognized (str "2")) 2%Z;
                            Callback (Recognized (str "3")) 3%Z;
                            Callback UnknownValueError 4%Z;
                            Callback (Recognized (str "4")) 5%Z;
                            Callback (Recognized (str "5")) 6%Z;
                            Callback (Recognized (str "6")) 7%Z ]) in
  live_transcript a
  = drop (length (all_utterances a) - 5) (texts (all_utterances a)).
Proof. apply window_last_five. vm_compute. reflexivity. Defined.

Lemma deque_append_In maxlen (d : list pystr) x y :
  In y (deque_append maxlen d x) -> In y d \/ y = x.
Proof.
  unfold deque_append. destruct (maxlen <=? length d); intros H;
    apply in_app_or in H as [H|[<-|[]]]; auto.
  left. apply list_elem_of_In. apply list_elem_of_In in H.
  by apply (subseteq_drop 1).
Qed.

(** X8. Whatever the callbacks deliver, failed requests included, the
    window never holds more than five lines, each of them is the text of an
    utterance of the log or the notice of a failed request, and a failed
    request or an unintelligible segment leaves the log and the
    summarizer's log untouched. *)
Theorem window_entries a :
  reachable a ->
  length (live_transcript a) <= 5
  /\ (forall line, In line (live_transcript a) ->
        In line (texts (all_utterances a)) \/ exists e, line = notice e)
  /\ (forall r now, (forall text, r <> Recognized text) ->
        all_utterances (_audio_callback a r now) = all_utterances a
        /\ summarizer (_audio_callback a r now) = summarizer a).
Proof.
  intros Hr. split; [|split].
  - induction Hr as [|a text now Hr IH|a r now Hr IH]; [cbn; lia| |].
    + by apply process_text_window_length.
    + destruct r as [text| |e]; cbn [_audio_callback live_transcript];
        [by apply process_text_window_length|done|by apply deque_append_length].
  - assert (Hproc : forall a text now, reachable a ->
      (forall line, In line (live_transcript a) ->
         In line (texts (all_utterances a)) \/ exists e, line = notice e) ->
      forall line, In line (live_transcript (_process_text a text now)) ->
         In line (texts (all_utterances (_process_text a text now)))
         \/ exists e, line = notice e).
    { intros a0 text now Hr0 H0 line.
      destruct (process_text_cases a0 text now Hr0) as [->|(_ & _ & ->)];
        [apply H0|].
      cbn [live_transcript all_utterances]. unfold texts.
      rewrite List.map_app. cbn [List.map snd]. intros Hin.
      apply deque_append_In in Hin as [Hin| ->].
      - destruct (H0 line Hin) as [H|H]; [|by right].
        left. apply in_or_app. by left.
      - left. apply in_or_app. right. by left. }
    induction Hr as [|a text now Hr IH|a r now Hr IH]; [done| |].
    + by apply Hproc.
    + destruct r as [text| |e]; [by apply Hproc|done|].
      cbn [_audio_callback live_transcript all_utterances]. intros line Hin.
      apply deque_append_In in Hin as [Hin| ->]; [by apply IH|].
      right. exists e. unfold notice. reflexivity.
  - intros r now Hne. destruct r as [text| |e]; [by destruct (Hne text)|done|done].
Qed.

Lemma window_entries_witness :
  let a := augmenter (run [ Callback (Recognized greeting) 1%Z;
                            Callback (RequestError (str "timeout")) 2%Z ]) in
  length (live_transcript a) <= 5.
Proof. intros a. apply window_entries. apply run_reachable. Defined.

(* ===================================================================== *)
(** ** The chunks fed to the recognizer *)
(* ===================================================================== *)

Lemma chunk_count_step L n :
  0 < n -> 0 < L -> (L + n - 1) / n = S ((L - n + n - 1) / n).
Proof.
  intros Hn HL. destruct (le_lt_dec n L) as [Hle|Hlt].
  - replace (L - n + n - 1) with (L - 1) by lia.
    replace (L + n - 1) with (L - 1 + 1 * n) by lia.
    rewrite Nat.div_add by lia. lia.
  - replace (L - n + n - 1) with (n - 1) by lia.
    replace (L + n - 1) with (L - 1 + 1 * n) by lia.
    rewrite Nat.div_add by lia. rewrite !Nat.div_small by lia. lia.
Qed.

Lemma chunks_nil n : 0 < n -> Service.chunks n [] = [].
Proof.
  intros Hn. unfold Service.chunks, Service.range_step. cbn [length].
  by rewrite Nat.div_small by lia.
Qed.

Lemma chunks_cons n (data : Service.bytes) :
  0 < n -> data <> [] ->
  Service.chunks n data = take n data :: Service.chunks n (drop n data).
Proof.
  intros Hn Hne. unfold Service.chunks, Service.range_step.
  rewrite length_drop.
  rewrite (chunk_count_step (length data) n) by (done || by destruct data; cbn; [|lia]).
  cbn [seq List.map]. rewrite Nat.mul_0_l, drop_0. f_equal.
  rewrite <- seq_shift, !List.map_map. apply map_ext. intros k.
  rewrite drop_drop. f_equal.
Qed.

Lemma chunks_facts n : 0 < n -> forall m (data : Service.bytes),
  length data <= m ->
  concat (Service.chunks n data) = data
  /\ Forall (fun c => 0 < length c <= n) (Service.chunks n data)
  /\ (forall i c, Service.chunks n data !! i = Some c ->
        S i < length (Service.chunks n data) -> length c = n).
Proof.
  intros Hn. induction m as [|m IH]; intros data Hlen.
  - destruct data; [|cbn in Hlen; lia]. rewrite chunks_nil by done.
    split; [done|]. split; [constructor|]. by intros i c.
  - destruct data as [|b data].
    { rewrite chunks_nil by done.
      split; [done|]. split; [constructor|]. by intros i c. }
    rewrite chunks_cons by done.
    destruct (IH (drop n (b :: data))) as (Hc & Hf & Hfull).
    { rewrite length_drop. cbn [length] in *. lia. }
    split; [|split].
    + cbn [concat]. by rewrite Hc, take_drop.
    + constructor; [|done]. rewrite length_take. cbn [length]. lia.
    + intros [|i] c; cbn [lookup list_lookup length].
      * intros [= <-] Hlt. rewrite length_take.
        destruct (drop n (b :: data)) as [|x rest] eqn:E.
        { rewrite chunks_nil in Hlt by done. cbn in Hlt. lia. }
        apply (f_equal length) in E. rewrite length_drop in E.
        cbn [length] in *. lia.
      * intros Hi Hlt. apply (Hfull i c Hi). lia.
Qed.

(** X9. The loop of [process_audio_segment] cuts the audio into chunks that
    put together give the audio back: no chunk is empty or longer than 4096
    bytes, every chunk but the last has exactly 4096 bytes, and there are
    as many chunks as 4096 goes into the length, rounded up. *)
Theorem chunks_partition (pcm_data : Service.bytes) :
  let cs := Service.chunks 4096 pcm_data in
  concat cs = pcm_data
  /\ Forall (fun c => 0 < length c <= 4096) cs
  /\ (forall i c, cs !! i = Some c -> S i < length cs -> length c = 4096)
  /\ length cs = (length pcm_data + 4095) / 4096.
Proof.
  intros cs. destruct (chunks_facts 4096 ltac:(lia) (length pcm_data) pcm_data)
    as (H1 & H2 & H3); [done|].
  split; [done|]. split; [done|]. split; [done|].
  subst cs. unfold Service.chunks, Service.range_step.
  rewrite !length_map, length_seq. f_equal. lia.
Qed.

(* ===================================================================== *)
(** ** The recognizer pool *)
(* ===================================================================== *)

Lemma pop_nil {A} (l : list A) : Service.pop l = None <-> l = [].
Proof.
  unfold Service.pop. destruct (rev l) as [|x r] eqn:E.
  - split; [|done]. intros _. apply (f_equal (@rev A)) in E.
    by rewrite rev_involutive in E.
  - split; [done|]. intros ->. done.
Qed.

Lemma pop_some {A} (l : list A) x r :
  Service.pop l = Some (x, r) <-> l = r ++ [x].
Proof.
  unfold Service.pop. split.
  - destruct (rev l) as [|y q] eqn:E; [done|]. intros [= -> <-].
    apply (f_equal (@rev A)) in E. by rewrite rev_involutive in E.
  - intros ->. rewrite rev_app_distr. cbn [rev app].
    by rewrite rev_involutive.
Qed.

Lemma get_recognizer_cases env st :
  (Service.recognizer_pool st = []
   /\ snd (Service.get_recognizer env st) = st
   /\ (fst (Service.get_recognizer env st) = Service.Done Service.fresh
       \/ exists e, fst (Service.get_recognizer env st) = Service.Failed e))
  \/ (exists pool r,
        Service.recognizer_pool st = pool ++ [r]
        /\ Service.get_recognizer env st
           = (Service.Done (Service.Reset r), Service.with_pool st pool)).
Proof.
  unfold Service.get_recognizer.
  destruct (Service.pop (Service.recognizer_pool st)) as [[r pool]|] eqn:E.
  - right. exists pool, r. split; [by apply pop_some|done].
  - left. split; [by apply pop_nil|].
    destruct (negb (Service.model st)); [split; [done|right; by eexists]|].
    destruct (Service.KaldiRecognizer env) as [[]|e];
      (split; [done|]); [by left|right; by eexists].
Qed.

Lemma return_recognizer_pool st r :
  Service.recognizer_pool (Service.return_recognizer st r)
  = if length (Service.recognizer_pool st) <? Service.RECOGNIZER_POOL_SIZE
    then Service.recognizer_pool st ++ [r]
    else Service.recognizer_pool st.
Proof.
  unfold Service.return_recognizer.
  by destruct (length (Service.recognizer_pool st) <? _).
Qed.

Lemma return_recognizer_bounded st r :
  bounded st -> bounded (Service.return_recognizer st r).
Proof.
  unfold bounded. rewrite return_recognizer_pool.
  destruct (length (Service.recognizer_pool st) <? _) eqn:E; [|done].
  apply Nat.ltb_lt in E. rewrite length_app. cbn [length]. lia.
Qed.

Lemma process_audio_segment_pool env lib st audio_data language :
  Service.recognizer_pool
    (snd (Service.process_audio_segment env lib st audio_data language))
  = match Service.get_recognizer env st with
    | (Service.Failed _, st') => Service.recognizer_pool st'
    | (Service.Done r, st') =>
        Service.recognizer_pool
          (Service.return_recognizer st'
             (snd (Service.recognize env lib r audio_data language)))
    end.
Proof.
  unfold Service.process_audio_segment.
  destruct (Service.get_recognizer env st) as [[r|e] st']; [|done].
  destruct (Service.recognize env lib r audio_data language) as [[resp|e] r'];
    done.
Qed.

Lemma process_audio_segment_bounded env lib st audio_data language :
  bounded st ->
  bounded (snd (Service.process_audio_segment env lib st audio_data language)).
Proof.
  intros Hb. unfold bounded. rewrite process_audio_segment_pool.
  destruct (get_recognizer_cases env st)
    as [(Hnil & Hst & _)|(pool & r & Hpool & ->)].
  - destruct (Service.get_recognizer env st) as [[r|e] st']; cbn [snd] in Hst;
      subst st'; [|done]. by apply return_recognizer_bounded.
  - apply return_recognizer_bounded. unfold bounded in *.
    rewrite Hpool, length_app in Hb. cbn [Service.with_pool Service.recognizer_pool length] in *.
    lia.
Qed.

Lemma transcribe_audio_state env lib st audio_file language :
  snd (Service.transcribe_audio env lib st audio_file language) = st
  \/ exists audio_data,
       snd (Service.transcribe_audio env lib st audio_file language)
       = snd (Service.process_audio_segment env lib st audio_data language).
Proof.
  unfold Service.transcribe_audio.
  destruct (negb (Service.model_loaded st)); [by left|].
  destruct (Service.validate_audio_file lib audio_file); [by left|].
  destruct (negb _); [by left|].
  destruct (Service.read audio_file) as [audio_data|e]; [|by left].
  destruct (length audio_data =? 0); [by left|].
  right. exists audio_data.
  destruct (Service.process_audio_segment env lib st audio_data language)
    as [[resp|[code detail|e]] st']; cbn [snd]; [|done|done].
  by destruct (Service.respond env resp).
Qed.

Lemma process_audio_segment_globals env lib st audio_data language :
  let st' := snd (Service.process_audio_segment
                    env lib st audio_data language) in
  Service.model st' = Service.model st
  /\ Service.model_loaded st' = Service.model_loaded st
  /\ Service.total_requests st' = Service.total_requests st
  /\ Service.active_requests st' = Service.active_requests st.
Proof.
  cbv zeta. unfold Service.process_audio_segment.
  assert (Hsame :
    Service.model (snd (Service.get_recognizer env st)) = Service.model st
    /\ Service.model_loaded (snd (Service.get_recognizer env st))
       = Service.model_loaded st
    /\ Service.total_requests (snd (Service.get_recognizer env st))
       = Service.total_requests st
    /\ Service.active_requests (snd (Service.get_recognizer env st))
       = Service.active_requests st).
  { destruct (get_recognizer_cases env st)
      as [(_ & -> & _)|(pool & r & _ & ->)]; done. }
  destruct (Service.get_recognizer env st) as [[r|e] st1]; cbn [snd] in *;
    [|done].
  destruct (Service.recognize env lib r audio_data language) as [[resp|e] r'];
    cbn [snd]; unfold Service.return_recognizer;
    destruct (length (Service.recognizer_pool st1) <? _); done.
Qed.

Lemma process_audio_segment_failure env lib st audio_data language e :
  fst (Service.process_audio_segment env lib st audio_data language)
  = Service.Failed e ->
  exists detail, e = Service.HTTPException 500 detail.
Proof.
  unfold Service.process_audio_segment.
  destruct (Service.get_recognizer env st) as [[r|e0] st1].
  - destruct (Service.recognize env lib r audio_data language)
      as [[resp|e1] r']; cbn [fst]; [done|].
    intros [= <-]. by eexists.
  - cbn [fst]. intros [= <-]. by eexists.
Qed.

(** X10. The pool never grows beyond its size: loading the model sets it to
    exactly three recognizers or leaves it alone, and taking a recognizer,
    returning one, processing a segment and serving a request keep it
    within three. *)
Theorem pool_bounded env lib st :
  bounded st ->
  bounded (snd (Service.load_model env st))
  /\ (fst (Service.load_model env st) = Service.Done () ->
      Service.recognizer_pool (snd (Service.load_model env st))
      = List.repeat Service.fresh 3)
  /\ bounded (snd (Service.get_recognizer env st))
  /\ (forall r, bounded (Service.return_recognizer st r))
  /\ (forall audio_data language,
        bounded (snd (Service.process_audio_segment
                        env lib st audio_data language)))
  /\ (forall audio_file language,
        bounded (snd (Service.transcribe_audio
                        env lib st audio_file language))).
Proof.
  intros Hb. repeat split.
  - unfold Service.load_model. destruct (negb _); [done|].
    destruct (Service.Model env); [|done].
    destruct (Service.KaldiRecognizer env); [|done].
    unfold bounded, Service.RECOGNIZER_POOL_SIZE. cbn. lia.
  - unfold Service.load_model. destruct (negb _); [done|].
    destruct (Service.Model env); [|done].
    by destruct (Service.KaldiRecognizer env).
  - destruct (get_recognizer_cases env st)
      as [(_ & -> & _)|(pool & r & Hpool & ->)]; [done|].
    unfold bounded in *. rewrite Hpool, length_app in Hb.
    cbn [snd Service.with_pool Service.recognizer_pool]. lia.
  - intros r. by apply return_recognizer_bounded.
  - intros. by apply process_audio_segment_bounded.
  - intros audio_file language.
    destruct (transcribe_audio_state env lib st audio_file language)
      as [->|[audio_data ->]]; [done|].
    by apply process_audio_segment_bounded.
Qed.

Lemma pool_bounded_witness :
  bounded (snd (Service.process_audio_segment
                  Cases.backend noun_tagger Cases.idle
                  Cases.audio (str "en"))).
Proof.
  apply (pool_bounded Cases.backend noun_tagger Cases.idle).
  unfold bounded, Service.RECOGNIZER_POOL_SIZE. cbn. lia.
Defined.

Lemma feed_accepted env cs r :
  (fst (Service.feed env r cs) = Returned ()
   /\ Service.accepted (snd (Service.feed env r cs))
      = Service.accepted r ++ cs)
  \/ exists taken chunk rest e,
       cs = taken ++ chunk :: rest
       /\ Service.accepted (snd (Service.feed env r cs))
          = Service.accepted r ++ taken
       /\ Service.waveform env (Service.accepted r ++ taken) chunk = Raised e
       /\ fst (Service.feed env r cs) = Raised e.
Proof.
  revert r. induction cs as [|c cs IH]; intros r; cbn [Service.feed].
  - left. split; [done|]. by rewrite app_nil_r.
  - unfold Service.AcceptWaveform.
    destruct (Service.waveform env (Service.accepted r) c) as [[]|e] eqn:Ew.
    + destruct (IH {| Service.accepted := Service.accepted r ++ [c] |})
        as [[Hf Ha]|(taken & chunk & rest & e & -> & Ha & Hw & Hf)];
        cbn [Service.accepted] in *; rewrite <- app_assoc in *.
      * left. by split.
      * right. by exists (c :: taken), chunk, rest, e.
    + right. exists [], c, cs, e. by rewrite app_nil_r.
Qed.

Lemma recognize_served env lib r audio_data language :
  Service.accepted r = [] ->
  served env audio_data (snd (Service.recognize env lib r audio_data language))
  /\ forall response,
       fst (Service.recognize env lib r audio_data language)
       = Returned response ->
       heard env audio_data
         (snd (Service.recognize env lib r audio_data language)).
Proof.
  intros Hr. unfold served, heard, Service.recognize.
  destruct (Service.raw_data env audio_data) as [pcm_data|e0]; [|done].
  destruct (feed_accepted env (Service.chunks 4096 pcm_data) r)
    as [[Hf Ha]|(taken & chunk & rest & e & Hcs & Ha & Hw & Hf)];
    rewrite Hr in *; cbn [app] in *;
    destruct (Service.feed env r (Service.chunks 4096 pcm_data))
      as [[[]|e1] r1]; cbn [fst snd] in *; try done.
  - split; [by left|]. intros _ _. exists pcm_data. split; [done|].
    rewrite Ha.
    by destruct (chunks_facts 4096 ltac:(lia) (length pcm_data) pcm_data)
      as (H1 & _).
  - split; [|done]. right. exists chunk, rest, e. by rewrite Ha.
Qed.

Lemma process_audio_segment_with env lib st st1 r0 audio_data language :
  Service.get_recognizer env st = (Service.Done r0, st1) ->
  Service.process_audio_segment env lib st audio_data language
  = (match fst (Service.recognize env lib r0 audio_data language) with
     | Returned response => Service.Done response
     | Raised e =>
         Service.Failed (Service.failed_processing env (Service.Other e))
     end,
     Service.return_recognizer st1
       (snd (Service.recognize env lib r0 audio_data language))).
Proof.
  intros Hget. unfold Service.process_audio_segment. rewrite Hget.
  by destruct (Service.recognize env lib r0 audio_data language) as [[?|?] ?].
Qed.

(** X11. [process_audio_segment] gives back the recognizer it took,
    whether it returns or raises: a pool that was not empty has the same
    recognizers below the top and, on top again, the one that was used; an
    empty pool gets the recognizer that was made for the request. That
    recognizer holds nothing of earlier requests: it has accepted the
    chunks of this audio up to the first one Vosk refused, none at all
    when the conversion of the audio failed, and the whole audio when the
    call returns. The other globals are as before. *)
Theorem recognizer_given_back env lib st audio_data language :
  bounded st ->
  let outcome := fst (Service.process_audio_segment
                        env lib st audio_data language) in
  let st' := snd (Service.process_audio_segment
                    env lib st audio_data language) in
  (forall pool r, Service.recognizer_pool st = pool ++ [r] ->
     exists r', Service.recognizer_pool st' = pool ++ [r']
       /\ served env audio_data r'
       /\ forall response, outcome = Service.Done response ->
                           heard env audio_data r')
  /\ (Service.recognizer_pool st = [] ->
      Service.model st = true -> Service.KaldiRecognizer env = Returned () ->
      exists r', Service.recognizer_pool st' = [r']
        /\ served env audio_data r'
        /\ forall response, outcome = Service.Done response ->
                            heard env audio_data r')
  /\ Service.model st' = Service.model st
  /\ Service.model_loaded st' = Service.model_loaded st
  /\ Service.total_requests st' = Service.total_requests st
  /\ Service.active_requests st' = Service.active_requests st.
Proof.
  intros Hb outcome st'.
  assert (Hgiven : forall r0 st1,
    Service.get_recognizer env st = (Service.Done r0, st1) ->
    Service.accepted r0 = [] ->
    length (Service.recognizer_pool st1) < Service.RECOGNIZER_POOL_SIZE ->
    exists r', Service.recognizer_pool st' = Service.recognizer_pool st1 ++ [r']
      /\ served env audio_data r'
      /\ forall response, outcome = Service.Done response ->
                          heard env audio_data r').
  { intros r0 st1 Hget Hr0 Hlen. subst outcome st'.
    rewrite (process_audio_segment_with _ _ _ _ _ _ _ Hget). cbn [fst snd].
    rewrite return_recognizer_pool, (proj2 (Nat.ltb_lt _ _) Hlen).
    destruct (recognize_served env lib r0 audio_data language Hr0)
      as [Hs Hh].
    eexists. split; [done|]. split; [done|]. intros response Hdone.
    destruct (fst (Service.recognize env lib r0 audio_data language))
      as [resp|e] eqn:E; [by apply (Hh resp)|done]. }
  split; [|split].
  - intros pool r Hpool.
    apply (Hgiven (Service.Reset r) (Service.with_pool st pool)); [|done|].
    + unfold Service.get_recognizer.
      by rewrite (proj2 (pop_some _ r pool) Hpool).
    + unfold bounded in Hb. rewrite Hpool, length_app in Hb.
      cbn [length Service.with_pool Service.recognizer_pool] in *.
      unfold Service.RECOGNIZER_POOL_SIZE in *. lia.
  - intros Hnil Hmodel Hnew.
    destruct (Hgiven Service.fresh st) as (r' & Hp & H); [|done| |].
    + unfold Service.get_recognizer.
      by rewrite (proj2 (pop_nil _) Hnil), Hmodel, Hnew.
    + rewrite Hnil. unfold Service.RECOGNIZER_POOL_SIZE. cbn [length]. lia.
    + exists r'. rewrite Hnil in Hp. by split.
  - subst st'. apply process_audio_segment_globals.
Qed.

Lemma recognizer_given_back_witness :
  exists r',
    Service.recognizer_pool
      (snd (Service.process_audio_segment
              Cases.backend noun_tagger Cases.idle
              Cases.audio (str "en")))
    = [Service.fresh] ++ [r']
    /\ served Cases.backend Cases.audio r'
    /\ forall response,
         fst (Service.process_audio_segment
                Cases.backend noun_tagger Cases.idle Cases.audio (str "en"))
         = Service.Done response ->
         heard Cases.backend Cases.audio r'.
Proof.
  apply (proj1 (recognizer_given_back Cases.backend noun_tagger
                  Cases.idle Cases.audio (str "en")
                  ltac:(unfold bounded, Service.RECOGNIZER_POOL_SIZE; cbn; lia))
               [Service.fresh] Service.fresh).
  reflexivity.
Defined.

(* ===================================================================== *)
(** ** Processing a segment *)
(* ===================================================================== *)

(** X12. Whatever goes wrong in [process_audio_segment] reaches the caller
    as an HTTP error 500. This holds also when the pool is empty and no
    model is loaded: the error 503 of [get_recognizer] is raised inside the
    [try] and comes out as 500, with the pool still empty. *)
Theorem processing_fails_with_500 env lib st audio_data language :
  (forall e,
     fst (Service.process_audio_segment env lib st audio_data language)
     = Service.Failed e ->
     exists detail, e = Service.HTTPException 500 detail)
  /\ (Service.recognizer_pool st = [] -> Service.model st = false ->
      Service.process_audio_segment env lib st audio_data language
      = (Service.Failed (Service.failed_processing env
                   (Service.HTTPException 503
                      (str "AI Model is not available"))),
         st)).
Proof.
  split.
  - intros e. apply process_audio_segment_failure.
  - intros Hnil Hmodel. unfold Service.process_audio_segment,
      Service.get_recognizer.
    by rewrite (proj2 (pop_nil _) Hnil), Hmodel.
Qed.

Lemma processing_fails_with_500_witness :
  let st := {| Service.model := false; Service.recognizer_pool := [];
               Service.model_loaded := true;
               Service.total_requests := 0; Service.active_requests := 0 |} in
  Service.process_audio_segment Cases.backend noun_tagger st
    Cases.audio (str "en")
  = (Service.Failed (Service.failed_processing Cases.backend
               (Service.HTTPException 503 (str "AI Model is not available"))),
     st).
Proof.
  intros st.
  by apply (proj2 (processing_fails_with_500 Cases.backend
                     noun_tagger st Cases.audio (str "en"))).
Defined.

Lemma recognize_outcome_fresh env lib r audio_data language :
  Service.accepted r = [] ->
  fst (Service.recognize env lib r audio_data language)
  = fst (Service.recognize env lib Service.fresh audio_data language).
Proof.
  intros Hr. destruct r as [chunks]. cbn [Service.accepted] in Hr.
  by subst chunks.
Qed.

Lemma process_audio_segment_result env lib st audio_data language :
  obtainable env st ->
  fst (Service.process_audio_segment env lib st audio_data language)
  = match fst (Service.recognize env lib Service.fresh audio_data language) with
    | Returned response => Service.Done response
    | Raised e => Service.Failed (Service.failed_processing env (Service.Other e))
    end.
Proof.
  intros Hob. unfold Service.process_audio_segment.
  assert (Hget : exists r st1,
    Service.get_recognizer env st = (Service.Done r, st1) /\ Service.accepted r = []).
  { unfold Service.get_recognizer.
    destruct (Service.pop (Service.recognizer_pool st)) as [[r pool]|] eqn:E.
    - by eexists _, _.
    - apply pop_nil in E. destruct Hob as [Hne|[Hm Hk]]; [done|].
      rewrite Hm, Hk. by eexists _, _. }
  destruct Hget as (r & st1 & -> & Hr).
  pose proof (recognize_outcome_fresh env lib r audio_data language Hr) as Hfst.
  destruct (Service.recognize env lib r audio_data language) as [o r'].
  cbn [fst] in Hfst. rewrite <- Hfst. by destruct o.
Qed.

(** X13. What a request gets does not depend on the pool: every recognizer
    is reset when it is taken, so with any two states in which a recognizer
    can be had, the same audio and language give the same response or the
    same error. *)
Theorem response_independent_of_pool env lib st1 st2 audio_data language :
  obtainable env st1 -> obtainable env st2 ->
  fst (Service.process_audio_segment env lib st1 audio_data language)
  = fst (Service.process_audio_segment env lib st2 audio_data language).
Proof.
  intros H1 H2. by rewrite !process_audio_segment_result.
Qed.

Lemma response_independent_of_pool_witness :
  fst (Service.process_audio_segment Cases.backend noun_tagger
         Cases.idle Cases.audio (str "en"))
  = fst (Service.process_audio_segment Cases.backend noun_tagger
           (Service.with_pool Cases.idle
              [ {| Service.accepted := [Cases.audio] |} ])
           Cases.audio (str "en")).
Proof.
  apply response_independent_of_pool; left; discriminate.
Defined.

Lemma split_go_nonempty s cur :
  PyStr.truthy cur = true -> PyStr.split_go s cur <> [].
Proof.
  revert cur. induction s as [|c s IH]; intros cur Hcur;
    cbn [PyStr.split_go]; rewrite ?Hcur; [done|].
  destruct (isspace c); [done|]. apply IH. by destruct cur.
Qed.

Lemma split_stripped_nonempty s :
  s <> [] -> strip s = s -> PyStr.split s <> [].
Proof.
  intros Hne Hs. apply strip_fixed in Hs as [Hl _].
  destruct s as [|c s]; [done|]. apply lstrip_head in Hl.
  unfold PyStr.split. cbn [PyStr.split_go]. rewrite Hl.
  by apply split_go_nonempty.
Qed.

Lemma extract_keywords_total lib text language :
  exists kws,
    Server.extract_keywords lib text language = Returned kws
    /\ length kws <= 10.
Proof.
  unfold Server.extract_keywords.
  destruct (negb _); [exists []; split; [done|cbn; lia]|].
  destruct (bool_decide (language = str "th")).
  - destruct (Server.word_tokenize_newmm lib text) as [words|e];
      cbn [mbind outcome_bind try_except];
      [|eexists; split; [done|apply take_length_le]].
    destruct (Server.pos_tag_orchid_ud lib words) as [pos_tags|e];
      cbn [mbind outcome_bind try_except];
      eexists; (split; [done|apply take_length_le]).
  - cbn [try_except]. eexists; split; [done|apply take_length_le].
Qed.

(** X14. A response of [process_audio_segment] carries a stripped text, the
    keywords [extract_keywords] finds in that text, at most ten of them,
    the language of the request, and as word count the number of
    whitespace-separated words of the text, which is zero exactly for the
    empty text. *)
Theorem response_fields env lib st audio_data language response :
  fst (Service.process_audio_segment env lib st audio_data language)
  = Service.Done response ->
  strip (Service.full_text response) = Service.full_text response
  /\ Server.extract_keywords lib (Service.full_text response) language
     = Returned (Service.keywords response)
  /\ length (Service.keywords response) <= 10
  /\ Service.language response = language
  /\ Service.word_count response
     = length (PyStr.split (Service.full_text response))
  /\ (Service.word_count response = 0 <-> Service.full_text response = []).
Proof.
  unfold Service.process_audio_segment.
  destruct (Service.get_recognizer env st) as [[r|e0] st1]; [|done].
  destruct (Service.recognize env lib r audio_data language)
    as [[resp|e1] r'] eqn:E; cbn [fst]; [|done].
  intros [= ->]. unfold Service.recognize in E.
  destruct (Service.raw_data env audio_data) as [pcm_data|e]; [|done].
  destruct (Service.feed env r _) as [[[]|e] r1]; [|done].
  injection E as E _.
  destruct (Service.FinalResult env _) as [result_json|e]; [|done].
  cbn [mbind outcome_bind] in E.
  destruct (Service.json_loads env result_json) as [result_dict|e]; [|done].
  cbn [mbind outcome_bind] in E.
  destruct (PyOps.py_get result_dict (str "text") (PStr [])) as [text|e];
    [|done]. cbn [mbind outcome_bind] in E.
  destruct text as [| | | |s| |]; try done. cbn [PyOps.py_strip mbind outcome_bind] in E.
  destruct (PyOps.py_get result_dict (str "conf") (PFloat 0)) as [conf|e];
    [|done]. cbn [mbind outcome_bind] in E.
  destruct (Server.extract_keywords lib (strip s) language) as [kws|e] eqn:Ek;
    [|done]. cbn [mbind outcome_bind] in E. injection E as <-.
  cbn [Service.full_text Service.keywords Service.language Service.word_count].
  assert (Hcount : (if PyStr.truthy (strip s)
                    then length (PyStr.split (strip s)) else 0)
                   = length (PyStr.split (strip s))).
  { by destruct (strip s). }
  split; [apply strip_idempotent|]. split; [done|]. split.
  { destruct (extract_keywords_total lib (strip s) language) as (k & Hk & Hlen).
    rewrite Ek in Hk. by injection Hk as ->. }
  split; [done|]. split; [done|]. rewrite Hcount. split.
  - intros H0. destruct (decide (strip s = [])) as [|NE]; [done|exfalso].
    apply (split_stripped_nonempty (strip s) NE (strip_idempotent s)).
    by apply length_zero_iff_nil.
  - by intros ->.
Qed.

Lemma response_fields_witness :
  strip (Service.full_text Cases.reply) = Service.full_text Cases.reply
  /\ Server.extract_keywords noun_tagger (Service.full_text Cases.reply)
       (str "en")
     = Returned (Service.keywords Cases.reply)
  /\ length (Service.keywords Cases.reply) <= 10
  /\ Service.language Cases.reply = str "en"
  /\ Service.word_count Cases.reply
     = length (PyStr.split (Service.full_text Cases.reply))
  /\ (Service.word_count Cases.reply = 0
      <-> Service.full_text Cases.reply = []).
Proof.
  apply (response_fields Cases.backend noun_tagger Cases.idle Cases.audio).
  vm_compute. reflexivity.
Defined.

(* ===================================================================== *)
(** ** The English keywords *)
(* ===================================================================== *)

Lemma split_blank s : strip s = [] -> PyStr.split s = [].
Proof. intros H. by rewrite <- split_strip, H. Qed.

(** X15. For a language other than Thai, with sets that hand out each
    element once, the keywords are words of the text with more than three
    characters whose lower case is no stop word, and no keyword comes
    twice; the words are compared as they are written, so two spellings
    that differ in case both stay. Short of ten keywords no such word is
    left out. The fallback of the [except] clause is never taken. *)
Theorem english_keywords lib text language :
  enumerates lib -> language <> str "th" ->
  exists kws,
    Server.extract_keywords lib text language = Returned kws
    /\ List.NoDup kws
    /\ (forall w, In w kws -> In w (PyStr.split text) /\ kept lib w)
    /\ (length kws < 10 ->
        forall w, In w (PyStr.split text) -> kept lib w -> In w kws).
Proof.
  intros Henum Hlang. unfold Server.extract_keywords.
  destruct (PyStr.truthy (strip text)) eqn:Et; cbn [negb].
  2:{ apply truthy_nonempty, split_blank in Et. rewrite Et.
      exists []. split; [done|]. split; [constructor|]. by split. }
  rewrite bool_decide_eq_false_2 by done. cbn [try_except].
  set (keywords := List.filter _ (PyStr.split text)).
  destruct (Henum (list_to_set keywords)) as [Hnd Hin].
  assert (Hk : forall w, In w keywords <-> In w (PyStr.split text) /\ kept lib w).
  { intros w. unfold keywords, kept. rewrite filter_In, andb_true_iff.
    rewrite Nat.ltb_lt, bool_decide_eq_true. tauto. }
  eexists. split; [done|]. split; [by apply NoDup_take|]. split.
  - intros w Hw. apply In_take, Hin in Hw.
    apply elem_of_list_to_set, list_elem_of_In in Hw. by apply Hk.
  - intros Hlen w Hw Hkept. rewrite length_take in Hlen.
    rewrite take_all by lia. apply Hin, elem_of_list_to_set, list_elem_of_In.
    by apply Hk.
Qed.

Lemma english_keywords_witness :
  exists kws,
    Server.extract_keywords noun_tagger request (str "en") = Returned kws
    /\ List.NoDup kws
    /\ (forall w, In w kws -> In w (PyStr.split request) /\ kept noun_tagger w)
    /\ (length kws < 10 ->
        forall w, In w (PyStr.split request) -> kept noun_tagger w ->
        In w kws).
Proof.
  apply english_keywords.
  - intros S. split.
    + apply NoDup_ListNoDup, NoDup_elements.
    + intros x. rewrite <- list_elem_of_In. apply elem_of_elements.
  - vm_compute. discriminate.
Defined.

(* ===================================================================== *)
(** ** Validation of the upload *)
(* ===================================================================== *)

Lemma too_large_oversized file :
  Service.too_large file = true <-> oversized file.
Proof.
  unfold Service.too_large, oversized, Service.MAX_FILE_SIZE.
  destruct (Service.size file) as [n|].
  - rewrite andb_true_iff, negb_true_iff, Z.eqb_neq, Z.ltb_lt. split.
    + intros [_ H]. by exists n.
    + intros (m & [= <-] & H). lia.
  - split; [done|]. by intros (m & H & _).
Qed.

(** X16. [validate_audio_file] looks at the size first: an upload that
    states a size above 50 MB is refused with status 413, whatever its
    name. Otherwise an upload is refused, with status 400, exactly when it
    has a name whose suffix in lower case is not an allowed format; the
    second test of the source, for ".pcm", changes nothing. So an upload
    without a stated size is never refused for its size and one without a
    name never for its format, while a name without a suffix is refused,
    the lower case of the empty string being empty. *)
Theorem validate_audio_file_verdict lib file :
  (oversized file ->
   Service.validate_audio_file lib file
   = Some (Service.HTTPException 413
             (str "File too large. Maximum size: 50MB")))
  /\ (~ oversized file -> misnamed lib file ->
      Service.validate_audio_file lib file
      = Some (Service.HTTPException 400
                (str "Unsupported file format. Supported: "
                 ++ join (str ", ")
                      (Server.set_items lib Service.ALLOWED_AUDIO_FORMATS))))
  /\ (~ oversized file -> ~ misnamed lib file ->
      Service.validate_audio_file lib file = None)
  /\ (Server.lower lib [] = [] ->
      forall name, Service.filename file = Some name -> name <> [] ->
                   Service.suffix name = [] -> misnamed lib file).
Proof.
  assert (Hlarge : ~ oversized file -> Service.too_large file = false).
  { intros H. destruct (Service.too_large file) eqn:E; [|done].
    by apply too_large_oversized in E. }
  unfold Service.validate_audio_file. split; [|split; [|split]].
  - intros H. apply too_large_oversized in H. rewrite H. f_equal.
  - intros H (name & Hname & Hne & Hext). rewrite (Hlarge H), Hname.
    destruct name as [|c name]; [done|]. cbn [PyStr.truthy].
    rewrite bool_decide_eq_true_2 by done. cbn [andb].
    destruct (bool_decide (_ = str ".pcm")) eqn:E; [|done].
    apply bool_decide_eq_true in E. rewrite E in Hext.
    exfalso. apply Hext. by vm_compute.
  - intros H Hmis. rewrite (Hlarge H).
    destruct (Service.filename file) as [name|] eqn:Hname; [|done].
    destruct (PyStr.truthy name) eqn:Et; [|done].
    destruct (bool_decide (_ ∉ _)) eqn:E; [|done].
    apply bool_decide_eq_true in E. exfalso. apply Hmis. exists name.
    split; [done|]. split; [|done]. intros ->. done.
  - intros Hlow name Hname Hne Hsuf. exists name.
    split; [done|]. split; [done|]. rewrite Hsuf, Hlow. by vm_compute.
Qed.

Lemma validate_audio_file_verdict_witness :
  let file := {| Service.size := None;
                 Service.filename := Some (str "notes.txt");
                 Service.read := Returned [] |} in
  Service.validate_audio_file noun_tagger file
  = Some (Service.HTTPException 400
            (str "Unsupported file format. Supported: "
             ++ join (str ", ")
                  (Server.set_items noun_tagger
                     Service.ALLOWED_AUDIO_FORMATS))).
Proof.
  intros file.
  apply (proj1 (proj2 (validate_audio_file_verdict noun_tagger file))).
  - intros (n & H & _). discriminate H.
  - exists (str "notes.txt"). split; [reflexivity|].
    split; [intros H; vm_compute in H; discriminate H|by vm_compute].
Defined.

(* ===================================================================== *)
(** ** The transcription request *)
(* ===================================================================== *)

Lemma validate_audio_file_status lib file e :
  Service.validate_audio_file lib file = Some e ->
  exists code detail,
    e = Service.HTTPException code detail /\ (code = 413 \/ code = 400)%Z.
Proof.
  unfold Service.validate_audio_file.
  destruct (Service.too_large file); [intros [= <-]; eexists _, _; eauto|].
  destruct (Service.filename file) as [name|]; [|done].
  destruct (PyStr.truthy name); [|done].
  destruct (_ && _); [|done]. intros [= <-]. eexists _, _; eauto.
Qed.

(** X17. A request to [transcribe_audio] fails only with an HTTP error, of
    status 400, 413, 500 or 503. The status is 503 exactly when the model
    was not loaded at startup, which is tested before the upload is looked
    at. With every status but 500 the recognizer pool and the other globals
    are as before the request: nothing was taken from the pool. *)
Theorem transcribe_audio_errors env lib st audio_file language e :
  fst (Service.transcribe_audio env lib st audio_file language)
  = Service.Failed e ->
  exists code detail,
    e = Service.HTTPException code detail
    /\ In code [400; 413; 500; 503]%Z
    /\ (code = 503%Z <-> Service.model_loaded st = false)
    /\ (code <> 500%Z ->
        snd (Service.transcribe_audio env lib st audio_file language) = st).
Proof.
  unfold Service.transcribe_audio.
  destruct (Service.model_loaded st); cbn [negb].
  2:{ intros [= <-]. eexists _, _. split; [done|].
      split; [cbn; tauto|]. by split. }
  destruct (Service.validate_audio_file lib audio_file) as [e0|] eqn:Ev.
  { intros [= <-].
    destruct (validate_audio_file_status _ _ _ Ev) as (code & detail & -> & Hc).
    exists code, detail. split; [done|]. split; [cbn; lia|].
    split; [split; [lia|done]|done]. }
  destruct (negb (bool_decide _)).
  { intros [= <-]. eexists _, _. split; [done|]. split; [cbn; tauto|].
    split; [split; [lia|done]|done]. }
  destruct (Service.read audio_file) as [audio_data|e0].
  2:{ intros [= <-]. eexists _, _. split; [done|]. split; [cbn; tauto|].
      split; [split; [lia|done]|done]. }
  destruct (length audio_data =? 0).
  { intros [= <-]. eexists _, _. split; [done|]. split; [cbn; tauto|].
    split; [split; [lia|done]|done]. }
  pose proof (process_audio_segment_failure env lib st audio_data language)
    as Hfail.
  destruct (Service.process_audio_segment env lib st audio_data language)
    as [[result|e0] st1]; cbn [fst] in Hfail.
  - destruct (Service.respond env result); [done|].
    intros [= <-]. eexists _, _. split; [done|]. split; [cbn; tauto|].
    split; [split; [lia|done]|done].
  - destruct (Hfail e0 eq_refl) as [detail ->]. intros [= <-].
    eexists _, _. split; [done|]. split; [cbn; tauto|].
    split; [split; [lia|done]|done].
Qed.

Lemma transcribe_audio_errors_witness :
  exists code detail,
    Service.HTTPException 400 (str "Audio file is empty")
    = Service.HTTPException code detail
    /\ In code [400; 413; 500; 503]%Z
    /\ (code = 503%Z <-> Service.model_loaded Cases.idle = false)
    /\ (code <> 500%Z ->
        snd (Service.transcribe_audio Cases.backend noun_tagger Cases.idle
               {| Service.size := None;
                  Service.filename := Some (str "talk.WAV");
                  Service.read := Returned [] |} (str "th"))
        = Cases.idle).
Proof.
  apply (transcribe_audio_errors Cases.backend noun_tagger Cases.idle
           {| Service.size := None;
              Service.filename := Some (str "talk.WAV");
              Service.read := Returned [] |} (str "th")).
  vm_compute. reflexivity.
Defined.

(** X18. A request that [transcribe_audio] answers has passed every test:
    the model was loaded at startup, the upload was valid, the language is
    Thai or English, the upload could be read and was not empty, and the
    response was made of what [process_audio_segment] returned for the
    bytes read and the language asked for. *)
Theorem transcribe_audio_success env lib st audio_file language response :
  fst (Service.transcribe_audio env lib st audio_file language)
  = Service.Done response ->
  Service.model_loaded st = true
  /\ Service.validate_audio_file lib audio_file = None
  /\ (language = str "th" \/ language = str "en")
  /\ exists audio_data result,
       Service.read audio_file = Returned audio_data
       /\ audio_data <> []
       /\ fst (Service.process_audio_segment env lib st audio_data language)
          = Service.Done result
       /\ Service.respond env result = Returned response
       /\ snd (Service.transcribe_audio env lib st audio_file language)
          = snd (Service.process_audio_segment
                   env lib st audio_data language).
Proof.
  unfold Service.transcribe_audio.
  destruct (Service.model_loaded st); cbn [negb]; [|done].
  destruct (Service.validate_audio_file lib audio_file); [done|].
  destruct (bool_decide (language ∈ Service.SUPPORTED_LANGUAGES)) eqn:El;
    cbn [negb]; [|done].
  apply bool_decide_eq_true in El.
  destruct (Service.read audio_file) as [audio_data|e0]; [|done].
  destruct (length audio_data =? 0) eqn:En; [done|].
  destruct (Service.process_audio_segment env lib st audio_data language)
    as [[result|[code detail|e0]] st1] eqn:Ep; [|done|done].
  destruct (Service.respond env result) as [r|e0] eqn:Er; [|done].
  cbn [fst snd]. intros [= ->]. split; [done|]. split; [done|]. split.
  { unfold Service.SUPPORTED_LANGUAGES in El.
    apply list_elem_of_In in El. cbn [In] in El.
    destruct El as [<-|[<-|[]]]; [by left|by right]. }
  exists audio_data, result. rewrite Ep. split; [done|]. split; [|done].
  intros ->. cbn in En. discriminate En.
Qed.

Lemma transcribe_audio_success_witness :
  Service.model_loaded Cases.idle = true
  /\ Service.validate_audio_file noun_tagger Cases.upload = None
  /\ (str "en" = str "th" \/ str "en" = str "en")
  /\ exists audio_data result,
       Service.read Cases.upload = Returned audio_data
       /\ audio_data <> []
       /\ fst (Service.process_audio_segment
                 Cases.backend noun_tagger Cases.idle audio_data (str "en"))
          = Service.Done result
       /\ Service.respond Cases.backend result = Returned Cases.reply
       /\ snd (Service.transcribe_audio
                 Cases.backend noun_tagger Cases.idle Cases.upload (str "en"))
          = snd (Service.process_audio_segment
                   Cases.backend noun_tagger Cases.idle audio_data (str "en")).
Proof.
  apply (transcribe_audio_success Cases.backend noun_tagger Cases.idle
           Cases.upload (str "en") Cases.reply).
  vm_compute. reflexivity.
Defined.

(* ===================================================================== *)
(** ** The request counters *)
(* ===================================================================== *)

Lemma get_recognizer_counting env st total active :
  Service.get_recognizer env (counting st total active)
  = (fst (Service.get_recognizer env st),
     counting (snd (Service.get_recognizer env st)) total active).
Proof.
  unfold Service.get_recognizer. cbn [counting Service.recognizer_pool Service.model].
  destruct (Service.pop (Service.recognizer_pool st)) as [[r pool]|]; [done|].
  destruct (negb (Service.model st)); [done|].
  by destruct (Service.KaldiRecognizer env).
Qed.

Lemma return_recognizer_counting st r total active :
  Service.return_recognizer (counting st total active) r
  = counting (Service.return_recognizer st r) total active.
Proof.
  unfold Service.return_recognizer. cbn [counting Service.recognizer_pool].
  by destruct (length (Service.recognizer_pool st) <? _).
Qed.

Lemma process_audio_segment_counting env lib st audio_data language total active :
  Service.process_audio_segment env lib (counting st total active)
    audio_data language
  = (fst (Service.process_audio_segment env lib st audio_data language),
     counting (snd (Service.process_audio_segment
                      env lib st audio_data language)) total active).
Proof.
  unfold Service.process_audio_segment. rewrite get_recognizer_counting.
  destruct (Service.get_recognizer env st) as [[r|e] st1]; cbn [fst snd];
    [|done].
  destruct (Service.recognize env lib r audio_data language) as [[resp|e] r'];
    by rewrite return_recognizer_counting.
Qed.

Lemma transcribe_audio_counting env lib st audio_file language total active :
  Service.transcribe_audio env lib (counting st total active)
    audio_file language
  = (fst (Service.transcribe_audio env lib st audio_file language),
     counting (snd (Service.transcribe_audio
                      env lib st audio_file language)) total active).
Proof.
  unfold Service.transcribe_audio. cbn [counting Service.model_loaded].
  destruct (negb (Service.model_loaded st)); [done|].
  destruct (Service.validate_audio_file lib audio_file); [done|].
  destruct (negb _); [done|].
  destruct (Service.read audio_file) as [audio_data|e]; [|done].
  destruct (length audio_data =? 0); [done|].
  rewrite process_audio_segment_counting.
  destruct (Service.process_audio_segment env lib st audio_data language)
    as [[resp|[code detail|e]] st1]; cbn [fst snd]; [|done|done].
  by destruct (Service.respond env resp).
Qed.

Lemma transcribe_audio_globals env lib st audio_file language :
  let st' := snd (Service.transcribe_audio env lib st audio_file language) in
  Service.model st' = Service.model st
  /\ Service.model_loaded st' = Service.model_loaded st
  /\ Service.total_requests st' = Service.total_requests st
  /\ Service.active_requests st' = Service.active_requests st.
Proof.
  cbv zeta.
  destruct (transcribe_audio_state env lib st audio_file language)
    as [->|[audio_data ->]]; [done|].
  apply process_audio_segment_globals.
Qed.

(** X19. Around [transcribe_audio] the middleware counts the request and
    nothing else: the handler answers as it would without the middleware
    and leaves the pool as it would, and when the request is over, answered
    or failed, the total is one more than before and the number of active
    requests is what it was. *)
Theorem request_counted env lib st audio_file language :
  let handler st := Service.transcribe_audio env lib st audio_file language in
  let served := Service.request_counter_middleware st handler in
  fst served = fst (handler st)
  /\ Service.recognizer_pool (snd served)
     = Service.recognizer_pool (snd (handler st))
  /\ Service.total_requests (snd served) = (Service.total_requests st + 1)%Z
  /\ Service.active_requests (snd served) = Service.active_requests st
  /\ Service.model (snd served) = Service.model st
  /\ Service.model_loaded (snd served) = Service.model_loaded st.
Proof.
  cbv zeta. unfold Service.request_counter_middleware.
  change {| Service.model := Service.model st;
            Service.recognizer_pool := Service.recognizer_pool st;
            Service.model_loaded := Service.model_loaded st;
            Service.total_requests := Service.total_requests st + 1;
            Service.active_requests := Service.active_requests st + 1 |}
    with (counting st (Service.total_requests st + 1)
            (Service.active_requests st + 1)).
  rewrite transcribe_audio_counting.
  destruct (transcribe_audio_globals env lib st audio_file language)
    as (Hm & Hl & _ & _).
  cbn [fst snd counting Service.model Service.recognizer_pool
       Service.model_loaded Service.total_requests Service.active_requests].
  repeat split; try done; lia.
Qed.

(* ===================================================================== *)
(** ** Loading the model *)
(* ===================================================================== *)

(** X20. [load_model] succeeds exactly when the model directory exists and
    the model and the recognizers can be made; it then marks the model as
    loaded. When it fails it marks the model as not loaded and leaves the
    pool alone, and every transcription request made in that state is
    refused with status 503, whatever the upload. *)
Theorem load_model_outcome env lib st :
  let st' := snd (Service.load_model env st) in
  (fst (Service.load_model env st) = Service.Done ()
   <-> Service.model_dir_exists env = true
       /\ Service.Model env = Returned ()
       /\ Service.KaldiRecognizer env = Returned ())
  /\ (fst (Service.load_model env st) = Service.Done () ->
      Service.model st' = true /\ Service.model_loaded st' = true)
  /\ (forall e, fst (Service.load_model env st) = Service.Failed e ->
      Service.model_loaded st' = false
      /\ Service.recognizer_pool st' = Service.recognizer_pool st
      /\ forall audio_file language,
           Service.transcribe_audio env lib st' audio_file language
           = (Service.Failed
                (Service.HTTPException 503 (str "AI Model is not available")),
              st')).
Proof.
  cbv zeta. unfold Service.load_model.
  destruct (Service.model_dir_exists env); cbn [negb].
  2:{ split; [split; [done|by intros [? _]]|]. split; [done|].
      intros e _. split; [done|]. split; [done|]. done. }
  destruct (Service.Model env) as [[]|e0].
  2:{ split; [split; [done|by intros (_ & ? & _)]|]. split; [done|].
      intros e _. split; [done|]. split; [done|]. done. }
  destruct (Service.KaldiRecognizer env) as [[]|e0].
  - split; [done|]. split; [done|]. done.
  - split; [split; [done|by intros (_ & _ & ?)]|]. split; [done|].
    intros e _. split; [done|]. split; [done|]. done.
Qed.

Lemma load_model_outcome_witness :
  Service.transcribe_audio Cases.bare noun_tagger
    (snd (Service.load_model Cases.bare Cases.idle)) Cases.upload (str "en")
  = (Service.Failed
       (Service.HTTPException 503 (str "AI Model is not available")),
     snd (Service.load_model Cases.bare Cases.idle)).
Proof.
  destruct (load_model_outcome Cases.bare noun_tagger Cases.idle)
    as (_ & _ & H).
  destruct (H (Service.Other (Exc "FileNotFoundError")) eq_refl)
    as (_ & _ & H3).
  apply H3.
Defined.

(* ===================================================================== *)
(** ** What is shown and saved *)
(* ===================================================================== *)

Lemma summary_get v1 v2 v3 v4 v5 v6 default :
  let s := PDict [ (str "summary", v1); (str "topics", v2);
                   (str "decisions", v3); (str "action_items", v4);
                   (str "risks_or_followups", v5); (str "highlights", v6) ] in
  PyOps.py_get s (str "summary") default = Returned v1
  /\ PyOps.py_get s (str "topics") default = Returned v2
  /\ PyOps.py_get s (str "decisions") default = Returned v3
  /\ PyOps.py_get s (str "action_items") default = Returned v4
  /\ PyOps.py_get s (str "risks_or_followups") default = Returned v5
  /\ PyOps.py_get s (str "highlights") default = Returned v6.
Proof. cbv zeta. repeat split; vm_compute; reflexivity. Qed.

Lemma action_item_get v1 v2 v3 default :
  let a := PDict [ (str "assignee", v1); (str "task", v2); (str "due", v3) ] in
  PyOps.py_get a (str "assignee") default = Returned v1
  /\ PyOps.py_get a (str "task") default = Returned v2
  /\ PyOps.py_get a (str "due") default = Returned v3.
Proof. cbv zeta. repeat split; vm_compute; reflexivity. Qed.

Lemma bullet_block_strings fmt v key title lines l :
  PyOps.py_get v key PNone = Returned (strings l) ->
  Report.bullet_block fmt v key title lines = Returned (lines ++ block title l).
Proof.
  intros H. unfold Report.bullet_block. rewrite H.
  cbn [mbind outcome_bind]. unfold strings.
  destruct l as [|t l]; cbn [List.map truthy block].
  - by rewrite app_nil_r.
  - cbn [PyOps.py_iter mbind outcome_bind]. do 2 f_equal.
    cbn [List.map PyOps.format app]. f_equal. by rewrite List.map_map.
Qed.

Lemma action_line_item fmt a :
  Report.action_line fmt (action_item_dict a) = Returned (item_line a).
Proof.
  unfold Report.action_line, action_item_dict.
  destruct (action_item_get (PStr (assignee a)) (PStr (task a)) (PStr (due a))
              (PStr unspecified)) as (H1 & _ & H3).
  destruct (action_item_get (PStr (assignee a)) (PStr (task a)) (PStr (due a))
              (PStr [])) as (_ & H2 & _).
  cbv zeta in H1, H2, H3. rewrite H1. cbn [mbind outcome_bind].
  rewrite H2. cbn [mbind outcome_bind]. rewrite H3.
  cbn [mbind outcome_bind PyOps.format]. unfold item_line. reflexivity.
Qed.

Lemma action_lines_items fmt items :
  PyOps.all_of (Report.action_line fmt) (List.map action_item_dict items)
  = Returned (List.map item_line items).
Proof.
  induction items as [|a items IH]; cbn [List.map PyOps.all_of]; [done|].
  rewrite action_line_item. cbn [mbind outcome_bind]. rewrite IH.
  cbn [mbind outcome_bind]. reflexivity.
Qed.

Lemma action_block_lines fmt v lines ai ls :
  PyOps.py_get v (str "action_items") PNone = Returned (PList ai) ->
  PyOps.all_of (Report.action_line fmt) ai = Returned ls ->
  Report.action_block fmt v lines
  = Returned (lines ++ match ls with
                       | [] => []
                       | _ => str "- Action items:" :: ls
                       end).
Proof.
  intros H Hls. unfold Report.action_block. rewrite H.
  cbn [mbind outcome_bind PyOps.py_iter].
  destruct ai as [|a ai].
  - cbn [PyOps.all_of] in Hls. injection Hls as <-.
    cbn [truthy]. by rewrite app_nil_r.
  - cbn [truthy]. rewrite Hls. cbn [mbind outcome_bind].
    cbn [PyOps.all_of] in Hls.
    destruct (Report.action_line fmt a) as [y|]; [|done].
    cbn [mbind outcome_bind] in Hls.
    destruct (PyOps.all_of (Report.action_line fmt) ai) as [ys|]; [|done].
    cbn [mbind outcome_bind] in Hls. injection Hls as <-.
    cbn [app]. reflexivity.
Qed.

Lemma summary_lines_layout fmt v s ts ds ai ls rs hs :
  PyOps.py_get v (str "summary") PNone = Returned (PStr s) ->
  PyOps.py_get v (str "topics") PNone = Returned (strings ts) ->
  PyOps.py_get v (str "decisions") PNone = Returned (strings ds) ->
  PyOps.py_get v (str "action_items") PNone = Returned (PList ai) ->
  PyOps.all_of (Report.action_line fmt) ai = Returned ls ->
  PyOps.py_get v (str "risks_or_followups") PNone = Returned (strings rs) ->
  PyOps.py_get v (str "highlights") PNone = Returned (strings hs) ->
  Report.summary_lines fmt v = Returned (layout s ts ds ls rs hs).
Proof.
  intros H1 H2 H3 H4 Hls H5 H6. unfold Report.summary_lines.
  rewrite H1. cbn [mbind outcome_bind].
  rewrite (bullet_block_strings _ _ _ _ _ _ H2). cbn [mbind outcome_bind].
  rewrite (bullet_block_strings _ _ _ _ _ _ H3). cbn [mbind outcome_bind].
  rewrite (action_block_lines _ _ _ _ _ H4 Hls). cbn [mbind outcome_bind].
  rewrite (bullet_block_strings _ _ _ _ _ _ H5). cbn [mbind outcome_bind].
  rewrite (bullet_block_strings _ _ _ _ _ _ H6).
  unfold layout. cbn [truthy PyOps.format]. f_equal.
  rewrite <- !app_assoc.
  destruct (PyStr.truthy s); rewrite <- ?app_assoc; cbn [app]; reflexivity.
Qed.

(** X21. For a summary made by [summarize_offline] the readable text that
    [_save_results] writes is never refused: it is the title and an empty
    line, then the summary line and the blocks of the topics, decisions,
    action items, risks and highlights, each with its title and one bullet
    for each entry, and a block without entries is left out, title
    included. *)
Theorem saved_summary fmt d :
  Report.summary_text fmt (summary_dict d)
  = Returned (join [10%N] (report d)).
Proof.
  pose proof (summary_get (PStr (summary d)) (strings (topics d))
                (strings (decisions d))
                (PList (List.map action_item_dict (action_items d)))
                (strings (risks_or_followups d)) (strings (highlights d))
                PNone) as Hget.
  cbv zeta in Hget. change (PDict _) with (summary_dict d) in Hget.
  destruct Hget as (H1 & H2 & H3 & H4 & H5 & H6).
  unfold Report.summary_text.
  rewrite (summary_lines_layout fmt _ _ _ _ _ _ _ _ H1 H2 H3 H4
             (action_lines_items fmt _) H5 H6).
  reflexivity.
Qed.

Lemma all_of_strings l :
  PyOps.all_of PyOps.as_str (List.map PStr l) = Returned l.
Proof.
  induction l as [|t l IH]; cbn [List.map PyOps.all_of]; [done|].
  cbn [PyOps.as_str mbind outcome_bind]. rewrite IH.
  cbn [mbind outcome_bind]. reflexivity.
Qed.

Lemma summary_panel_strings s ts ds ai rs :
  PyOps.py_get s (str "topics") (PList []) = Returned (strings ts) ->
  PyOps.py_get s (str "decisions") (PList []) = Returned (strings ds) ->
  PyOps.py_get s (str "action_items") (PList []) = Returned (PList ai) ->
  PyOps.py_get s (str "risks_or_followups") (PList [])
  = Returned (strings rs) ->
  Report.summary_panel s
  = Returned
      [ str "   • หัวข้อหลัก: "
        ++ (if PyStr.truthy (join (str ", ") (take 5 ts))
            then join (str ", ") (take 5 ts) else str "-");
        str "   • การตัดสินใจ: " ++ PyOps.decimal (length ds)
          ++ str " รายการ";
        str "   • Action items: " ++ PyOps.decimal (length ai)
          ++ str " รายการ";
        str "   • ความเสี่ยง/ติดตาม: " ++ PyOps.decimal (length rs)
          ++ str " รายการ" ].
Proof.
  intros H1 H2 H3 H4. unfold Report.summary_panel.
  rewrite H1. cbn [mbind outcome_bind]. unfold strings at 1.
  cbn [PyOps.py_slice_to mbind outcome_bind]. unfold PyOps.py_join.
  cbn [PyOps.py_iter mbind outcome_bind].
  rewrite firstn_map, all_of_strings. cbn [mbind outcome_bind].
  rewrite H2. cbn [mbind outcome_bind]. unfold strings at 1.
  cbn [PyOps.py_len mbind outcome_bind]. rewrite H3.
  cbn [PyOps.py_len mbind outcome_bind]. rewrite H4. unfold strings at 1.
  cbn [PyOps.py_len mbind outcome_bind]. by rewrite !length_map.
Qed.

(** X22. With a summary made by [summarize_offline] in the cache the
    dashboard is printed in full, and it is the dashboard of a cache that
    is still empty with the placeholder of the summary, the line before
    the last, replaced by four lines: the first five topics separated by commas, or a dash when there
    is none, and the numbers of decisions, action items and risks. *)
Theorem dashboard_of_document a d :
  exists above below,
    length below = 1
    /\ Report._display_dashboard a PNone
       = Returned (above ++ [ str "   ..." ] ++ below)
    /\ Report._display_dashboard a (summary_dict d)
       = Returned (above ++ panel d ++ below).
Proof.
  pose proof (summary_get (PStr (summary d)) (strings (topics d))
                (strings (decisions d))
                (PList (List.map action_item_dict (action_items d)))
                (strings (risks_or_followups d)) (strings (highlights d))
                (PList [])) as Hget.
  cbv zeta in Hget. change (PDict _) with (summary_dict d) in Hget.
  destruct Hget as (_ & H2 & H3 & H4 & H5 & _).
  assert (Ht : truthy (summary_dict d) = true) by reflexivity.
  unfold Report._display_dashboard. rewrite Ht. cbn [truthy].
  rewrite (summary_panel_strings _ _ _ _ _ H2 H3 H4 H5).
  cbn [mbind outcome_bind]. rewrite length_map. fold (panel d).
  match goal with
  | |- exists above below,
         _ /\ Returned (?h ++ ?t ++ ?m ++ _ ++ ?e) = _ /\ _ =>
      exists (h ++ t ++ m), e
  end.
  split; [reflexivity|]. split; rewrite <- !app_assoc; reflexivity.
Qed.

(** X23. Whatever [summarize] returns can be shown and saved. The library
    taking keyword arguments only, the model is never asked: [summarize]
    raises or returns the heuristic summary, and for that summary neither
    [_display_dashboard] nor the summary text of [_save_results] raises. *)
Theorem returned_summary_shown g nlp sm prefer_gemini a v :
  keyword_only g ->
  summarize g nlp sm prefer_gemini = Returned v ->
  v = summary_dict (summarize_offline nlp sm)
  /\ (exists text, forall fmt, Report.summary_text fmt v = Returned text)
  /\ exists lines, Report._display_dashboard a v = Returned lines.
Proof.
  intros Hkw Hs. rewrite summarize_cases in Hs by done.
  destruct (prefer_gemini && HAS_GEMINI g && has_key g); [done|].
  injection Hs as <-. split; [done|].
  generalize (summarize_offline nlp sm). intros d.
  assert (Hget : forall default,
    PyOps.py_get (summary_dict d) (str "summary") default
    = Returned (PStr (summary d))
    /\ PyOps.py_get (summary_dict d) (str "topics") default
       = Returned (strings (topics d))
    /\ PyOps.py_get (summary_dict d) (str "decisions") default
       = Returned (strings (decisions d))
    /\ PyOps.py_get (summary_dict d) (str "action_items") default
       = Returned (PList (List.map action_item_dict (action_items d)))
    /\ PyOps.py_get (summary_dict d) (str "risks_or_followups") default
       = Returned (strings (risks_or_followups d))
    /\ PyOps.py_get (summary_dict d) (str "highlights") default
       = Returned (strings (highlights d))).
  { intros default. apply summary_get. }
  split.
  - exists (join [10%N] (report d)). intros fmt.
    destruct (Hget PNone) as (H1 & H2 & H3 & H4 & H5 & H6).
    unfold Report.summary_text.
    rewrite (summary_lines_layout fmt _ _ _ _ _ _ _ _ H1 H2 H3 H4
               (action_lines_items fmt _) H5 H6).
    reflexivity.
  - destruct (Hget (PList [])) as (_ & H2 & H3 & H4 & H5 & _).
    unfold Report._display_dashboard.
    destruct (truthy (summary_dict d)); [|by eexists].
    rewrite (summary_panel_strings _ _ _ _ _ H2 H3 H4 H5).
    cbn [mbind outcome_bind]. by eexists.
Qed.

Lemma returned_summary_shown_witness :
  let v := summary_dict (summarize_offline no_thai somchai_log) in
  v = summary_dict (summarize_offline no_thai somchai_log)
  /\ (exists text, forall fmt, Report.summary_text fmt v = Returned text)
  /\ exists lines, Report._display_dashboard init v = Returned lines.
Proof.
  intros v.
  apply (returned_summary_shown keyless_gemini no_thai somchai_log true).
  - by intros [|arg args] kwargs.
  - reflexivity.
Defined.

Lemma dict_get_present (items : list (pystr * pyvalue)) k default v :
  dict_get items k PNone = v -> v <> PNone -> dict_get items k default = v.
Proof.
  induction items as [|[k' v'] items IH]; cbn [dict_get].
  - intros <- H. by destruct H.
  - destruct (bool_decide (k' = k)); [done|apply IH].
Qed.

Lemma is_str_inv v : is_str v = true -> exists s, v = PStr s.
Proof. destruct v; try done. intros _. by eexists. Qed.

Lemma is_str_list_inv v : is_str_list v = true -> exists l, v = strings l.
Proof.
  destruct v as [| | | | |items|]; try done. cbn [is_str_list]. intros H.
  induction items as [|x items IH]; [by exists []|].
  cbn [forallb] in H. apply andb_true_iff in H as [Hx H].
  apply is_str_inv in Hx as [s ->]. destruct (IH H) as [l Hl].
  exists (s :: l). unfold strings in *. cbn [List.map]. by injection Hl as ->.
Qed.

Lemma action_line_valid a :
  is_action_item a = true ->
  exists line, forall fmt, Report.action_line fmt a = Returned line.
Proof.
  destruct a as [| | | | | |items]; try done. cbn [is_action_item].
  intros H. apply andb_true_iff in H as [H H3].
  apply andb_true_iff in H as [H1 H2].
  apply is_str_inv in H1 as [s1 H1], H2 as [s2 H2], H3 as [s3 H3].
  exists (str "  • ผู้รับผิดชอบ: " ++ s1 ++ str ", งาน: " ++ s2
          ++ str ", เส้นตาย: " ++ s3).
  intros fmt. unfold Report.action_line. cbn [PyOps.py_get].
  rewrite (dict_get_present _ _ (PStr unspecified) _ H1) by done.
  rewrite (dict_get_present _ _ (PStr []) _ H2) by done.
  rewrite (dict_get_present _ _ (PStr unspecified) _ H3) by done.
  cbn [mbind outcome_bind PyOps.format]. reflexivity.
Qed.

Lemma action_lines_valid ai :
  forallb is_action_item ai = true ->
  exists ls, forall fmt,
    PyOps.all_of (Report.action_line fmt) ai = Returned ls.
Proof.
  induction ai as [|a ai IH]; cbn [forallb]; [by exists []|].
  intros H. apply andb_true_iff in H as [Ha H].
  destruct (action_line_valid a Ha) as [line Hline].
  destruct (IH H) as [ls Hls]. exists (line :: ls). intros fmt.
  cbn [PyOps.all_of]. rewrite Hline. cbn [mbind outcome_bind].
  rewrite Hls. cbn [mbind outcome_bind]. reflexivity.
Qed.

(** X24. An answer that has the keys and types of a summary document is
    shown and saved without an exception, and its text does not depend on
    how values other than strings would be written, for it holds none
    where one is written. *)
Theorem valid_answer_accepted a v :
  is_summary_document v = true ->
  (exists text, forall fmt, Report.summary_text fmt v = Returned text)
  /\ exists lines, Report._display_dashboard a v = Returned lines.
Proof.
  destruct v as [| | | | | |items]; try done. cbn [is_summary_document].
  intros H. apply andb_true_iff in H as [H H6].
  apply andb_true_iff in H as [H H5]. apply andb_true_iff in H as [H H4].
  apply andb_true_iff in H as [H H3]. apply andb_true_iff in H as [H1 H2].
  apply is_str_inv in H1 as [s H1].
  apply is_str_list_inv in H2 as [ts H2], H3 as [ds H3],
    H5 as [rs H5], H6 as [hs H6].
  destruct (dict_get items (str "action_items") PNone)
    as [| | | | |ai|] eqn:Ha; try done.
  destruct (action_lines_valid ai H4) as [ls Hls].
  assert (Hget : forall k x default, dict_get items k PNone = x ->
    x <> PNone -> PyOps.py_get (PDict items) k default = Returned x).
  { intros k x default Hk Hx. cbn [PyOps.py_get]. f_equal.
    by apply dict_get_present. }
  split.
  - exists (join [10%N] (layout s ts ds ls rs hs)). intros fmt.
    unfold Report.summary_text.
    rewrite (summary_lines_layout fmt (PDict items) s ts ds ai ls rs hs);
      [reflexivity|by apply Hget..|apply Hls|by apply Hget|by apply Hget].
  - unfold Report._display_dashboard.
    destruct (truthy (PDict items)); [|by eexists].
    rewrite (summary_panel_strings (PDict items) ts ds ai rs);
      [|by apply Hget..].
    cbn [mbind outcome_bind]. by eexists.
Qed.

Lemma valid_answer_accepted_witness :
  (exists text, forall fmt,
     Report.summary_text fmt
       (summary_dict (summarize_offline no_thai somchai_log))
     = Returned text)
  /\ exists lines,
       Report._display_dashboard init
         (summary_dict (summarize_offline no_thai somchai_log))
       = Returned lines.
Proof. apply valid_answer_accepted. vm_compute. reflexivity. Defined.
